(** * The commit graph of the TSAR Advisor extension

    A shallow embedding of the commit-graph code of [src/extension.ts]:
    the lane layout of [getCommitGraph] (with its recursive closure [dfs]),
    the scene built by the script of [getGraphWebviewContent], the
    checkout messages exchanged between that script and the handler
    installed by [activate], and the readers of the output of git,
    [getCommitsChildren] and [getCommitsData]. *)

From stdpp Require Import gmap strings list fin_maps relations.

Open Scope Z_scope.

(** ** Outcomes of a JavaScript computation *)

(** A call either returns, throws a [TypeError] (a property read on
    [undefined]), or is cut off by the recursion budget of the model. *)
Inductive outcome (A : Type) : Type :=
  | Done (a : A)
  | TypeError
  | OutOfFuel.
Arguments Done {A} a.
Arguments TypeError {A}.
Arguments OutOfFuel {A}.

Definition is_done {A} (o : outcome A) : bool :=
  match o with Done _ => true | _ => false end.

(** ** Data of the layout *)

(** One line of [git log --pretty=format:"%H %at"], as [getSortedCommits]
    returns it (already sorted by ascending date). *)
Record Commit : Type := mkCommit { hash : string; date : Z }.

(** One element of the array returned by [getCommitGraph].  [children] is
    [commits[commit.hash]], which is [undefined] ([None]) for a hash that
    is not a key of [commits]. *)
Record Entry : Type := mkEntry {
  e_hash : string;
  e_children : option (list string);
  e_height : Z
}.

(** The run recorded at one flush.  This is the only part of the state that
    the source does not have: the code never reads it; it names the runs
    that the statements about runs quantify over.  [ev_run] is [subTree]
    after the push of line 82, [ev_height] is [newHeight + 1], and
    [ev_written] lists the commits whose cell lines 91 and 95 write. *)
Record FlushEvent : Type := mkFlush {
  ev_run : list string;
  ev_height : Z;
  ev_written : list string
}.

(** The variables captured by the closure [dfs].  [height] is a JavaScript
    array, that is an object: the map keeps its own properties, keyed by
    [Some i] for the index [i] and by [None] for the property named
    ["undefined"], which is what [height[hashIdx.get(h)]] reads and writes
    when [h] has no row. *)
Record LState : Type := mkLState {
  height : gmap (option nat) Z;
  subTree : list string;
  flushed : list FlushEvent
}.

(** [x != 0] and [x == 0] on a cell that may be [undefined]. *)
Definition js_neq0 (v : option Z) : bool :=
  match v with Some z => bool_decide (z ≠ 0) | None => true end.

Definition js_eq0 (v : option Z) : bool :=
  match v with Some z => bool_decide (z = 0) | None => false end.

(** Lines 84-88, from [idx] on, for [count] iterations: a comparison with
    [undefined] is false. *)
Fixpoint scan_max (hs : gmap (option nat) Z) (idx : nat) (count : nat)
    (newHeight : Z) : Z :=
  match count with
  | O => newHeight
  | S count' =>
      let newHeight' :=
        match hs !! Some idx with
        | Some v => if bool_decide (v > newHeight) then v else newHeight
        | None => newHeight
        end in
      scan_max hs (S idx) count' newHeight'
  end.

(** The whole loop of lines 83-88: when either bound is [undefined] the
    test [idx <= bound] is false at once. *)
Definition range_max (hs : gmap (option nat) Z) (lo hi : option nat) : Z :=
  match lo, hi with
  | Some a, Some b => scan_max hs a (S b - a)%nat 0
  | _, _ => 0
  end.

(** [subTree[1] .. subTree[subTree.length - 2]]. *)
Definition middle (run : list string) : list string :=
  take (length run - 2)%nat (drop 1 run).

Section Layout.

(** [commits] is the object returned by [getCommitsChildren]; [hashIdx]
    is the [Map] built at lines 73-75.  [commits !! h] is the read
    [commits[h]] of an own property of the object, which is the whole of
    the read when [h] names no property that the object inherits, as is
    the case of every hash, a hash being hexadecimal ([is_hash]); where a
    statement rests on a key being absent, it takes a hash. *)
Variable commits : gmap string (list string).
Variable hashIdx : gmap string nat.

(** [hashIdx.get(h)]. *)
Definition row (h : string) : option nat := hashIdx !! h.

(** Lines 90-92. *)
Definition assign_middle (v : Z) (members : list string)
    (hs : gmap (option nat) Z) : gmap (option nat) Z :=
  foldl (λ acc h, <[row h := v]> acc) hs members.

(** Lines 82-100: the flush of the current run at [commit_hash], whose
    child list is [children]. *)
Definition flush (commit_hash : string) (children : list string)
    (st : LState) : LState :=
  let run := subTree st ++ [commit_hash] in
  let newHeight :=
    range_max (height st) (head run ≫= row) (last run ≫= row) in
  let hs1 := assign_middle (newHeight + 1) (middle run) (height st) in
  let tip := bool_decide (length children = 0%nat)
             && js_eq0 (hs1 !! row commit_hash) in
  let hs2 := if tip then <[row commit_hash := newHeight + 1]> hs1 else hs1 in
  {| height := hs2;
     subTree := [];
     flushed := flushed st ++
       [ {| ev_run := run;
            ev_height := newHeight + 1;
            ev_written := middle run ++ (if tip then [commit_hash] else []) |} ] |}.

(** Line 104. *)
Definition push (commit_hash : string) (st : LState) : LState :=
  {| height := height st;
     subTree := subTree st ++ [commit_hash];
     flushed := flushed st |}.

(** Lines 103-106, with the recursive call abstracted as [visit]. *)
Fixpoint for_neighbors (visit : string → LState → outcome LState)
    (commit_hash : string) (neighbors : list string) (st : LState)
    : outcome LState :=
  match neighbors with
  | [] => Done st
  | neighbor :: rest =>
      match visit neighbor (push commit_hash st) with
      | Done st' => for_neighbors visit commit_hash rest st'
      | TypeError => TypeError
      | OutOfFuel => OutOfFuel
      end
  end.

(** Lines 80-107.  [fuel] bounds the depth of the recursion. *)
Fixpoint dfs (fuel : nat) (commit_hash : string) (st : LState)
    : outcome LState :=
  match fuel with
  | O => OutOfFuel
  | S fuel' =>
      match commits !! commit_hash with
      | None => TypeError
      | Some children =>
          if bool_decide (length children = 0%nat)
             || js_neq0 (height st !! row commit_hash)
          then Done (flush commit_hash children st)
          else for_neighbors (dfs fuel') commit_hash children st
      end
  end.

End Layout.

(** Lines 71-75: later occurrences of a hash overwrite earlier ones. *)
Fixpoint index_from (i : nat) (cs : list Commit) (m : gmap string nat)
    : gmap string nat :=
  match cs with
  | [] => m
  | c :: cs' => index_from (S i) cs' (<[hash c := i]> m)
  end.

Definition build_hashIdx (orderedCommits : list Commit) : gmap string nat :=
  index_from 0 orderedCommits ∅.

(** Line 77: [Array(n).fill(0)]. *)
Definition zero_heights (n : nat) : gmap (option nat) Z :=
  list_to_map ((λ i, (Some i, 0)) <$> seq 0 n).

Definition init_state (n : nat) : LState :=
  {| height := zero_heights n; subTree := []; flushed := [] |}.

(** Lines 77-110: the traversal from the oldest commit, then the forced
    height of row 0.  Reading [.hash] of [orderedCommits[0]] throws when
    the array is empty. *)
Definition layout (fuel : nat) (commits : gmap string (list string))
    (orderedCommits : list Commit) : outcome LState :=
  match orderedCommits with
  | [] => TypeError
  | c0 :: _ =>
      match dfs commits (build_hashIdx orderedCommits) fuel (hash c0)
              (init_state (length orderedCommits)) with
      | Done st =>
          Done {| height := <[Some 0%nat := 1]> (height st);
                  subTree := subTree st;
                  flushed := flushed st |}
      | TypeError => TypeError
      | OutOfFuel => OutOfFuel
      end
  end.

(** The height read at line 117.  The cell of a listed commit is always
    defined (lemma [answer_height_defined]), so the default is never used. *)
Definition height_of (hashIdx : gmap string nat) (hs : gmap (option nat) Z)
    (h : string) : Z :=
  default 0 (hs !! (hashIdx !! h)).

(** Lines 112-120. *)
Definition answer (commits : gmap string (list string))
    (orderedCommits : list Commit) (hs : gmap (option nat) Z) : list Entry :=
  (λ c, {| e_hash := hash c;
           e_children := commits !! hash c;
           e_height := height_of (build_hashIdx orderedCommits) hs (hash c) |})
  <$> orderedCommits.

(** [getCommitGraph], given the results of its two queries. *)
Definition getCommitGraph (fuel : nat) (commits : gmap string (list string))
    (orderedCommits : list Commit) : outcome (list Entry) :=
  match layout fuel commits orderedCommits with
  | Done st => Done (answer commits orderedCommits (height st))
  | TypeError => TypeError
  | OutOfFuel => OutOfFuel
  end.

(** ** Small histories used as examples *)

Definition ord (hs : list string) : list Commit :=
  imap (λ i h, mkCommit h (Z.of_nat i)) hs.


(** Fork a -> b, a -> c with rows a, b, c. *)
Definition fork_commits : gmap string (list string) :=
  {[ "a" := ["b"; "c"]; "b" := []; "c" := [] ]}.

(** Merge a -> b -> d, a -> c -> d. *)
Definition merge_commits : gmap string (list string) :=
  {[ "a" := ["b"; "c"]; "b" := ["d"]; "c" := ["d"]; "d" := [] ]}.

(** ** Predicates on the state of the traversal *)

Section LayoutPredicates.

Variable commits : gmap string (list string).
Variable hashIdx : gmap string nat.

(** [b] is listed among the children of [a]. *)
Definition edge (a b : string) : Prop :=
  ∃ cs, commits !! a = Some cs ∧ b ∈ cs.

(** The child relation has no cycle. *)
Definition acyclic : Prop := ∀ h, ¬ tc edge h h.

(** Every child of a key is itself a key. *)
Definition children_closed : Prop :=
  ∀ a b, edge a b → is_Some (commits !! b).

(** Every child has a row. *)
Definition children_ordered : Prop :=
  ∀ a b, edge a b → is_Some (hashIdx !! b).

(** The members of the current run after its first element have a row
    whose cell is still 0. *)
Definition run_pending (st : LState) : Prop :=
  Forall (λ h, height st !! row hashIdx h = Some 0) (drop 1 (subTree st)).

Definition heights_nonneg (st : LState) : Prop :=
  map_Forall (λ _ v, 0 ≤ v) (height st).

Definition rows_defined (st : LState) : Prop :=
  map_Forall (λ _ i, is_Some (height st !! Some i)) hashIdx.

Definition layout_inv (st : LState) : Prop :=
  run_pending st ∧ heights_nonneg st ∧ rows_defined st.

(** [h] has a row and the cell of that row is not 0. *)
Definition assigned (hs : gmap (option nat) Z) (h : string) : Prop :=
  ∃ i v, hashIdx !! h = Some i ∧ hs !! Some i = Some v ∧ v ≠ 0.

(** No cell that is not 0 changes from [hs] to [hs']. *)
Definition keeps_assigned (hs hs' : gmap (option nat) Z) : Prop :=
  ∀ k v, hs !! k = Some v → v ≠ 0 → hs' !! k = Some v.

(** The keys of the cells that the flush at [commit_hash] writes: the rows
    of the members of the run after its first, and the row of
    [commit_hash] itself when it has no child and no height yet. *)
Definition written_key (commit_hash : string) (children : list string)
    (st : LState) (k : option nat) : Prop :=
  k ∈ row hashIdx <$> drop 1 (subTree st) ∨
  (k = row hashIdx commit_hash ∧ length children = 0%nat ∧
   height st !! k = Some 0).

(** Every commit with a height, outside of [G], has all its children laid
    out. *)
Definition closed_except (G : gset string) (hs : gmap (option nat) Z) : Prop :=
  ∀ a b, assigned hs a → a ∉ G → edge a b → assigned hs b.

(** [newHeight + 1] of the flush at [commit_hash]. *)
Definition flush_height (commit_hash : string) (st : LState) : Z :=
  range_max (height st)
    (head (subTree st ++ [commit_hash]) ≫= row hashIdx)
    (row hashIdx commit_hash) + 1.

(** The rows [row(run.first) .. row(run.last)] scanned by a flush. *)
Definition in_range (run : list string) (i : nat) : Prop :=
  ∃ a b, head run ≫= row hashIdx = Some a ∧
         last run ≫= row hashIdx = Some b ∧ (a ≤ i ≤ b)%nat.

(** [l] continues a path of the child relation that starts at [a]. *)
Fixpoint chain (a : string) (l : list string) : Prop :=
  match l with
  | [] => True
  | b :: l' => edge a b ∧ chain b l'
  end.

(** A check of all edges of [commits] by a boolean test. *)
Definition check_edges (test : string → string → bool) : bool :=
  forallb (λ '(a, cs), forallb (test a) cs) (map_to_list commits).

(** Every child lies on a later row than its parent. *)
Definition later_row (a b : string) : bool :=
  match hashIdx !! a, hashIdx !! b with
  | Some i, Some j => bool_decide (i < j)%nat
  | _, _ => false
  end.

Definition is_key (a b : string) : bool := bool_decide (is_Some (commits !! b)).

(** The row range [(row(run.first), row(run.last))] of a run. *)
Definition run_range (run : list string) : option (nat * nat) :=
  match head run ≫= row hashIdx, last run ≫= row hashIdx with
  | Some a, Some b => Some (a, b)
  | _, _ => None
  end.

(** Two row ranges share more than one row boundary. *)
Definition strictly_overlap (r1 r2 : nat * nat) : Prop :=
  (Nat.max r1.1 r2.1 < Nat.min r1.2 r2.2)%nat.

(** The lane separation as the specification words it: two commits that
    lie on different flushed runs (each on a run the other is not on) whose
    row ranges strictly overlap have different heights. *)
Definition lanes_disjoint (st : LState) : Prop :=
  ∀ e1 e2 c1 c2 r1 r2,
    e1 ∈ flushed st → e2 ∈ flushed st →
    c1 ∈ ev_run e1 → c2 ∈ ev_run e2 →
    c1 ∉ ev_run e2 → c2 ∉ ev_run e1 →
    run_range (ev_run e1) = Some r1 → run_range (ev_run e2) = Some r2 →
    strictly_overlap r1 r2 →
    height_of hashIdx (height st) c1 ≠ height_of hashIdx (height st) c2.

(** Every cell written by a recorded flush still holds the height of that
    flush, which is at least 1. *)
Definition trace_heights (hs : gmap (option nat) Z)
    (tr : list FlushEvent) : Prop :=
  ∀ e c i, e ∈ tr → c ∈ ev_written e → hashIdx !! c = Some i →
    hs !! Some i = Some (ev_height e) ∧ 1 ≤ ev_height e.

(** A flush is above every cell written by an earlier flush inside the row
    range of its run. *)
Definition trace_separated (tr : list FlushEvent) : Prop :=
  ∀ (j1 j2 : nat) e1 e2 c1 i1,
    tr !! j1 = Some e1 → tr !! j2 = Some e2 → (j1 < j2)%nat →
    c1 ∈ ev_written e1 → hashIdx !! c1 = Some i1 →
    in_range (ev_run e2) i1 →
    ev_height e1 < ev_height e2.

Definition trace_inv (hs : gmap (option nat) Z) (tr : list FlushEvent) : Prop :=
  trace_heights hs tr ∧ trace_separated tr.

End LayoutPredicates.

Definition merge_order : list Commit := ord ["a"; "b"; "c"; "d"].

(** The variables of [dfs] on the merge history at the moment the second
    run, [a; c], arrives at [d] (lemma [merge_second_arrival_reached]). *)
Definition merge_second_arrival : LState :=
  {| height := {[ Some 0%nat := 0; Some 1%nat := 1; Some 2%nat := 0;
                  Some 3%nat := 1 ]};
     subTree := ["a"; "c"];
     flushed := [ {| ev_run := ["a"; "b"; "d"]; ev_height := 1;
                     ev_written := ["b"; "d"] |} ] |}.

(** The fork a -> b, a -> c in which [c] is older than [b], while [b] is
    listed first among the children of [a]. *)
Definition fork_order : list Commit := ord ["a"; "c"; "b"].

(** A history in which [a] lists a child [b] that is not a key. *)
Definition dangling_commits : gmap string (list string) := {[ "a" := ["b"] ]}.

(** Two commits without parents or children. *)
Definition two_roots_commits : gmap string (list string) :=
  {[ "a" := []; "b" := [] ]}.

(** * The webview of the commit graph *)

(** ** Data of the page *)

(** One record of [getCommitsData]. *)
Record CommitData : Type := mkData {
  cd_hash : string;
  authorName : string;
  authorEmail : string;
  authorDate : string;
  message : string
}.

(** A message between the script of the page and the extension; both
    directions use the shape [{command, commitHash}]. *)
Record Msg : Type := mkMsg { command : string; commitHash : string }.

Inductive AttrVal : Type :=
  | ANum (z : Z)
  | AStr (s : string).

#[global] Instance AttrVal_eq_dec : EqDecision AttrVal.
Proof. solve_decision. Defined.

(** The datum that d3 binds to an element: a node [{id}], a link
    [{source, target}], or nothing for an element of the static page. *)
Inductive Datum : Type :=
  | DNone
  | DNode (id : string)
  | DLink (source target : string).

#[global] Instance Datum_eq_dec : EqDecision Datum.
Proof. solve_decision. Defined.

(** An element of the page.  [classList] is the token list of the [class]
    attribute; d3 sets that attribute to [classes.join(" ")], whose tokens
    are the joined names when the commit hash has no white space.
    [listens] tells whether the script attached its [dblclick] and [click]
    handlers to the element. *)
Record Elem : Type := mkElem {
  tagName : string;
  datum : Datum;
  classList : list string;
  attrs : gmap string AttrVal;
  textContent : string;
  listens : bool
}.

(** The variables of the script and what it has done to its environment:
    [doc] lists, in document order, the elements that carry a class or
    that the script creates; [posted] the messages handed to
    [vscode.postMessage]; [details] what [showCommitDetails] last wrote
    into the detail pane. *)
Record Webview : Type := mkWebview {
  commitGraphString : list Entry;
  commitsDateString : list CommitData;
  max_height : Z;
  HEAD : string;
  positions : gmap string (Z * Z);
  doc : list Elem;
  posted : list Msg;
  details : option CommitData
}.

(** What a handler of the page leaves behind: it returns, or it throws
    after the updates already made. *)
Inductive handled : Type :=
  | Handled (w : Webview)
  | Threw (w : Webview).

(** What the handler installed by [activate] does with one message. *)
Inductive HostEffect : Type :=
  | PostToWebview (m : Msg)
  | ShowError (text : string) (item : string)
  | NoEffect.

(** ** Constants of [getGraphWebviewContent] *)

(** The source names the first two [x] and [y]. *)
Definition graph_x : Z := 210.
Definition graph_y : Z := 50.
Definition xOffset : Z := 100.
Definition yOffset : Z := 100.
Definition textWidth : Z := 500.

Definition branchColors : list string :=
  [ "navy"; "firebrick"; "darkgreen"; "darkviolet"; "darkgoldenrod"; "teal";
    "#abdda4"; "#66c2a5"; "#c637e8"; "#5e4fa2qqq" ].

(** [(px - x) / xOffset % 10]: every [px] the script passes is
    [x + (height - 1) * xOffset], so the division is exact; [%] takes the
    sign of the dividend. *)
Definition color_idx (px : Z) : Z := Z.rem (Z.quot (px - graph_x) xOffset) 10.

(** [branchColors[color_idx]], [undefined] out of range. *)
Definition branchColor (px : Z) : option string :=
  let k := color_idx px in
  if bool_decide (0 ≤ k) then branchColors !! Z.to_nat k else None.

(** d3's [attr(name, value)]: a [null] or [undefined] value removes the
    attribute. *)
Definition d3_attr (name : string) (v : option AttrVal)
    (m : gmap string AttrVal) : gmap string AttrVal :=
  match v with
  | Some a => <[name := a]> m
  | None => delete name m
  end.

(** [setAttribute(name, value)] with a value that may be [undefined]: the
    DOM stores its string. *)
Definition set_color (name : string) (v : option string)
    (m : gmap string AttrVal) : gmap string AttrVal :=
  <[name := AStr (default "undefined" v)]> m.

(** ** The class list of an element *)

Definition contains (c : string) (e : Elem) : bool :=
  bool_decide (c ∈ classList e).

Definition cl_remove (c : string) (l : list string) : list string :=
  filter (λ t, t ≠ c) l.

Definition cl_add (c : string) (l : list string) : list string :=
  if bool_decide (c ∈ l) then l else l ++ [c].

Definition with_classes (l : list string) (e : Elem) : Elem :=
  {| tagName := tagName e; datum := datum e; classList := l;
     attrs := attrs e; textContent := textContent e; listens := listens e |}.

Definition with_attrs (m : gmap string AttrVal) (e : Elem) : Elem :=
  {| tagName := tagName e; datum := datum e; classList := classList e;
     attrs := m; textContent := textContent e; listens := listens e |}.

Definition with_text (t : string) (e : Elem) : Elem :=
  {| tagName := tagName e; datum := datum e; classList := classList e;
     attrs := attrs e; textContent := t; listens := listens e |}.

(** ** The scene built when the page loads (lines 295-482) *)

(** Lines 204-210, on the side of the extension. *)
Definition compute_max_height (commitGraph : list Entry) : Z :=
  foldl (λ m c, if bool_decide (e_height c > m) then e_height c else m)
        1 commitGraph.

(** Lines 321-326. *)
Fixpoint positions_from (index : nat) (cs : list Entry)
    (m : gmap string (Z * Z)) : gmap string (Z * Z) :=
  match cs with
  | [] => m
  | commit :: rest =>
      positions_from (S index) rest
        (<[e_hash commit :=
             (graph_x + (e_height commit - 1) * xOffset,
              graph_y + Z.of_nat index * yOffset)]> m)
  end.

(** Lines 314-319: [None] when [commit.children] is [undefined]. *)
Definition build_links (cs : list Entry) : option (list (string * string)) :=
  (λ per_commit, concat per_commit) <$> mapM (λ commit,
    (λ children, (λ child, (e_hash commit, child)) <$> children)
    <$> e_children commit) cs.

(** The [class] of the elements of a node (lines 367-377, 401-411). *)
Definition node_classes (HEAD id kind : string) : list string :=
  [ if bool_decide (id = HEAD) then "HEADElem" else "usualElem"; id; kind ].

(** The [class] of the elements of the HEAD tag (lines 431-440, 455-464). *)
Definition tag_classes (HEAD id kind : string) : list string :=
  [ id; if bool_decide (id = HEAD) then "HEADElem" else "usualElem"; kind ].

Definition static (tag : string) (classes : list string) : Elem :=
  {| tagName := tag; datum := DNone; classList := classes; attrs := ∅;
     textContent := ""; listens := false |}.

Section Scene.

Variable pos : gmap string (Z * Z).
Variable max_h : Z.
Variable head : string.
Variable data : list CommitData.

Definition find_data (id : string) : option CommitData :=
  List.find (λ commit, bool_decide (cd_hash commit = id)) data.

(** Lines 341-355. *)
Definition line_elem (l : string * string) : option Elem :=
  ps ← pos !! l.1;
  pt ← pos !! l.2;
  let max_x := if bool_decide (ps.1 > pt.1) then ps.1 else pt.1 in
  Some {| tagName := "line"; datum := DLink l.1 l.2; classList := [];
          attrs := d3_attr "stroke" (AStr <$> branchColor max_x)
                     {[ "stroke-width" := ANum 5;
                        "x1" := ANum ps.1; "y1" := ANum ps.2;
                        "x2" := ANum pt.1; "y2" := ANum pt.2 ]};
          textContent := ""; listens := false |}.

(** Lines 359-387. *)
Definition circle_elem (id : string) : option Elem :=
  p ← pos !! id;
  Some {| tagName := "circle"; datum := DNode id;
          classList := node_classes head id "circle";
          attrs :=
            d3_attr "fill"
              (if bool_decide (id = head) then Some (AStr "white")
               else AStr <$> branchColor p.1)
              (d3_attr "stroke" (AStr <$> branchColor p.1)
                 {[ "stroke-width" := ANum 4; "r" := ANum 7;
                    "cx" := ANum p.1; "cy" := ANum p.2 ]});
          textContent := ""; listens := true |}.

(** Lines 395-420. *)
Definition message_elem (id : string) : option Elem :=
  p ← pos !! id;
  d ← find_data id;
  Some {| tagName := "text"; datum := DNode id;
          classList := node_classes head id "commitHash";
          attrs :=
            {[ "x" := ANum (if bool_decide (id = head)
                            then max_h * xOffset + graph_x + 70
                            else max_h * xOffset + graph_x - 10);
               "y" := ANum p.2; "dy" := AStr "0.35em" ]};
          textContent := message d; listens := true |}.

(** Lines 428-449. *)
Definition border_elem (id : string) : option Elem :=
  p ← pos !! id;
  Some {| tagName := "rect"; datum := DNode id;
          classList := tag_classes head id "HEADBorder";
          attrs :=
            {[ "x" := ANum (max_h * xOffset + graph_x - 10);
               "y" := ANum (p.2 - 15);
               "width" := ANum (if bool_decide (id = head) then 72 else 0);
               "height" := ANum (if bool_decide (id = head) then 30 else 0);
               "rx" := ANum 5; "ry" := ANum 5;
               "stroke" := AStr "lightseagreen"; "fill" := AStr "none";
               "stroke-width" := ANum 2 ]};
          textContent := ""; listens := false |}.

(** Lines 452-468. *)
Definition tag_elem (id : string) : option Elem :=
  p ← pos !! id;
  Some {| tagName := "text"; datum := DNode id;
          classList := tag_classes head id "HEADText";
          attrs := {[ "x" := ANum (max_h * xOffset + graph_x);
                      "y" := ANum p.2; "dy" := AStr "0.35em" ]};
          textContent := if bool_decide (id = head) then "HEAD" else "";
          listens := false |}.

(** Lines 476-482. *)
Definition date_elem (id : string) : option Elem :=
  p ← pos !! id;
  d ← find_data id;
  Some {| tagName := "text"; datum := DNode id; classList := [];
          attrs := {[ "x" := ANum 0; "y" := ANum p.2; "dy" := AStr "0.35em" ]};
          textContent := authorDate d; listens := false |}.

(** The page after the script has run, in document order. *)
Definition scene (nodes : list string) (links : list (string * string))
    : option (list Elem) :=
  lines ← mapM line_elem links;
  circles ← mapM circle_elem nodes;
  messages ← mapM message_elem nodes;
  borders ← mapM border_elem nodes;
  tags ← mapM tag_elem nodes;
  dates ← mapM date_elem nodes;
  Some ([ static "div" ["container"]; static "div" ["left"]; static "g" [] ]
        ++ lines ++ [ static "g" [] ] ++ circles
        ++ [ static "g" ["textGroup"] ] ++ messages
        ++ [ static "g" ["headGroup"] ] ++ borders ++ tags
        ++ [ static "g" ["dateGroup"] ] ++ dates
        ++ [ static "div" ["right"] ]).

End Scene.

(** [getGraphWebviewContent] followed by the run of the script of the page
    it returns, on the values that the text of the script holds: [None]
    when the script throws, which leaves the page without the listener of
    line 494.  The function pastes [JSON.stringify] of the two arrays and
    the bare HEAD into the inline script; the script reads them back as
    the values they were made from when the pasted text is intact
    ([pasted_intact], below).  Outside of that, a page may not be drawn
    where this function gives one: what is stated of a page that this
    function gives holds of every page that is drawn, and a statement
    that a page is drawn takes [pasted_intact]. *)
Definition getGraphWebviewContent (commitGraph : list Entry) (HEAD : string)
    (commitsData : list CommitData) : option Webview :=
  let max_height := compute_max_height commitGraph in
  let reversed := reverse commitGraph in
  links ← build_links reversed;
  let positions := positions_from 0 reversed ∅ in
  elems ← scene positions max_height HEAD commitsData
             (e_hash <$> reversed) links;
  Some {| commitGraphString := reversed;
          commitsDateString := commitsData;
          max_height := max_height;
          HEAD := HEAD;
          positions := positions;
          doc := elems;
          posted := [];
          details := None |}.

(** ** The handlers of the page *)

(** Lines 380-383 and 413-416: a double click on the element of index [i]. *)
Definition on_dblclick (i : nat) (w : Webview) : Webview :=
  match doc w !! i with
  | Some e =>
      match listens e, datum e with
      | true, DNode id =>
          {| commitGraphString := commitGraphString w;
             commitsDateString := commitsDateString w;
             max_height := max_height w; HEAD := HEAD w;
             positions := positions w; doc := doc w;
             posted := posted w ++ [ mkMsg "gitCheckout" id ];
             details := details w |}
      | _, _ => w
      end
  | None => w
  end.

(** Lines 384-387 and 417-420, with [showCommitDetails] (lines 485-492):
    reading [commit.hash] of a record that was not found throws before
    anything is written. *)
Definition on_click (i : nat) (w : Webview) : Webview :=
  match doc w !! i with
  | Some e =>
      match listens e, datum e with
      | true, DNode id =>
          match find_data (commitsDateString w) id with
          | Some commit =>
              {| commitGraphString := commitGraphString w;
                 commitsDateString := commitsDateString w;
                 max_height := max_height w; HEAD := HEAD w;
                 positions := positions w; doc := doc w;
                 posted := posted w;
                 details := Some commit |}
          | None => w
          end
      | _, _ => w
      end
  | None => w
  end.

(** Lines 504-519 on one element of [oldElemets]: [None] when
    [positions[HEAD]] is [undefined]. *)
Definition revert_elem (w : Webview) (e : Elem) : option Elem :=
  e1 ← (if contains "circle" e then
          p ← positions w !! HEAD w;
          Some (with_attrs (set_color "fill" (branchColor p.1) (attrs e)) e)
        else if contains "commitHash" e then
          Some (with_attrs
                  (<["x" := ANum (max_height w * xOffset + graph_x - 10)]>
                     (attrs e)) e)
        else if contains "HEADBorder" e then
          Some (with_attrs
                  (<["height" := ANum 0]> (<["width" := ANum 0]> (attrs e))) e)
        else if contains "HEADText" e then Some (with_text "" e)
        else Some e);
  Some (with_classes (cl_add "usualElem" (cl_remove "HEADElem" (classList e1))) e1).

(** Lines 500-520: the elements of class [HEADElem], in document order;
    the loop stops at the first one that throws. *)
Fixpoint revert_old (w : Webview) (es : list Elem) : list Elem * bool :=
  match es with
  | [] => ([], false)
  | e :: rest =>
      if contains "HEADElem" e then
        match revert_elem w e with
        | Some e' => let '(rest', threw) := revert_old w rest in
                     (e' :: rest', threw)
        | None => (e :: rest, true)
        end
      else let '(rest', threw) := revert_old w rest in (e :: rest', threw)
  end.

(** Lines 528-543 on one element of [newElements]. *)
Definition apply_elem (w : Webview) (e : Elem) : Elem :=
  let e1 :=
    if contains "circle" e then
      with_attrs (<["fill" := AStr "white"]> (attrs e)) e
    else if contains "commitHash" e then
      with_attrs (<["x" := ANum (max_height w * xOffset + graph_x + 70)]>
                    (attrs e)) e
    else if contains "HEADBorder" e then
      with_attrs (<["height" := ANum 30]> (<["width" := ANum 72]> (attrs e))) e
    else if contains "HEADText" e then with_text "HEAD" e
    else e in
  with_classes (cl_remove "usualElem" (cl_add "HEADElem" (classList e1))) e1.

(** Lines 524-544: the elements of class [HEAD], the new hash. *)
Definition apply_new (w : Webview) (newHEAD : string) (es : list Elem)
    : list Elem :=
  (λ e, if contains newHEAD e then apply_elem w e else e) <$> es.

Definition with_doc (d : list Elem) (h : string) (w : Webview) : Webview :=
  {| commitGraphString := commitGraphString w;
     commitsDateString := commitsDateString w;
     max_height := max_height w; HEAD := h;
     positions := positions w; doc := d;
     posted := posted w; details := details w |}.

(** Lines 494-548: the listener of the page. *)
Definition on_message (m : Msg) (w : Webview) : handled :=
  if bool_decide (command m = "gitCheckout") then
    let '(doc1, threw) := revert_old w (doc w) in
    if threw then Threw (with_doc doc1 (HEAD w) w)
    else Handled (with_doc (apply_new w (commitHash m) doc1) (commitHash m) w)
  else Handled w.

(** ** The handler of the extension (lines 609-621) *)

(** [checkout] stands for [git.checkout(hash)]: [None] when the promise
    resolves, [Some text] when it rejects with an error of that message. *)
Definition host_on_message (checkout : string → option string) (m : Msg)
    : HostEffect :=
  if bool_decide (command m = "gitCheckout") then
    match checkout (commitHash m) with
    | None => PostToWebview (mkMsg "gitCheckout" (commitHash m))
    | Some text => ShowError text "Close"
    end
  else NoEffect.

(** The effect of the extension delivered to the page. *)
Definition deliver (eff : HostEffect) (w : Webview) : handled :=
  match eff with
  | PostToWebview m => on_message m w
  | ShowError _ _ => Handled w
  | NoEffect => Handled w
  end.

(** A double click on the element [i], the answer of the extension to the
    message it posts, and the delivery of that answer: the state of the
    page and what the extension shows to the user. *)
Definition checkout_round_trip (checkout : string → option string) (i : nat)
    (w : Webview) : handled * option string :=
  let w1 := on_dblclick i w in
  match drop (length (posted w)) (posted w1) with
  | m :: _ =>
      let eff := host_on_message checkout m in
      (deliver eff w1,
       match eff with ShowError text _ => Some text | _ => None end)
  | [] => (Handled w1, None)
  end.

(** ** Hashes *)

Definition hex_digit (a : Ascii.ascii) : bool :=
  bool_decide (a ∈ String.list_ascii_of_string "0123456789abcdef").

(** A non-empty string of hexadecimal digits, as git prints a hash. *)
Definition is_hash (s : string) : bool :=
  negb (bool_decide (s = "")) && forallb hex_digit (String.list_ascii_of_string s).

(** The four kinds of elements that the script draws for a node and tags
    with its hash. *)
Definition node_kinds : list string :=
  [ "circle"; "commitHash"; "HEADBorder"; "HEADText" ].

(** The element shows the HEAD decoration: it is of class [HEADElem] and
    has the attribute that the script gives to the HEAD commit, by the
    class that the listener tests first: a white fill, the message shifted
    to the right, a border of 72 by 30, the text HEAD. *)
Definition decorated (w : Webview) (e : Elem) : bool :=
  contains "HEADElem" e &&
  (if contains "circle" e then
     bool_decide (attrs e !! "fill" = Some (AStr "white"))
   else if contains "commitHash" e then
     bool_decide (attrs e !! "x"
                  = Some (ANum (max_height w * xOffset + graph_x + 70)))
   else if contains "HEADBorder" e then
     bool_decide (attrs e !! "width" = Some (ANum 72))
     && bool_decide (attrs e !! "height" = Some (ANum 30))
   else if contains "HEADText" e then
     bool_decide (textContent e = "HEAD")
   else false).

(** The nodes whose element of class [kind] shows the HEAD decoration. *)
Definition head_nodes (kind : string) (w : Webview) : list string :=
  omap (λ e, match datum e with
             | DNode id =>
                 if contains kind e && decorated w e then Some id else None
             | _ => None
             end) (doc w).

(** The attributes a checkout may rewrite on an element, by the class that
    the listener tests first. *)
Definition decoration_keys (e : Elem) : list string :=
  if contains "circle" e then ["fill"]
  else if contains "commitHash" e then ["x"]
  else if contains "HEADBorder" e then ["width"; "height"]
  else [].

Definition is_tag_text (e : Elem) : bool :=
  negb (contains "circle" e) && negb (contains "commitHash" e)
  && negb (contains "HEADBorder" e) && contains "HEADText" e.

(** [e'] is [e] up to the HEAD decoration: same element, same datum, same
    handlers, same attributes but for [decoration_keys], same class tokens
    but for [HEADElem] and [usualElem], same text unless it is the text of
    the HEAD tag. *)
Definition same_frame (e e' : Elem) : Prop :=
  tagName e' = tagName e ∧ datum e' = datum e ∧ listens e' = listens e ∧
  (∀ k, k ∉ decoration_keys e → attrs e' !! k = attrs e !! k) ∧
  (∀ c, c ≠ "HEADElem" → c ≠ "usualElem" →
        (c ∈ classList e' ↔ c ∈ classList e)) ∧
  (is_tag_text e = false → textContent e' = textContent e).

(** What the listener does to one element on a checkout of [newHEAD]: the
    first loop handles it when it is of class [HEADElem], then the second
    when it is tagged with the new hash. *)
Definition patched (w : Webview) (newHEAD : string) (e e' : Elem) : Prop :=
  ∃ e1, (if contains "HEADElem" e then revert_elem w e = Some e1 else e1 = e) ∧
        e' = if contains newHEAD e1 then apply_elem w e1 else e1.

(** The node of an element that is of class [kind] and tagged [h]. *)
Definition tagged_node (kind h : string) (e : Elem) : option string :=
  match datum e with
  | DNode id => if contains kind e && contains h e then Some id else None
  | _ => None
  end.

(** The class token that tells whether [id] is the HEAD commit. *)
Definition head_flag (HEAD id : string) : string :=
  if bool_decide (id = HEAD) then "HEADElem" else "usualElem".

(** The three shapes of the elements that the script builds: an element of
    the static page or a line, whose classes name no commit; an element of
    one of the four kinds drawn for the node [id]; the date of a node. *)
Definition scene_elem (HEAD : string) (nodes : list string)
    (pos : gmap string (Z * Z)) (e : Elem) : Prop :=
  ((datum e = DNone ∨ ∃ s t, datum e = DLink s t) ∧ listens e = false ∧
   ∀ c, c ∈ classList e →
        c ∈ [ "container"; "left"; "right"; "textGroup"; "headGroup";
              "dateGroup" ]) ∨
  (∃ id kind, id ∈ nodes ∧ is_Some (pos !! id) ∧ datum e = DNode id ∧
     kind ∈ node_kinds ∧
     ∀ c, c ∈ classList e ↔ c = head_flag HEAD id ∨ c = id ∨ c = kind) ∨
  (∃ id, id ∈ nodes ∧ datum e = DNode id ∧ listens e = false ∧
     classList e = []).

(** The elements of class [HEADElem] are those tagged with [HEAD]. *)
Definition head_tagged (w : Webview) : Prop :=
  ∀ e, e ∈ doc w → ("HEADElem" ∈ classList e ↔ HEAD w ∈ classList e).

(** The states of a page: what the script built, then double clicks,
    clicks, and answers of the extension to messages that the page
    posted. *)
Inductive reachable (w0 : Webview) : Webview → Prop :=
  | reach_init : reachable w0 w0
  | reach_dblclick i w : reachable w0 w → reachable w0 (on_dblclick i w)
  | reach_click i w : reachable w0 w → reachable w0 (on_click i w)
  | reach_message m w w' :
      reachable w0 w → m ∈ posted w → on_message m w = Handled w' →
      reachable w0 w'.

(** What every state of a page has in common with the state [w0] that the
    script built. *)
Definition page_ok (w0 w : Webview) : Prop :=
  Forall2 same_frame (doc w0) (doc w) ∧
  positions w = positions w0 ∧
  max_height w = max_height w0 ∧
  commitGraphString w = commitGraphString w0 ∧
  commitsDateString w = commitsDateString w0 ∧
  head_tagged w ∧
  is_hash (HEAD w) = true ∧
  (∀ m, m ∈ posted w →
     command m = "gitCheckout" ∧
     commitHash m ∈ e_hash <$> commitGraphString w0).

(** A small page: the merge history with HEAD on [d]. *)
Definition merge_graph : list Entry :=
  [ mkEntry "a" (Some ["b"; "c"]) 1; mkEntry "b" (Some ["d"]) 1;
    mkEntry "c" (Some ["d"]) 2; mkEntry "d" (Some []) 1 ].

Definition merge_data : list CommitData :=
  [ mkData "d" "Ann" "ann@example.org" "2024-01-04 10:00:00" "merge";
    mkData "c" "Bob" "bob@example.org" "2024-01-03 10:00:00" "feature";
    mkData "b" "Ann" "ann@example.org" "2024-01-02 10:00:00" "fix";
    mkData "a" "Ann" "ann@example.org" "2024-01-01 10:00:00" "init" ].

(** The page that the script builds for it, when it does not throw. *)
Definition merge_page : option Webview :=
  getGraphWebviewContent merge_graph "d" merge_data.

(** The elements tagged with [HEAD] show the HEAD decoration, when they
    are of one of the four kinds. *)
Definition head_shown (w : Webview) : Prop :=
  ∀ e kind, e ∈ doc w → HEAD w ∈ classList e → kind ∈ node_kinds →
    contains kind e = true → decorated w e = true.

(** The number of elements of the page with a given tag name. *)
Definition count_tag (tag : string) (w : Webview) : nat :=
  length (filter (λ e, tagName e = tag) (doc w)).

(** What the script needs of a commit to draw it: a list of children, all
    of them commits of the graph, and a record of commit data. *)
Definition drawable (commitGraph : list Entry) (commitsData : list CommitData)
    (c : Entry) : Prop :=
  ∃ cs, e_children c = Some cs ∧
        Forall (λ child, child ∈ e_hash <$> commitGraph) cs ∧
        is_Some (find_data commitsData (e_hash c)).

(** Every lane below a lane in use is in use: when a row has height [v],
    each height from 1 to [v] is the height of some row. *)
Definition lanes_filled (hs : gmap (option nat) Z) : Prop :=
  ∀ (i : nat) v u, hs !! Some i = Some v → 1 ≤ u ≤ v →
    ∃ j : nat, hs !! Some j = Some u.

(** The array has no cell beyond its [n] rows. *)
Definition rows_below (n : nat) (hs : gmap (option nat) Z) : Prop :=
  ∀ (i : nat) v, hs !! Some i = Some v → (i < n)%nat.

(** Lines 328-329 and 336: the width and the height of the [viewBox] of
    the drawing, whose origin is [(0, 0)]. *)
Definition viewBox (w : Webview) : Z * Z :=
  (max_height w * xOffset + graph_x + textWidth,
   Z.of_nat (length (commitGraphString w)) * yOffset + graph_y).

(** * The queries of the repository *)

(** ** Strings *)

(** A string is the sequence of its code units.  [s.split(sep)] for a
    separator of one code unit: the pieces between the occurrences of
    [sep], of which there is always at least one. *)
Fixpoint js_split (sep : Ascii.ascii) (s : string) : list string :=
  match s with
  | EmptyString => [EmptyString]
  | String a s' =>
      if Ascii.eqb a sep then EmptyString :: js_split sep s'
      else match js_split sep s' with
           | piece :: pieces => String a piece :: pieces
           | [] => [String a EmptyString]
           end
  end.

Definition newline : Ascii.ascii := Ascii.ascii_of_nat 10.
Definition space : Ascii.ascii := Ascii.ascii_of_nat 32.

(** [s.slice(0, -6)]: [s] without its last six code units. *)
Definition slice_0_m6 (s : string) : string :=
  String.substring 0 (String.length s - 6) s.

(** [s] holds the code unit [a]. *)
Fixpoint has_char (a : Ascii.ascii) (s : string) : bool :=
  match s with
  | EmptyString => false
  | String b s' => Ascii.eqb b a || has_char a s'
  end.

(** The pieces written one after the other, [sep] between two of them. *)
Fixpoint join (sep : Ascii.ascii) (pieces : list string) : string :=
  match pieces with
  | [] => EmptyString
  | [piece] => piece
  | piece :: rest => String.append piece (String sep (join sep rest))
  end.

(** ** [getCommitsChildren] *)

(** Lines 153-154: a line gives its first word as a key and the list of
    its other words as the value of that key.  The key is taken as an own
    property of the object, which it is for every word but [__proto__]; the
    lines that git prints begin with a hash. *)
Definition add_line (commitGraph : gmap string (list string))
    (line : string) : gmap string (list string) :=
  match js_split space line with
  | commitHash :: parentHashes => <[commitHash := parentHashes]> commitGraph
  | [] => <["undefined" := []]> commitGraph
  end.

(** Lines 149-158, when [git rev-list --all --children] succeeds: [text]
    is [stdout.trim()]. *)
Definition getCommitsChildren (text : string) : gmap string (list string) :=
  foldl add_line ∅ (js_split newline text).

(** What [git rev-list --all --children] prints, up to the final newline
    that [trim] removes: one line per commit, the hash of the commit and
    the hashes of its children separated by spaces. *)
Definition rev_list_children (history : list (string * list string)) : string :=
  join newline ((λ r, join space (r.1 :: r.2)) <$> history).

(** ** [getCommitsData] *)

(** One element of the array that [getCommitsData] returns.  A field is
    [None] when the line it is read from is [undefined]. *)
Record CommitFields : Type := mkFields {
  f_hash : option string;
  f_authorName : option string;
  f_authorEmail : option string;
  f_authorDate : string;
  f_message : option string
}.

(** Lines 181-189, from the index [i] on: [slice] on a line that is
    [undefined] throws.  [fuel] bounds the number of iterations. *)
Fixpoint data_loop (fuel : nat) (i : nat) (lines : list string)
    : outcome (list CommitFields) :=
  match fuel with
  | O => OutOfFuel
  | S fuel' =>
      if bool_decide (i < length lines - 1)%nat then
        match lines !! (i + 3)%nat with
        | None => TypeError
        | Some date =>
            match data_loop fuel' (i + 5) lines with
            | Done commits =>
                Done ({| f_hash := lines !! i;
                         f_authorName := lines !! (i + 1)%nat;
                         f_authorEmail := lines !! (i + 2)%nat;
                         f_authorDate := slice_0_m6 date;
                         f_message := lines !! (i + 4)%nat |} :: commits)
            | TypeError => TypeError
            | OutOfFuel => OutOfFuel
            end
        end
      else Done []
  end.

(** Lines 176-191, [gitLogOutput] being the output of [git log]. *)
Definition getCommitsData (gitLogOutput : string)
    : outcome (list CommitFields) :=
  let lines := js_split newline gitLogOutput in
  data_loop (S (length lines)) 0 lines.

(** What the command of line 176 prints, whose format is hash, author,
    email, date and subject separated by newlines: five lines per commit,
    each ended by a newline.  [authorDate r] is here the date as git
    prints it, time zone included. *)
Definition git_log_record (r : CommitData) : list string :=
  [ cd_hash r; authorName r; authorEmail r; authorDate r; message r ].

Definition git_log_output (records : list CommitData) : string :=
  foldr (λ line out, String.append line (String newline out)) EmptyString
        (records ≫= git_log_record).

(** The record as [getCommitsData] reads it back. *)
Definition commit_fields (r : CommitData) : CommitFields :=
  {| f_hash := Some (cd_hash r);
     f_authorName := Some (authorName r);
     f_authorEmail := Some (authorEmail r);
     f_authorDate := slice_0_m6 (authorDate r);
     f_message := Some (message r) |}.

(** ** What an element shows *)

(** The element shows the HEAD decoration, read from its attributes and
    its text alone, whatever its class tokens [HEADElem] and [usualElem]
    say: a white fill on a circle, the message shifted to the right, a
    border of 72 by 30, the text HEAD. *)
Definition shows_head (w : Webview) (e : Elem) : bool :=
  if contains "circle" e then
    bool_decide (attrs e !! "fill" = Some (AStr "white"))
  else if contains "commitHash" e then
    bool_decide (attrs e !! "x"
                 = Some (ANum (max_height w * xOffset + graph_x + 70)))
  else if contains "HEADBorder" e then
    bool_decide (attrs e !! "width" = Some (ANum 72))
    && bool_decide (attrs e !! "height" = Some (ANum 30))
  else if contains "HEADText" e then
    bool_decide (textContent e = "HEAD")
  else false.

(** The element shows nothing of the HEAD decoration: a circle whose fill
    is not white, the message at its place, a border of no size, an empty
    text. *)
Definition plain (w : Webview) (e : Elem) : bool :=
  if contains "circle" e then
    bool_decide (attrs e !! "fill" ≠ Some (AStr "white"))
  else if contains "commitHash" e then
    bool_decide (attrs e !! "x"
                 = Some (ANum (max_height w * xOffset + graph_x - 10)))
  else if contains "HEADBorder" e then
    bool_decide (attrs e !! "width" = Some (ANum 0))
    && bool_decide (attrs e !! "height" = Some (ANum 0))
  else if contains "HEADText" e then
    bool_decide (textContent e = "")
  else true.

(** The nodes whose element of class [kind] shows the HEAD decoration. *)
Definition shown_nodes (kind : string) (w : Webview) : list string :=
  omap (λ e, match datum e with
             | DNode id =>
                 if contains kind e && shows_head w e then Some id else None
             | _ => None
             end) (doc w).

(** Every element drawn for a node other than HEAD shows nothing of the
    HEAD decoration. *)
Definition others_plain (w : Webview) : Prop :=
  ∀ e id, e ∈ doc w → datum e = DNode id → id ≠ HEAD w → plain w e = true.

(** ** The text pasted into the script *)

(** A string that cannot end the script element it is pasted into: it
    holds no [<]. *)
Definition script_safe (s : string) : bool :=
  negb (has_char (Ascii.ascii_of_nat 60) s).

(** Lines 195-196 and 297-307: the script reads back the values it was
    made from.  It does when HEAD and the hashes of the graph, those of
    the children included, are hashes, which need no escape between the
    quotes of line 307 and name no property that the object [positions]
    inherits, and when no field of the commit data holds a [<]. *)
Definition pasted_intact (commitGraph : list Entry) (HEAD : string)
    (commitsData : list CommitData) : Prop :=
  is_hash HEAD = true ∧
  Forall (λ c, is_hash (e_hash c) = true ∧
               Forall (λ child, is_hash child = true)
                 (default [] (e_children c))) commitGraph ∧
  Forall (λ r, Forall (λ field, script_safe field = true)
                 [ cd_hash r; authorName r; authorEmail r; authorDate r;
                   message r ]) commitsData.

(** * Properties of the lane layout *)

(** ** Arithmetic of the scan *)

Lemma scan_max_ge_init hs idx count nh : nh ≤ scan_max hs idx count nh.
Proof.
  revert idx nh. induction count as [|count IH]; intros idx nh; simpl; [lia|].
  etrans; [|apply IH].
  destruct (hs !! Some idx) as [v|]; [|lia]. case_bool_decide; lia.
Qed.

Lemma scan_max_upper hs idx count nh (j : nat) v :
  (idx ≤ j < idx + count)%nat → hs !! Some j = Some v →
  v ≤ scan_max hs idx count nh.
Proof.
  revert idx nh. induction count as [|count IH]; intros idx nh Hj Hv; simpl; [lia|].
  destruct (decide (j = idx)) as [->|Hne].
  - rewrite Hv. etrans; [|apply scan_max_ge_init]. case_bool_decide; lia.
  - apply IH; [lia|done].
Qed.

Lemma range_max_nonneg hs lo hi : 0 ≤ range_max hs lo hi.
Proof.
  unfold range_max. destruct lo, hi; try lia. apply scan_max_ge_init.
Qed.

Lemma range_max_upper hs (a b j : nat) v :
  (a ≤ j ≤ b)%nat → hs !! Some j = Some v → v ≤ range_max hs (Some a) (Some b).
Proof. intros Hj Hv. simpl. eapply scan_max_upper; [|done]. lia. Qed.

Lemma middle_snoc (l : list string) c : middle (l ++ [c]) = drop 1 l.
Proof.
  unfold middle. destruct l as [|x l]; [done|]. simpl.
  rewrite drop_0, length_app. simpl.
  replace (length l + 1 - 1)%nat with (length l) by lia.
  by rewrite take_app_length.
Qed.

Lemma head_snoc_is_Some (l : list string) c : is_Some (head (l ++ [c])).
Proof. destruct l; simpl; eauto. Qed.

(** ** One flush *)

Section LayoutFacts.

Variable commits : gmap string (list string).
Variable hashIdx : gmap string nat.

Local Abbreviation row := (row hashIdx).
Local Abbreviation dfs := (dfs commits hashIdx).
Local Abbreviation flush := (flush hashIdx).
Local Abbreviation layout_inv := (layout_inv hashIdx).
Local Abbreviation rows_defined := (rows_defined hashIdx).
Local Abbreviation flush_height := (flush_height hashIdx).

Lemma assign_middle_lookup (v : Z) (ms : list string) (hs : gmap (option nat) Z)
    (k : option nat) :
  assign_middle hashIdx v ms hs !! k =
  if decide (k ∈ row <$> ms) then Some v else hs !! k.
Proof.
  unfold assign_middle. revert hs.
  induction ms as [|m ms IH]; intros hs; cbn [foldl].
  - rewrite decide_False; [done|]. apply not_elem_of_nil.
  - rewrite IH, fmap_cons.
    destruct (decide (k ∈ row <$> ms)) as [Hin|Hout].
    + rewrite decide_True; [done|by right].
    + destruct (decide (k = row m)) as [->|Hne].
      * rewrite decide_True; [|by left]. by rewrite lookup_insert_eq.
      * rewrite decide_False; [by rewrite lookup_insert_ne|].
        intros [?|?]%elem_of_cons; done.
Qed.

Lemma flush_height_pos c st : 1 ≤ flush_height c st.
Proof.
  unfold flush_height.
  pose proof (range_max_nonneg (height st)
    (head (subTree st ++ [c]) ≫= row) (row c)). lia.
Qed.

Lemma flush_subTree c cs st : subTree (flush c cs st) = [].
Proof. done. Qed.

(** A flush writes [newHeight + 1] into the cells of [written_key], which
    held 0, and leaves every other cell as it is. *)
Lemma flush_cases c cs st k :
  run_pending hashIdx st →
  (written_key hashIdx c cs st k ∧ height st !! k = Some 0 ∧
   height (flush c cs st) !! k = Some (flush_height c st)) ∨
  (¬ written_key hashIdx c cs st k ∧
   height (flush c cs st) !! k = height st !! k).
Proof.
  intros Hrun. unfold flush, flush_height, written_key. simpl.
  rewrite last_snoc, middle_snoc. simpl.
  set (v := range_max _ _ _ + 1).
  assert (Hmid : ∀ k', k' ∈ row <$> drop 1 (subTree st) →
                       height st !! k' = Some 0).
  { intros k' (h & -> & Hh)%list_elem_of_fmap.
    unfold run_pending in Hrun. rewrite Forall_forall in Hrun. by apply Hrun. }
  assert (Hv : v ≠ 0).
  { pose proof (flush_height_pos c st) as Hp. unfold flush_height in Hp.
    subst v. lia. }
  destruct (bool_decide (length cs = 0%nat)
            && js_eq0 (assign_middle hashIdx v (drop 1 (subTree st))
                         (height st) !! row c)) eqn:Htip.
  - apply andb_true_iff in Htip as [Hlen%bool_decide_eq_true Hz].
    rewrite assign_middle_lookup in Hz.
    assert (Hc0 : height st !! row c = Some 0).
    { destruct (decide (row c ∈ row <$> drop 1 (subTree st))).
      - simpl in Hz. by case_bool_decide.
      - destruct (height st !! row c) as [z|]; [|done].
        simpl in Hz. case_bool_decide; by subst. }
    clear Hz. destruct (decide (k = row c)) as [->|Hne].
    + rewrite lookup_insert_eq. left. split_and!; [by right|done..].
    + rewrite lookup_insert_ne by done. rewrite assign_middle_lookup.
      destruct (decide (k ∈ row <$> drop 1 (subTree st))) as [Hin|Hout].
      * left. split_and!; [by left|by apply Hmid|done].
      * right. split; [|done]. intros [?|[? _]]; done.
  - rewrite assign_middle_lookup.
    destruct (decide (k ∈ row <$> drop 1 (subTree st))) as [Hin|Hout].
    + left. split_and!; [by left|by apply Hmid|done].
    + right. split; [|done]. intros [?|(-> & Hlen & H0)]; [done|].
      rewrite assign_middle_lookup, decide_False, H0 in Htip by done.
      simpl in Htip. by rewrite !bool_decide_eq_true_2 in Htip.
Qed.

Lemma flush_lookup c cs st k :
  run_pending hashIdx st →
  height (flush c cs st) !! k = height st !! k ∨
  (height st !! k = Some 0 ∧
   height (flush c cs st) !! k = Some (flush_height c st)).
Proof.
  intros Hrun.
  destruct (flush_cases c cs st k Hrun) as [(_ & ? & ?)|[_ ?]]; auto.
Qed.

Lemma flush_written c cs st k :
  run_pending hashIdx st → written_key hashIdx c cs st k →
  height (flush c cs st) !! k = Some (flush_height c st).
Proof.
  intros Hrun Hw.
  destruct (flush_cases c cs st k Hrun) as [(_ & _ & ?)|[? _]]; done.
Qed.

Lemma flush_keeps c cs st :
  run_pending hashIdx st → keeps_assigned (height st) (height (flush c cs st)).
Proof.
  intros Hrun k v Hk Hv.
  destruct (flush_lookup c cs st k Hrun) as [->|[H0 _]]; [done|].
  congruence.
Qed.

Lemma flush_inv c cs st : layout_inv st → layout_inv (flush c cs st).
Proof.
  intros (Hrun & Hnn & Hrows). split_and!.
  - unfold run_pending. by rewrite flush_subTree.
  - intros k v Hk.
    destruct (flush_lookup c cs st k Hrun) as [Heq|[_ Heq]].
    + rewrite Heq in Hk. by eapply Hnn.
    + rewrite Heq in Hk. injection Hk as <-.
      pose proof (flush_height_pos c st). lia.
  - intros h i Hh. specialize (Hrows h i Hh). simpl in Hrows.
    destruct (flush_lookup c cs st (Some i) Hrun) as [->|[_ ->]]; eauto.
Qed.

(** The members of the run after the first are written by its flush. *)
Lemma flush_middle c cs st h :
  run_pending hashIdx st → h ∈ drop 1 (subTree st) →
  height (flush c cs st) !! row h = Some (flush_height c st).
Proof.
  intros Hrun Hh. apply flush_written; [done|]. left.
  apply list_elem_of_fmap. eauto.
Qed.

(** The commits recorded as written by a flush have a written cell. *)
Lemma flush_event c cs st :
  run_pending hashIdx st →
  ∃ e, flushed (flush c cs st) = flushed st ++ [e] ∧
       ev_run e = subTree st ++ [c] ∧
       ev_height e = flush_height c st ∧
       ∀ h, h ∈ ev_written e → written_key hashIdx c cs st (row h).
Proof.
  intros Hrun. eexists. split; [reflexivity|]. simpl.
  rewrite last_snoc, middle_snoc. split_and!; [done..|].
  intros h [Hh|Hh]%elem_of_app.
  - left. apply list_elem_of_fmap. eauto.
  - destruct (bool_decide (length cs = 0%nat) && _) eqn:Htip;
      [|by apply elem_of_nil in Hh].
    apply list_elem_of_singleton in Hh as ->.
    apply andb_true_iff in Htip as [Hlen%bool_decide_eq_true Hz].
    rewrite assign_middle_lookup in Hz.
    destruct (decide (row c ∈ row <$> drop 1 (subTree st))); [by left|].
    right. split_and!; [done..|].
    destruct (height st !! row c) as [z|]; [|done].
    simpl in Hz. case_bool_decide; by subst.
Qed.

(** ** Shape of a returning call *)

Lemma dfs_Done_inv fuel c st st' :
  dfs fuel c st = Done st' →
  ∃ fuel' cs, fuel = S fuel' ∧ commits !! c = Some cs ∧
    ((bool_decide (length cs = 0%nat) || js_neq0 (height st !! row c) = true
      ∧ st' = flush c cs st) ∨
     (cs ≠ [] ∧ height st !! row c = Some 0 ∧
      for_neighbors (dfs fuel') c cs st = Done st')).
Proof.
  destruct fuel as [|fuel']; [done|]. simpl.
  destruct (commits !! c) as [cs|]; [|done].
  destruct (bool_decide (length cs = 0%nat) || js_neq0 (height st !! row c))
    eqn:Hcond; intros Hd.
  - injection Hd as <-. eauto 10.
  - apply orb_false_iff in Hcond as [Hlen Hnz].
    exists fuel', cs. split_and!; [done..|]. right. split_and!; [|  |done].
    + intros ->. by rewrite bool_decide_eq_true_2 in Hlen.
    + destruct (height st !! row c) as [z|]; [|done]. simpl in Hnz.
      case_bool_decide as Hz; [done|]. f_equal. lia.
Qed.

Lemma for_neighbors_cons_inv visit c n rest st st' :
  for_neighbors visit c (n :: rest) st = Done st' →
  ∃ s1, visit n (push c st) = Done s1 ∧
        for_neighbors visit c rest s1 = Done st'.
Proof. simpl. destruct (visit n (push c st)); [eauto|done..]. Qed.

Lemma push_inv_first c st :
  layout_inv st → height st !! row c = Some 0 → layout_inv (push c st).
Proof.
  intros (Hrun & Hnn & Hrows) Hc. split_and!; [|done..].
  unfold run_pending in *. simpl.
  destruct (subTree st) as [|x l]; simpl in *; [constructor|].
  rewrite drop_0 in *. apply Forall_app. split; [done|]. by constructor.
Qed.

Lemma push_inv_next c st :
  layout_inv st → subTree st = [] → layout_inv (push c st).
Proof.
  intros (Hrun & Hnn & Hrows) Hs. split_and!; [|done..].
  unfold run_pending. simpl. rewrite Hs. simpl. constructor.
Qed.

Lemma keeps_assigned_refl (hs : gmap (option nat) Z) : keeps_assigned hs hs.
Proof. by intros k v. Qed.

Lemma keeps_assigned_trans (h1 h2 h3 : gmap (option nat) Z) :
  keeps_assigned h1 h2 → keeps_assigned h2 h3 → keeps_assigned h1 h3.
Proof. intros H12 H23 k v Hk Hv. eauto. Qed.

(** ** The invariant of the traversal *)

Lemma dfs_inv fuel : ∀ c st st',
  layout_inv st → dfs fuel c st = Done st' →
  layout_inv st' ∧ subTree st' = [] ∧
  keeps_assigned (height st) (height st').
Proof.
  induction fuel as [|fuel IH]; intros c st st' Hinv Hd; [done|].
  apply dfs_Done_inv in Hd as (fuel' & cs & [= <-] & Hcs & [[_ ->]|(Hne & Hc & Hfor)]).
  { split_and!; [by apply flush_inv|done|apply flush_keeps, Hinv]. }
  assert (Hgen : ∀ ns s s', layout_inv (push c s) →
            for_neighbors (dfs fuel) c ns s = Done s' →
            keeps_assigned (height s) (height s') ∧
            (ns ≠ [] → layout_inv s' ∧ subTree s' = [])).
  { induction ns as [|n ns IHns]; intros s s' Hp Hf.
    - injection Hf as <-. split; [apply keeps_assigned_refl|done].
    - apply for_neighbors_cons_inv in Hf as (s1 & Hv & Hf).
      destruct (IH _ _ _ Hp Hv) as (Hi1 & Hs1 & Hk1).
      destruct (IHns s1 s' (push_inv_next c s1 Hi1 Hs1) Hf) as [Hk2 Hrest].
      split; [by eapply keeps_assigned_trans|].
      intros _. destruct ns as [|n' ns'].
      + injection Hf as <-. done.
      + by apply Hrest. }
  destruct (Hgen cs st st' (push_inv_first c st Hinv Hc) Hfor) as [Hk Hrest].
  destruct (Hrest Hne) as [? ?]. done.
Qed.

End LayoutFacts.

(** ** The row map and the initial heights *)

Lemma index_from_notin i cs m h :
  h ∉ hash <$> cs → index_from i cs m !! h = m !! h.
Proof.
  revert i m. induction cs as [|c cs IH]; intros i m Hh; [done|]. simpl.
  rewrite fmap_cons in Hh. apply not_elem_of_cons in Hh as [Hne Hh].
  rewrite IH by done. by rewrite lookup_insert_ne.
Qed.

Lemma index_from_nodup i cs m (j : nat) c :
  NoDup (hash <$> cs) → cs !! j = Some c →
  index_from i cs m !! hash c = Some (i + j)%nat.
Proof.
  revert i m j. induction cs as [|c' cs IH]; intros i m j Hnd Hj; [done|].
  rewrite fmap_cons in Hnd. apply NoDup_cons in Hnd as [Hc' Hnd]. simpl.
  destruct j as [|j]; simpl in Hj.
  - injection Hj as ->. rewrite index_from_notin by done.
    rewrite lookup_insert_eq. f_equal. lia.
  - rewrite (IH _ _ j) by done. f_equal. lia.
Qed.

Lemma index_from_Some i cs m h (k : nat) :
  index_from i cs m !! h = Some k →
  m !! h = Some k ∨
  ((i ≤ k < i + length cs)%nat ∧ ∃ c, cs !! (k - i)%nat = Some c ∧ hash c = h).
Proof.
  revert i m. induction cs as [|c cs IH]; intros i m Hk; simpl in *; [by left|].
  apply IH in Hk as [Hk|[Hr (c' & Hc' & Hh)]].
  - destruct (decide (hash c = h)) as [<-|Hne].
    + rewrite lookup_insert_eq in Hk. injection Hk as <-. right.
      split; [lia|]. exists c. by rewrite Nat.sub_diag.
    + rewrite lookup_insert_ne in Hk by done. by left.
  - right. split; [lia|]. exists c'. split; [|done].
    replace (k - i)%nat with (S (k - S i)) by lia. done.
Qed.

Lemma build_hashIdx_lt cs h (k : nat) :
  build_hashIdx cs !! h = Some k → (k < length cs)%nat.
Proof.
  intros [Hk|[Hr _]]%index_from_Some; [by rewrite lookup_empty in Hk|lia].
Qed.

Lemma build_hashIdx_nodup cs (j : nat) c :
  NoDup (hash <$> cs) → cs !! j = Some c →
  build_hashIdx cs !! hash c = Some j.
Proof. intros Hnd Hj. unfold build_hashIdx. by rewrite (index_from_nodup 0 cs ∅ j). Qed.

(** Two hashes never share a row. *)
Lemma build_hashIdx_inj cs a b (k : nat) :
  build_hashIdx cs !! a = Some k → build_hashIdx cs !! b = Some k → a = b.
Proof.
  intros [Ha|[_ (ca & Hca & <-)]]%index_from_Some
         [Hb|[_ (cb & Hcb & <-)]]%index_from_Some;
    try by rewrite lookup_empty in *.
  rewrite Nat.sub_0_r in *. congruence.
Qed.

Lemma zero_heights_lookup n (k : option nat) v :
  zero_heights n !! k = Some v ↔ v = 0 ∧ ∃ i, k = Some i ∧ (i < n)%nat.
Proof.
  unfold zero_heights. rewrite <- elem_of_list_to_map.
  - rewrite list_elem_of_fmap. split.
    + intros (i & [= -> ->] & Hi%elem_of_seq). split; [done|]. exists i. split; [done|lia].
    + intros (-> & i & -> & Hi). exists i. split; [done|]. apply elem_of_seq. lia.
  - rewrite <- list_fmap_compose. apply NoDup_fmap_2; [|apply NoDup_seq].
    intros i j. simpl. congruence.
Qed.

Lemma init_state_inv cs :
  layout_inv (build_hashIdx cs) (init_state (length cs)).
Proof.
  split_and!.
  - constructor.
  - intros k v Hk. apply zero_heights_lookup in Hk as [-> _]. done.
  - intros h i Hi. apply build_hashIdx_lt in Hi. exists 0. simpl.
    apply zero_heights_lookup. eauto.
Qed.

Lemma init_state_unassigned cs h :
  ¬ assigned (build_hashIdx cs) (height (init_state (length cs))) h.
Proof.
  intros (i & v & _ & Hv & Hne). simpl in Hv.
  apply zero_heights_lookup in Hv as [-> _]. done.
Qed.

(** The cell read for a listed commit is defined. *)
Lemma answer_height_defined fuel commits orderedCommits st c :
  layout fuel commits orderedCommits = Done st → c ∈ orderedCommits →
  ∃ i v, build_hashIdx orderedCommits !! hash c = Some i ∧
         height st !! Some i = Some v ∧
         height_of (build_hashIdx orderedCommits) (height st) (hash c) = v.
Proof.
  unfold layout. intros Hl Hc.
  destruct orderedCommits as [|c0 cs']; [done|].
  set (cs := c0 :: cs') in *.
  destruct (dfs _ _ _ _ _) as [st0| |] eqn:Hd; [|done..].
  injection Hl as <-. simpl.
  destruct (dfs_inv _ _ _ _ _ _ (init_state_inv cs) Hd) as ((_ & _ & Hrows) & _ & _).
  assert (is_Some (build_hashIdx cs !! hash c)) as [i Hi].
  { destruct (build_hashIdx cs !! hash c) eqn:E; [eauto|].
    unfold build_hashIdx in E.
    destruct (decide (hash c ∈ hash <$> cs)) as [Hin|Hout].
    - exfalso. clear -E Hin. revert E. generalize 0%nat (∅ : gmap string nat).
      induction cs as [|x cs IH]; intros i m E; [by apply elem_of_nil in Hin|].
      simpl in E. rewrite fmap_cons in Hin.
      destruct (decide (hash c ∈ hash <$> cs)) as [Hin'|Hout']; [by eapply IH|].
      apply elem_of_cons in Hin as [Heq|?]; [|done].
      rewrite index_from_notin in E by done. rewrite Heq in E.
      by rewrite lookup_insert_eq in E.
    - exfalso. apply Hout, list_elem_of_fmap. eauto. }
  destruct (Hrows _ _ Hi) as [v Hv].
  exists i. unfold height_of. rewrite Hi.
  destruct (decide (i = 0%nat)) as [->|Hne].
  - exists 1. by rewrite lookup_insert_eq.
  - exists v. by rewrite lookup_insert_ne by congruence; rewrite Hv.
Qed.

(** ** Termination of the traversal *)

Section Termination.

Variable commits : gmap string (list string).
Variable hashIdx : gmap string nat.

Local Abbreviation dfs := (dfs commits hashIdx).
Local Abbreviation edge := (edge commits).
Local Abbreviation chain := (chain commits).

Lemma for_neighbors_no_timeout visit c ns st :
  (∀ n s, n ∈ ns → visit n s ≠ OutOfFuel) →
  for_neighbors visit c ns st ≠ OutOfFuel.
Proof.
  revert st. induction ns as [|n ns IH]; intros st Hv; [done|]. simpl.
  destruct (visit n (push c st)) as [s1| |] eqn:E; [|done|].
  - apply IH. intros n' s Hn'. apply Hv. by right.
  - exfalso. eapply Hv; [|exact E]. by left.
Qed.

(** A budget larger than every path from [c] is never exhausted. *)
Lemma dfs_fuel_enough fuel : ∀ c st,
  (∀ l, chain c l → (length l < fuel)%nat) → dfs fuel c st ≠ OutOfFuel.
Proof.
  induction fuel as [|fuel IH]; intros c st Hb.
  - specialize (Hb [] I). simpl in Hb. lia.
  - simpl. destruct (commits !! c) as [cs|] eqn:Hc; [|done].
    destruct (_ || _); [done|].
    apply for_neighbors_no_timeout. intros n s Hn. apply IH.
    intros l Hl. assert (chain c (n :: l)) as Hcl.
    { split; [|done]. by exists cs. }
    apply Hb in Hcl. simpl in Hcl. lia.
Qed.

Lemma chain_tc c l x : chain c l → x ∈ l → tc edge c x.
Proof.
  revert c. induction l as [|b l IH]; intros c Hc Hx; [by apply elem_of_nil in Hx|].
  destruct Hc as [Hcb Hbl]. apply elem_of_cons in Hx as [->|Hx].
  - by apply tc_once.
  - eapply tc_l; [done|]. by apply IH.
Qed.

Lemma chain_NoDup c l : acyclic commits → chain c l → NoDup (c :: l).
Proof.
  intros Hac. revert c. induction l as [|b l IH]; intros c Hc.
  - apply NoDup_singleton.
  - apply NoDup_cons. split.
    + intros Hin. eapply Hac, chain_tc; done.
    + apply IH, Hc.
Qed.

Lemma chain_keys c l :
  chain c l → Forall (λ x, x ∈ dom commits) (take (length l) (c :: l)).
Proof.
  revert c. induction l as [|b l IH]; intros c Hc; [constructor|].
  destruct Hc as [(cs & Hcs & _) Hbl]. simpl. constructor.
  - apply elem_of_dom. eauto.
  - by apply IH.
Qed.

Lemma chain_length c l :
  acyclic commits → chain c l → (length l ≤ size commits)%nat.
Proof.
  intros Hac Hc.
  pose proof (chain_NoDup c l Hac Hc) as Hnd.
  pose proof (chain_keys c l Hc) as Hk.
  set (srcs := take (length l) (c :: l)) in *.
  assert (NoDup srcs) as Hnd'.
  { eapply (sublist_NoDup srcs); [done|apply sublist_take]. }
  assert (length srcs = length l) as <-.
  { unfold srcs. rewrite length_take. simpl. lia. }
  rewrite <- size_dom, <- (size_list_to_set (C := gset string) srcs) by done.
  apply subseteq_size. intros x Hx%elem_of_list_to_set.
  rewrite Forall_forall in Hk. by apply Hk.
Qed.

Lemma dfs_acyclic_no_timeout fuel c st :
  acyclic commits → (size commits < fuel)%nat → dfs fuel c st ≠ OutOfFuel.
Proof.
  intros Hac Hf. apply dfs_fuel_enough. intros l Hl.
  pose proof (chain_length c l Hac Hl). lia.
Qed.

Lemma for_neighbors_no_throw visit c ns st :
  (∀ n s, n ∈ ns → visit n s ≠ TypeError) →
  for_neighbors visit c ns st ≠ TypeError.
Proof.
  revert st. induction ns as [|n ns IH]; intros st Hv; [done|]. simpl.
  destruct (visit n (push c st)) as [s1| |] eqn:E; [| |done].
  - apply IH. intros n' s Hn'. apply Hv. by right.
  - exfalso. eapply Hv; [|exact E]. by left.
Qed.

(** When every child is a key, a call on a key never throws. *)
Lemma dfs_closed_no_throw fuel : ∀ c st,
  children_closed commits → is_Some (commits !! c) →
  dfs fuel c st ≠ TypeError.
Proof.
  induction fuel as [|fuel IH]; intros c st Hcl [cs Hc]; [done|]. simpl.
  rewrite Hc. destruct (_ || _); [done|].
  apply for_neighbors_no_throw. intros n s Hn. apply IH; [done|].
  apply (Hcl c n). by exists cs.
Qed.

Lemma dfs_S fuel c st :
  dfs (S fuel) c st =
  match commits !! c with
  | None => TypeError
  | Some children =>
      if bool_decide (length children = 0%nat)
         || js_neq0 (height st !! row hashIdx c)
      then Done (flush hashIdx c children st)
      else for_neighbors (dfs fuel) c children st
  end.
Proof. done. Qed.

Lemma for_neighbors_ext visit1 visit2 c ns st :
  (∀ n s, visit1 n s ≠ OutOfFuel → visit2 n s = visit1 n s) →
  for_neighbors visit1 c ns st ≠ OutOfFuel →
  for_neighbors visit2 c ns st = for_neighbors visit1 c ns st.
Proof.
  intros Hext. revert st. induction ns as [|n ns IH]; intros st Hd; [done|].
  cbn [for_neighbors] in Hd |- *.
  destruct (visit1 n (push c st)) as [s1| |] eqn:E; [| |done].
  - rewrite Hext, E by (by rewrite E). by apply IH.
  - by rewrite Hext, E by (by rewrite E).
Qed.

(** A larger budget does not change the result of a call that was not
    cut off. *)
Lemma dfs_fuel_S fuel : ∀ c st,
  dfs fuel c st ≠ OutOfFuel → dfs (S fuel) c st = dfs fuel c st.
Proof.
  induction fuel as [|fuel IH]; intros c st Hd; [done|].
  rewrite (dfs_S (S fuel)). rewrite (dfs_S fuel) in Hd |- *.
  destruct (commits !! c) as [cs|]; [|done].
  destruct (_ || _); [done|].
  apply for_neighbors_ext; [|done]. intros n s. apply IH.
Qed.

Lemma dfs_fuel_mono fuel fuel' c st :
  (fuel ≤ fuel')%nat → dfs fuel c st ≠ OutOfFuel →
  dfs fuel' c st = dfs fuel c st.
Proof.
  induction 1 as [|fuel' Hle IH]; intros Hd; [done|].
  rewrite dfs_fuel_S; [by apply IH|]. rewrite IH; done.
Qed.

End Termination.

(** ** Every commit reachable from the oldest one is laid out *)

Section Reachability.

Variable commits : gmap string (list string).
Variable hashIdx : gmap string nat.
Hypothesis rows_inj : ∀ a b i,
  hashIdx !! a = Some i → hashIdx !! b = Some i → a = b.
Hypothesis ordered : children_ordered commits hashIdx.

Local Abbreviation dfs := (dfs commits hashIdx).
Local Abbreviation assigned := (assigned hashIdx).
Local Abbreviation closed_except := (closed_except commits hashIdx).

Lemma assigned_keeps (hs hs' : gmap (option nat) Z) a :
  keeps_assigned hs hs' → assigned hs a → assigned hs' a.
Proof. intros Hk (i & v & Hi & Hv & Hne). exists i, v. eauto. Qed.

Lemma flush_new_assigned c cs st a :
  layout_inv hashIdx st → assigned (height (flush hashIdx c cs st)) a →
  assigned (height st) a ∨ a ∈ drop 1 (subTree st) ∨ (a = c ∧ cs = []).
Proof.
  intros (Hrun & _ & _) (i & v & Hi & Hv & Hne).
  destruct (flush_cases hashIdx c cs st (Some i) Hrun)
    as [([Hmid|(Hc & Hlen & _)] & _ & _)|[_ Heq]].
  - right. left. apply list_elem_of_fmap in Hmid as (m & Hm & Hin).
    unfold row in Hm. by rewrite (rows_inj a m i).
  - right. right. unfold row in Hc. split; [by apply (rows_inj a c i)|].
    by apply nil_length_inv.
  - left. exists i, v. by rewrite <- Heq.
Qed.

Lemma drop1_snoc (l : list string) c h :
  h ∈ drop 1 l → h ∈ drop 1 (l ++ [c]).
Proof. destruct l; simpl; [done|]. rewrite !drop_0. set_solver. Qed.

Lemma drop1_snoc_last (l : list string) c : l ≠ [] → c ∈ drop 1 (l ++ [c]).
Proof. destruct l; simpl; [done|]. rewrite !drop_0. set_solver. Qed.

Lemma dfs_closed fuel : ∀ c st st' (G : gset string),
  layout_inv hashIdx st →
  (∀ h, h ∈ subTree st → h ∈ G) →
  closed_except G (height st) →
  dfs fuel c st = Done st' →
  closed_except G (height st') ∧
  (∀ h, h ∈ drop 1 (subTree st) → is_Some (hashIdx !! h) →
        assigned (height st') h) ∧
  (subTree st ≠ [] → is_Some (hashIdx !! c) → assigned (height st') c) ∧
  (height st !! row hashIdx c = Some 0 →
   ∀ b, edge commits c b → assigned (height st') b).
Proof.
  induction fuel as [|fuel IH]; intros c st st' G Hinv Hsub Hcl Hd; [done|].
  apply dfs_Done_inv in Hd
    as (fuel' & cs & [= <-] & Hcs & [[Hcond ->]|(Hne & Hc0 & Hfor)]).
  - (* the call flushes *)
    pose proof Hinv as (Hrun & Hnn & Hrows).
    pose proof (flush_height_pos hashIdx c st) as Hpos.
    split_and!.
    + intros a b Ha HaG Hab.
      apply flush_new_assigned in Ha as [Ha|[Ha|[-> ->]]]; [|  |  |done].
      * eapply assigned_keeps; [by apply flush_keeps|]. by eapply Hcl.
      * exfalso. apply HaG, Hsub. by eapply subseteq_drop.
      * destruct Hab as (cs' & Hcs' & Hb). simplify_eq.
        by apply elem_of_nil in Hb.
    + intros h Hh [i Hi]. exists i, (flush_height hashIdx c st).
      split_and!; [done| |lia].
      rewrite <- Hi. by apply flush_middle.
    + intros _ [i Hi]. destruct (Hrows c i Hi) as [z Hz].
      destruct (decide (z = 0)) as [->|Hz0].
      * unfold row in Hcond. rewrite Hi, Hz in Hcond. simpl in Hcond.
        rewrite orb_false_r in Hcond. apply bool_decide_eq_true in Hcond.
        exists i, (flush_height hashIdx c st). split_and!; [done| |lia].
        rewrite <- Hi. apply flush_written; [done|]. right.
        unfold row. rewrite Hi. done.
      * eapply assigned_keeps; [by apply flush_keeps|]. by exists i, z.
    + intros H0 b (cs' & Hcs' & Hb). simplify_eq. rewrite H0 in Hcond.
      simpl in Hcond. rewrite orb_false_r in Hcond.
      apply bool_decide_eq_true, nil_length_inv in Hcond as ->.
      by apply elem_of_nil in Hb.
  - (* the call visits the children *)
    set (G' := {[c]} ∪ G).
    assert (Hgen : ∀ ns s s',
      layout_inv hashIdx (push c s) →
      (∀ h, h ∈ subTree (push c s) → h ∈ G') →
      closed_except G' (height s) →
      (∀ n, n ∈ ns → edge commits c n) →
      for_neighbors (dfs fuel) c ns s = Done s' →
      closed_except G' (height s') ∧
      keeps_assigned (height s) (height s') ∧
      (∀ n, n ∈ ns → assigned (height s') n) ∧
      (ns ≠ [] → ∀ h, h ∈ drop 1 (subTree (push c s)) →
         is_Some (hashIdx !! h) → assigned (height s') h)).
    { induction ns as [|n ns IHns]; intros s s' Hp HsG Hcl' Hedges Hf.
      - injection Hf as <-. split_and!; [done|by intros k v| |done].
        intros n Hn. by apply elem_of_nil in Hn.
      - apply for_neighbors_cons_inv in Hf as (s1 & Hv & Hf).
        destruct (dfs_inv _ _ _ _ _ _ Hp Hv) as (Hi1 & Hs1 & Hk1).
        destruct (IH n (push c s) s1 G' Hp HsG Hcl' Hv)
          as (Hcl1 & Hmid1 & Hn1 & _).
        destruct (IHns s1 s') as (Hcl2 & Hk2 & Hns2 & _).
        { by apply push_inv_next. }
        { simpl. rewrite Hs1. intros h ->%list_elem_of_singleton.
          unfold G'. set_solver. }
        { done. }
        { intros n' Hn'. apply Hedges. by right. }
        { done. }
        split_and!; [done|by eapply keeps_assigned_trans| |].
        + intros n' [->|Hn']%elem_of_cons; [|by apply Hns2].
          eapply assigned_keeps; [done|]. apply Hn1.
          * simpl. by destruct (subTree s).
          * eapply ordered, Hedges. by left.
        + intros _ h Hh Hrow. eapply assigned_keeps; [done|]. by apply Hmid1. }
    destruct (Hgen cs st st') as (Hcl' & Hk & Hns & Hmid).
    { by apply push_inv_first. }
    { simpl. intros h [Hh| ->%list_elem_of_singleton]%elem_of_app;
        unfold G'; set_solver. }
    { intros a b Ha HaG. apply Hcl; [done|]. unfold G' in HaG. set_solver. }
    { intros n Hn. by exists cs. }
    { done. }
    assert (Hkids : ∀ b, edge commits c b → assigned (height st') b).
    { intros b (cs' & Hcs' & Hb). simplify_eq. by apply Hns. }
    split_and!.
    + intros a b Ha HaG Hab. destruct (decide (a = c)) as [->|Hac].
      * by apply Hkids.
      * apply (Hcl' a b); [done| |done]. unfold G'. set_solver.
    + intros h Hh Hrow. apply Hmid; [done| |done]. simpl. by apply drop1_snoc.
    + intros Hst Hrow. apply Hmid; [done| |done]. simpl. by apply drop1_snoc_last.
    + intros _. apply Hkids.
Qed.

End Reachability.

(** ** The recorded flushes *)

Section Trace.

Variable commits : gmap string (list string).
Variable hashIdx : gmap string nat.

Local Abbreviation dfs := (dfs commits hashIdx).

(** What holds of the heights and the recorded flushes before a call holds
    after it, when every flush preserves it. *)
Lemma dfs_preserves (P : gmap (option nat) Z → list FlushEvent → Prop) :
  (∀ c cs st, layout_inv hashIdx st → P (height st) (flushed st) →
     P (height (flush hashIdx c cs st)) (flushed (flush hashIdx c cs st))) →
  ∀ fuel c st st', layout_inv hashIdx st → P (height st) (flushed st) →
    dfs fuel c st = Done st' → P (height st') (flushed st').
Proof.
  intros Hflush. induction fuel as [|fuel IH]; intros c st st' Hinv HP Hd; [done|].
  apply dfs_Done_inv in Hd
    as (fuel' & cs & [= <-] & Hcs & [[_ ->]|(Hne & Hc0 & Hfor)]).
  { by apply Hflush. }
  assert (Hgen : ∀ ns s s', layout_inv hashIdx (push c s) →
            P (height s) (flushed s) →
            for_neighbors (dfs fuel) c ns s = Done s' →
            P (height s') (flushed s')).
  { induction ns as [|n ns IHns]; intros s s' Hp HPs Hf.
    - by injection Hf as <-.
    - apply for_neighbors_cons_inv in Hf as (s1 & Hv & Hf).
      destruct (dfs_inv _ _ _ _ _ _ Hp Hv) as (Hi1 & Hs1 & _).
      apply (IHns s1 s'); [by apply push_inv_next| |done].
      by apply (IH n (push c s) s1). }
  apply (Hgen cs st st'); [by apply push_inv_first|done..].
Qed.

Lemma flush_trace_inv c cs st :
  layout_inv hashIdx st →
  trace_inv hashIdx (height st) (flushed st) →
  trace_inv hashIdx (height (flush hashIdx c cs st))
    (flushed (flush hashIdx c cs st)).
Proof.
  intros (Hrun & Hnn & Hrows) [Hth Hts].
  destruct (flush_event hashIdx c cs st Hrun) as (enew & -> & Hr & Hh & Hw).
  pose proof (flush_height_pos hashIdx c st) as Hpos.
  split.
  - intros e c' i [He| ->%list_elem_of_singleton]%elem_of_app Hc' Hi.
    + destruct (Hth e c' i He Hc' Hi) as [Hcell Hge]. split; [|done].
      apply flush_keeps; [done..|lia].
    + rewrite Hh. split; [|done]. specialize (Hw c' Hc').
      unfold row in Hw. rewrite Hi in Hw. by apply flush_written.
  - intros j1 j2 e1 e2 c1 i1 H1 H2 Hlt Hc1 Hi1 Hin.
    destruct (decide (j2 < length (flushed st))%nat) as [Hj2|Hj2].
    + rewrite lookup_app_l in H1, H2 by lia. by eapply Hts.
    + assert (j2 = length (flushed st)) as ->.
      { apply lookup_lt_Some in H2. rewrite length_app in H2. simpl in H2. lia. }
      rewrite lookup_app_l in H1 by lia.
      rewrite list_lookup_middle in H2 by done. injection H2 as <-.
      rewrite Hh. destruct Hin as (a & b & Ha & Hb & Hab).
      rewrite Hr in Ha, Hb. rewrite last_snoc in Hb. simpl in Hb.
      destruct (Hth e1 c1 i1) as [Hcell _];
        [by eapply list_elem_of_lookup_2|done..|].
      unfold flush_height. rewrite Ha, Hb.
      pose proof (range_max_upper (height st) a b i1 _ Hab Hcell). lia.
Qed.

Lemma dfs_trace_inv fuel c st st' :
  layout_inv hashIdx st →
  trace_inv hashIdx (height st) (flushed st) →
  dfs fuel c st = Done st' →
  trace_inv hashIdx (height st') (flushed st').
Proof.
  apply (dfs_preserves (trace_inv hashIdx)). apply flush_trace_inv.
Qed.

End Trace.

(** ** Checking a concrete history *)

Lemma check_edges_sound commits test a b :
  check_edges commits test = true → edge commits a b → test a b = true.
Proof.
  unfold check_edges. rewrite forallb_forall.
  intros Hall (cs & Hcs & Hb).
  apply elem_of_map_to_list, list_elem_of_In, Hall in Hcs.
  rewrite forallb_forall in Hcs. by apply Hcs, list_elem_of_In.
Qed.

Lemma later_rows_acyclic commits hashIdx :
  check_edges commits (later_row hashIdx) = true → acyclic commits.
Proof.
  intros Hchk.
  assert (Hstep : ∀ a b, tc (edge commits) a b →
            ∃ i j, hashIdx !! a = Some i ∧ hashIdx !! b = Some j ∧ (i < j)%nat).
  { assert (Hone : ∀ a b, edge commits a b →
              ∃ i j, hashIdx !! a = Some i ∧ hashIdx !! b = Some j ∧ (i < j)%nat).
    { intros a b He. pose proof (check_edges_sound _ _ _ _ Hchk He) as Ht.
      unfold later_row in Ht.
      destruct (hashIdx !! a) as [i|], (hashIdx !! b) as [j|]; try done.
      exists i, j. split_and!; [done..|]. by case_bool_decide. }
    induction 1 as [a b He|a b c He _ (j & k & Hj & Hk & Hjk)]; [by apply Hone|].
    destruct (Hone _ _ He) as (i & j' & Hi & Hj' & Hij).
    exists i, k. split_and!; [done..|]. simplify_eq. lia. }
  intros h Hh. destruct (Hstep _ _ Hh) as (i & j & Hi & Hj & Hij).
  simplify_eq. lia.
Qed.

Lemma keys_closed commits :
  check_edges commits (is_key commits) = true → children_closed commits.
Proof.
  intros Hchk a b He. pose proof (check_edges_sound _ _ _ _ Hchk He) as Ht.
  unfold is_key in Ht. by case_bool_decide.
Qed.

Lemma later_rows_ordered commits hashIdx :
  check_edges commits (later_row hashIdx) = true →
  children_ordered commits hashIdx.
Proof.
  intros Hchk a b He. pose proof (check_edges_sound _ _ _ _ Hchk He) as Ht.
  unfold later_row in Ht.
  destruct (hashIdx !! a), (hashIdx !! b); done.
Qed.

(** ** Claims on single calls of the traversal *)

(** The state named [merge_second_arrival] is the one in which the call
    on [d] for the second run starts: the first neighbour of [a] has been
    handled, then [a] and [c] have been pushed. *)
Lemma merge_second_arrival_reached :
  ∃ s1, dfs merge_commits (build_hashIdx merge_order) 9 "b"
          (push "a" (init_state 4)) = Done s1 ∧
        merge_second_arrival = push "c" (push "a" s1).
Proof. eexists. split; [vm_compute; reflexivity|]. vm_compute. reflexivity. Qed.

Lemma merge_second_arrival_inv :
  layout_inv (build_hashIdx merge_order) merge_second_arrival.
Proof.
  destruct merge_second_arrival_reached as (s1 & Hs1 & ->).
  destruct (dfs_inv _ _ _ _ _ _
    (push_inv_next (build_hashIdx merge_order) "a" _ (init_state_inv merge_order) eq_refl)
    Hs1) as (Hi & Hs & Hk).
  apply push_inv_first; [by apply push_inv_next|].
  injection Hs1 as <-. vm_compute. reflexivity.
Qed.

(** C4: a commit whose height is already assigned keeps it when a later
    run arrives at it: the call flushes the arriving run, that is the
    current run followed by the commit, and nothing else; and no call of
    the traversal, whatever commit it visits, changes that height. *)
Theorem merge_height_kept commits hashIdx c v st :
  layout_inv hashIdx st →
  height st !! row hashIdx c = Some v → v ≠ 0 →
  (∀ fuel st', dfs commits hashIdx fuel c st = Done st' →
     (∃ cs, commits !! c = Some cs ∧ st' = flush hashIdx c cs st) ∧
     ev_run <$> flushed st' = (ev_run <$> flushed st) ++ [subTree st ++ [c]] ∧
     height st' !! row hashIdx c = Some v) ∧
  (∀ fuel c' st', dfs commits hashIdx fuel c' st = Done st' →
     layout_inv hashIdx st' ∧ height st' !! row hashIdx c = Some v).
Proof.
  intros Hinv Hc Hv. split.
  - intros fuel st' Hd.
    destruct (dfs_inv _ _ _ _ _ _ Hinv Hd) as (_ & _ & Hk).
    apply dfs_Done_inv in Hd as (fuel' & cs & -> & Hcs & [[_ ->]|(_ & H0 & _)]).
    + split_and!; [eauto| |by apply Hk].
      simpl. by rewrite fmap_app.
    + congruence.
  - intros fuel c' st' Hd.
    destruct (dfs_inv _ _ _ _ _ _ Hinv Hd) as (Hi & _ & Hk). split; [done|].
    by apply Hk.
Qed.

Lemma merge_height_kept_witness :
  layout_inv (build_hashIdx merge_order) merge_second_arrival ∧
  height merge_second_arrival !! row (build_hashIdx merge_order) "d" = Some 1 ∧
  ∀ st', dfs merge_commits (build_hashIdx merge_order) 3 "d"
           merge_second_arrival = Done st' →
         height st' !! row (build_hashIdx merge_order) "d" = Some 1.
Proof.
  split; [exact merge_second_arrival_inv|]. split; [vm_compute; reflexivity|].
  intros st' Hd.
  destruct (merge_height_kept merge_commits (build_hashIdx merge_order) "d" 1
              merge_second_arrival merge_second_arrival_inv)
    as [Harrive _]; [vm_compute; reflexivity|lia|].
  apply (Harrive 3%nat st' Hd).
Defined.

(** C9, as stated, fails: [b] is absent from the child mapping of
    [dangling_commits], and no budget makes the layout complete. *)
Lemma absent_commit_no_layout :
  dangling_commits !! "b" = None ∧
  getCommitGraph 9 dangling_commits (ord ["a"; "b"]) = TypeError ∧
  ∀ fuel, is_done (getCommitGraph fuel dangling_commits (ord ["a"; "b"])) = false.
Proof.
  split; [done|]. split; [vm_compute; reflexivity|].
  intros [|[|fuel]]; reflexivity.
Qed.

(** C9, amended: a call of the traversal on a commit hash that is absent
    from the child mapping throws a [TypeError], and the throw aborts the
    call on a parent that lists it and every enclosing call, so that no
    layout is produced; only a key mapped to the empty list is flushed as
    a commit without children.  A hash is hexadecimal, so that it names no
    property that the object inherits. *)
Theorem absent_commit_throws commits hashIdx c :
  is_hash c = true →
  commits !! c = None →
  (∀ fuel st, dfs commits hashIdx (S fuel) c st = TypeError) ∧
  (∀ fuel p before after st s1,
     commits !! p = Some (before ++ c :: after) →
     height st !! row hashIdx p = Some 0 →
     for_neighbors (dfs commits hashIdx (S fuel)) p before st = Done s1 →
     dfs commits hashIdx (S (S fuel)) p st = TypeError) ∧
  (∀ fuel p before n after st s1,
     commits !! p = Some (before ++ n :: after) →
     height st !! row hashIdx p = Some 0 →
     for_neighbors (dfs commits hashIdx fuel) p before st = Done s1 →
     dfs commits hashIdx fuel n (push p s1) = TypeError →
     dfs commits hashIdx (S fuel) p st = TypeError) ∧
  (∀ fuel c0 rest,
     dfs commits (build_hashIdx (c0 :: rest)) fuel (hash c0)
       (init_state (length (c0 :: rest))) = TypeError →
     getCommitGraph fuel commits (c0 :: rest) = TypeError) ∧
  (∀ c' fuel st, commits !! c' = Some [] →
     dfs commits hashIdx (S fuel) c' st = Done (flush hashIdx c' [] st)).
Proof.
  intros _ Hc.
  assert (Hthrow : ∀ fuel st, dfs commits hashIdx (S fuel) c st = TypeError).
  { intros fuel st. simpl. by rewrite Hc. }
  assert (Hup : ∀ fuel p before n after st s1,
     commits !! p = Some (before ++ n :: after) →
     height st !! row hashIdx p = Some 0 →
     for_neighbors (dfs commits hashIdx fuel) p before st = Done s1 →
     dfs commits hashIdx fuel n (push p s1) = TypeError →
     dfs commits hashIdx (S fuel) p st = TypeError).
  { intros fuel p before n after st s1 Hp H0 Hbefore Hn.
    rewrite dfs_S, Hp, H0. simpl.
    rewrite bool_decide_eq_false_2.
    2:{ rewrite length_app. simpl. lia. }
    simpl. clear Hp H0. revert st Hbefore.
    induction before as [|b before IH]; intros st Hbefore.
    + injection Hbefore as ->. simpl. by rewrite Hn.
    + apply for_neighbors_cons_inv in Hbefore as (s0 & Hb & Hrest).
      simpl. rewrite Hb. by apply IH. }
  split_and!.
  - exact Hthrow.
  - intros fuel p before after st s1 Hp H0 Hbefore.
    by apply (Hup (S fuel) p before c after st s1).
  - exact Hup.
  - intros fuel c0 rest Hd. unfold getCommitGraph, layout. by rewrite Hd.
  - intros c' fuel st Hc'. simpl. by rewrite Hc'.
Qed.

Lemma absent_commit_throws_witness :
  is_hash "b" = true ∧
  dangling_commits !! "b" = None ∧
  dfs dangling_commits (build_hashIdx (ord ["a"; "b"])) 1 "b"
    (push "a" (init_state 2)) = TypeError ∧
  dfs dangling_commits (build_hashIdx (ord ["a"; "b"])) 2 "a"
    (init_state 2) = TypeError.
Proof.
  split; [reflexivity|]. split; [reflexivity|].
  destruct (absent_commit_throws dangling_commits
              (build_hashIdx (ord ["a"; "b"])) "b" eq_refl eq_refl)
    as (Hthrow & Hparent & _).
  split; [apply Hthrow|].
  apply (Hparent 0%nat "a" [] [] (init_state 2) (init_state 2));
    reflexivity.
Defined.

(** C2: whenever [getCommitGraph] returns a layout for commits with
    pairwise different hashes, the entry of row 0, the chronologically
    earliest commit, has height 1. *)
Theorem root_height_one fuel commits orderedCommits ans :
  NoDup (hash <$> orderedCommits) →
  getCommitGraph fuel commits orderedCommits = Done ans →
  ∃ c0 e, orderedCommits !! 0%nat = Some c0 ∧ ans !! 0%nat = Some e ∧
          e_hash e = hash c0 ∧ e_height e = 1.
Proof.
  intros Hnd Hg. unfold getCommitGraph in Hg.
  destruct (layout fuel commits orderedCommits) as [st| |] eqn:Hl; [|done..].
  injection Hg as <-.
  destruct orderedCommits as [|c0 rest]; [done|].
  exists c0. eexists. split_and!; [done|reflexivity|done|]. simpl.
  unfold height_of.
  rewrite (build_hashIdx_nodup (c0 :: rest) 0 c0) by done.
  unfold layout in Hl. destruct (dfs _ _ _ _ _); [|done..].
  injection Hl as <-. simpl. by rewrite lookup_insert_eq.
Qed.

Lemma root_height_one_witness :
  NoDup (hash <$> merge_order) ∧
  ∃ c0 e, merge_order !! 0%nat = Some c0 ∧
    [ mkEntry "a" (Some ["b"; "c"]) 1; mkEntry "b" (Some ["d"]) 1;
      mkEntry "c" (Some ["d"]) 2; mkEntry "d" (Some []) 1 ] !! 0%nat = Some e ∧
    e_hash e = hash c0 ∧ e_height e = 1.
Proof.
  assert (Hnd : NoDup (hash <$> merge_order)).
  { apply (bool_decide_unpack _). vm_compute. exact I. }
  split; [exact Hnd|].
  apply (root_height_one 9 merge_commits merge_order _ Hnd).
  vm_compute. reflexivity.
Defined.

(** C10: on an acyclic child relation the traversal started at the oldest
    commit is not cut off by any recursion budget larger than the number
    of keys of the relation: it returns or throws; it returns when every
    child is a key and the oldest commit is one. *)
Theorem traversal_terminates commits orderedCommits fuel :
  acyclic commits → (size commits < fuel)%nat →
  layout fuel commits orderedCommits ≠ OutOfFuel ∧
  (∀ c0, head orderedCommits = Some c0 → children_closed commits →
         is_Some (commits !! hash c0) →
         ∃ st, layout fuel commits orderedCommits = Done st).
Proof.
  intros Hac Hf.
  assert (Hno : layout fuel commits orderedCommits ≠ OutOfFuel).
  { unfold layout. destruct orderedCommits as [|c0 rest]; [done|].
    pose proof (dfs_acyclic_no_timeout commits (build_hashIdx (c0 :: rest))
                  fuel (hash c0) (init_state (length (c0 :: rest))) Hac Hf).
    by destruct (dfs _ _ _ _ _). }
  split; [done|]. intros c0 Hhd Hcl Hkey.
  unfold layout in *. destruct orderedCommits as [|c0' rest]; [done|].
  injection Hhd as ->.
  pose proof (dfs_closed_no_throw commits (build_hashIdx (c0 :: rest))
                fuel (hash c0) (init_state (length (c0 :: rest))) Hcl Hkey).
  destruct (dfs _ _ _ _ _); [eauto|done..].
Qed.

Lemma traversal_terminates_witness :
  acyclic merge_commits ∧
  is_done (layout 5 merge_commits merge_order) = true.
Proof.
  assert (Hac : acyclic merge_commits).
  { apply (later_rows_acyclic _ (build_hashIdx merge_order)).
    vm_compute. reflexivity. }
  split; [exact Hac|].
  destruct (traversal_terminates merge_commits merge_order 5 Hac) as [_ Hdone];
    [vm_compute; lia|].
  destruct (Hdone (mkCommit "a" 0)) as [st ->]; [reflexivity| |by eexists|done].
  apply keys_closed. vm_compute. reflexivity.
Defined.

(** ** Heights of the returned layout *)

Lemma layout_Done_inv fuel commits orderedCommits st :
  layout fuel commits orderedCommits = Done st →
  ∃ c0 rest st0, orderedCommits = c0 :: rest ∧
    dfs commits (build_hashIdx orderedCommits) fuel (hash c0)
      (init_state (length orderedCommits)) = Done st0 ∧
    height st = <[Some 0%nat := 1]> (height st0) ∧
    flushed st = flushed st0.
Proof.
  unfold layout. destruct orderedCommits as [|c0 rest]; [done|].
  destruct (dfs _ _ _ _ _) as [st0| |] eqn:Hd; [|done..].
  intros [= <-]. by exists c0, rest, st0.
Qed.

(** After the traversal every commit that the child relation reaches from
    the oldest commit, other than that commit, has a height. *)
Lemma dfs_reaches commits cs fuel c0 rest st0 d :
  cs = c0 :: rest →
  NoDup (hash <$> cs) →
  children_ordered commits (build_hashIdx cs) →
  dfs commits (build_hashIdx cs) fuel (hash c0) (init_state (length cs))
    = Done st0 →
  tc (edge commits) (hash c0) d →
  assigned (build_hashIdx cs) (height st0) d.
Proof.
  intros Hcs Hnd Hord Hd Hreach.
  destruct (dfs_closed commits (build_hashIdx cs) (build_hashIdx_inj cs) Hord
              fuel (hash c0) (init_state (length cs)) st0 ∅)
    as (Hcl & _ & _ & Hkids); [apply init_state_inv| | |done|].
  { intros h Hh. by apply elem_of_nil in Hh. }
  { intros a b Ha. by apply init_state_unassigned in Ha. }
  assert (H0 : height (init_state (length cs)) !! row (build_hashIdx cs) (hash c0)
               = Some 0).
  { unfold row. rewrite (build_hashIdx_nodup cs 0 c0) by (by subst cs).
    apply zero_heights_lookup. split; [done|]. exists 0%nat.
    subst cs. simpl. split; [done|lia]. }
  revert d Hreach. apply tc_ind_r.
  - intros b Hb. by apply Hkids.
  - intros a b _ Hab Ha. by apply (Hcl a b).
Qed.

(** C3, as stated, fails: a commit without parents and children that is
    not the oldest one is never visited and keeps height 0. *)
Lemma isolated_commit_height_zero :
  ∃ ans e, getCommitGraph 9 two_roots_commits (ord ["a"; "b"]) = Done ans ∧
           e ∈ ans ∧ e_hash e = "b" ∧ e_children e = Some [] ∧
           e_height e = 0.
Proof.
  eexists _, (mkEntry "b" (Some []) 0).
  split; [vm_compute; reflexivity|]. split_and!; [|done..].
  apply list_elem_of_lookup. by exists 1%nat.
Qed.

(** C3, amended: in a returned layout of commits with pairwise different
    hashes, whose children all have a row, no height is negative, and every
    commit that the child relation reaches from the commit of row 0 (that
    commit included) has a height of at least 1. *)
Theorem reachable_height_positive fuel commits orderedCommits ans c0 e :
  NoDup (hash <$> orderedCommits) →
  children_ordered commits (build_hashIdx orderedCommits) →
  getCommitGraph fuel commits orderedCommits = Done ans →
  head orderedCommits = Some c0 →
  e ∈ ans →
  0 ≤ e_height e ∧
  (rtc (edge commits) (hash c0) (e_hash e) → 1 ≤ e_height e).
Proof.
  intros Hnd Hord Hg Hhd He. unfold getCommitGraph in Hg.
  destruct (layout fuel commits orderedCommits) as [st| |] eqn:Hl; [|done..].
  injection Hg as <-.
  apply list_elem_of_fmap in He as (c & -> & Hc). simpl.
  destruct (answer_height_defined _ _ _ _ _ Hl Hc) as (i & v & Hi & Hv & ->).
  apply layout_Done_inv in Hl as (c0' & rest & st0 & Hcs & Hd & Hh & _).
  assert (c0' = c0) as -> by (rewrite Hcs in Hhd; by injection Hhd).
  destruct (dfs_inv _ _ _ _ _ _ (init_state_inv orderedCommits) Hd)
    as ((_ & Hnn & _) & _ & _).
  rewrite Hh in Hv.
  destruct (decide (i = 0%nat)) as [->|Hi0].
  { rewrite lookup_insert_eq in Hv. injection Hv as <-. lia. }
  rewrite lookup_insert_ne in Hv by congruence.
  pose proof (Hnn _ _ Hv) as Hv0. simpl in Hv0. split; [done|].
  intros [Heq|Htc]%rtc_tc.
  - exfalso. rewrite <- Heq in Hi.
    rewrite (build_hashIdx_nodup orderedCommits 0 c0 Hnd) in Hi; [congruence|].
    by rewrite Hcs.
  - destruct (dfs_reaches commits orderedCommits fuel c0 rest st0 (hash c)
                Hcs Hnd Hord Hd Htc) as (i' & v' & Hi' & Hv' & Hne).
    simplify_eq. lia.
Qed.

Lemma reachable_height_positive_witness :
  NoDup (hash <$> merge_order) ∧
  children_ordered merge_commits (build_hashIdx merge_order) ∧
  rtc (edge merge_commits) "a" "c" ∧
  1 ≤ e_height (mkEntry "c" (Some ["d"]) 2).
Proof.
  assert (Hnd : NoDup (hash <$> merge_order)).
  { apply (bool_decide_unpack _). vm_compute. exact I. }
  assert (Hord : children_ordered merge_commits (build_hashIdx merge_order)).
  { apply later_rows_ordered. vm_compute. reflexivity. }
  assert (Hac : rtc (edge merge_commits) "a" "c").
  { apply rtc_once. exists ["b"; "c"]. split; [reflexivity|].
    apply list_elem_of_lookup. by exists 1%nat. }
  split_and!; [done..|].
  apply (reachable_height_positive 9 merge_commits merge_order
           [ mkEntry "a" (Some ["b"; "c"]) 1; mkEntry "b" (Some ["d"]) 1;
             mkEntry "c" (Some ["d"]) 2; mkEntry "d" (Some []) 1 ]
           (mkCommit "a" 0) (mkEntry "c" (Some ["d"]) 2) Hnd Hord).
  - vm_compute. reflexivity.
  - reflexivity.
  - apply list_elem_of_lookup. by exists 2%nat.
  - exact Hac.
Defined.

(** C1, as stated, fails on a fork whose second branch is older than its
    first: the runs [a; b] (rows 0 to 2) and [a; c] (rows 0 to 1) overlap,
    [b] lies on the first only and [c] on the second only, and both get
    height 1. *)
Lemma fork_lane_collision :
  ∃ st, layout 9 fork_commits fork_order = Done st ∧
    ev_run <$> flushed st = [ ["a"; "b"]; ["a"; "c"] ] ∧
    run_range (build_hashIdx fork_order) ["a"; "b"] = Some (0, 2)%nat ∧
    run_range (build_hashIdx fork_order) ["a"; "c"] = Some (0, 1)%nat ∧
    strictly_overlap (0, 2)%nat (0, 1)%nat ∧
    height_of (build_hashIdx fork_order) (height st) "b" = 1 ∧
    height_of (build_hashIdx fork_order) (height st) "c" = 1 ∧
    ¬ lanes_disjoint (build_hashIdx fork_order) st.
Proof.
  eexists. split; [vm_compute; reflexivity|].
  split_and!; try (vm_compute; reflexivity).
  intros Hdis.
  apply (Hdis (mkFlush ["a"; "b"] 1 ["b"]) (mkFlush ["a"; "c"] 1 ["c"])
           "b" "c" (0, 2)%nat (0, 1)%nat).
  - simpl. set_solver.
  - simpl. set_solver.
  - simpl. set_solver.
  - simpl. set_solver.
  - simpl. set_solver.
  - simpl. set_solver.
  - vm_compute. reflexivity.
  - vm_compute. reflexivity.
  - unfold strictly_overlap. cbn. lia.
  - vm_compute. reflexivity.
Qed.

(** C1, amended: take two flushes of the traversal, a commit whose cell the
    earlier one wrote and a commit whose cell the later one wrote, neither
    on row 0.  When the row of the first commit lies within the row range
    of the later run, the later commit is laid out strictly higher, so the
    two never share a lane. *)
Theorem later_run_above_earlier fuel commits orderedCommits st
    (j1 j2 : nat) e1 e2 c1 c2 (i1 i2 : nat) :
  layout fuel commits orderedCommits = Done st →
  flushed st !! j1 = Some e1 → flushed st !! j2 = Some e2 → (j1 < j2)%nat →
  c1 ∈ ev_written e1 → c2 ∈ ev_written e2 →
  build_hashIdx orderedCommits !! c1 = Some i1 →
  build_hashIdx orderedCommits !! c2 = Some i2 →
  in_range (build_hashIdx orderedCommits) (ev_run e2) i1 →
  i1 ≠ 0%nat → i2 ≠ 0%nat →
  height_of (build_hashIdx orderedCommits) (height st) c1 = ev_height e1 ∧
  height_of (build_hashIdx orderedCommits) (height st) c2 = ev_height e2 ∧
  ev_height e1 < ev_height e2.
Proof.
  intros Hl H1 H2 Hlt Hc1 Hc2 Hi1 Hi2 Hin Hn1 Hn2.
  apply layout_Done_inv in Hl as (c0 & rest & st0 & Hcs & Hd & Hh & Hf).
  rewrite Hf in H1, H2.
  destruct (dfs_trace_inv commits (build_hashIdx orderedCommits) fuel (hash c0)
              (init_state (length orderedCommits)) st0) as [Hth Hts];
    [apply init_state_inv| |done|].
  { split.
    - intros e c i He. by apply elem_of_nil in He.
    - intros j1' j2' e1' e2' c1' i1' He. by destruct j1'. }
  destruct (Hth e1 c1 i1) as [Hv1 _]; [by eapply list_elem_of_lookup_2|done..|].
  destruct (Hth e2 c2 i2) as [Hv2 _]; [by eapply list_elem_of_lookup_2|done..|].
  unfold height_of. rewrite Hi1, Hi2, Hh.
  rewrite !lookup_insert_ne by congruence. rewrite Hv1, Hv2. simpl.
  split_and!; [done..|]. by eapply Hts.
Qed.

Lemma later_run_above_earlier_witness :
  ∃ st, layout 9 merge_commits merge_order = Done st ∧
    height_of (build_hashIdx merge_order) (height st) "b"
      = ev_height (mkFlush ["a"; "b"; "d"] 1 ["b"; "d"]) ∧
    height_of (build_hashIdx merge_order) (height st) "c"
      = ev_height (mkFlush ["a"; "c"; "d"] 2 ["c"]) ∧
    ev_height (mkFlush ["a"; "b"; "d"] 1 ["b"; "d"])
      < ev_height (mkFlush ["a"; "c"; "d"] 2 ["c"]).
Proof.
  eexists. split; [vm_compute; reflexivity|].
  apply (later_run_above_earlier 9 merge_commits merge_order _ 0 1
           (mkFlush ["a"; "b"; "d"] 1 ["b"; "d"])
           (mkFlush ["a"; "c"; "d"] 2 ["c"]) "b" "c" 1 2).
  - vm_compute. reflexivity.
  - reflexivity.
  - reflexivity.
  - lia.
  - simpl. set_solver.
  - simpl. set_solver.
  - vm_compute. reflexivity.
  - vm_compute. reflexivity.
  - exists 0%nat, 3%nat.
    split; [vm_compute; reflexivity|]. split; [vm_compute; reflexivity|lia].
  - lia.
  - lia.
Defined.

(** ** The scenarios of the specification *)


Example fork_heights :
  getCommitGraph 10 fork_commits (ord ["a"; "b"; "c"]) =
  Done [ mkEntry "a" (Some ["b"; "c"]) 1; mkEntry "b" (Some []) 1;
         mkEntry "c" (Some []) 2 ].
Proof. vm_compute. reflexivity. Qed.

Example merge_heights :
  getCommitGraph 10 merge_commits (ord ["a"; "b"; "c"; "d"]) =
  Done [ mkEntry "a" (Some ["b"; "c"]) 1; mkEntry "b" (Some ["d"]) 1;
         mkEntry "c" (Some ["d"]) 2; mkEntry "d" (Some []) 1 ].
Proof. vm_compute. reflexivity. Qed.

(** * Properties of the webview *)

(** ** Positions of the nodes *)

Lemma positions_from_notin index cs m h :
  h ∉ e_hash <$> cs → positions_from index cs m !! h = m !! h.
Proof.
  revert index m. induction cs as [|c cs IH]; intros index m Hh; [done|]. simpl.
  rewrite fmap_cons in Hh. apply not_elem_of_cons in Hh as [Hne Hh].
  rewrite IH by done. by rewrite lookup_insert_ne.
Qed.

Lemma positions_from_nodup index cs m (j : nat) c :
  NoDup (e_hash <$> cs) → cs !! j = Some c →
  positions_from index cs m !! e_hash c =
  Some (graph_x + (e_height c - 1) * xOffset,
        graph_y + Z.of_nat (index + j) * yOffset).
Proof.
  revert index m j. induction cs as [|c' cs IH]; intros index m j Hnd Hj; [done|].
  rewrite fmap_cons in Hnd. apply NoDup_cons in Hnd as [Hc' Hnd]. simpl.
  destruct j as [|j]; simpl in Hj.
  - injection Hj as ->. rewrite positions_from_notin by done.
    rewrite lookup_insert_eq. by rewrite Nat.add_0_r.
  - rewrite (IH _ _ j) by done. do 3 f_equal. lia.
Qed.

Lemma scene_Some_inv pos max_h head data nodes links elems :
  scene pos max_h head data nodes links = Some elems →
  ∃ lines circles messages borders tags dates,
    mapM (line_elem pos) links = Some lines ∧
    mapM (circle_elem pos head) nodes = Some circles ∧
    mapM (message_elem pos max_h head data) nodes = Some messages ∧
    mapM (border_elem pos max_h head) nodes = Some borders ∧
    mapM (tag_elem pos max_h head) nodes = Some tags ∧
    mapM (date_elem pos data) nodes = Some dates ∧
    elems =
      [ static "div" ["container"]; static "div" ["left"]; static "g" [] ]
      ++ lines ++ [ static "g" [] ] ++ circles
      ++ [ static "g" ["textGroup"] ] ++ messages
      ++ [ static "g" ["headGroup"] ] ++ borders ++ tags
      ++ [ static "g" ["dateGroup"] ] ++ dates
      ++ [ static "div" ["right"] ].
Proof.
  unfold scene. intros H.
  destruct (mapM (line_elem pos) links) as [lines|]; [|done].
  destruct (mapM (circle_elem pos head) nodes) as [circles|]; [|done].
  destruct (mapM (message_elem pos max_h head data) nodes) as [messages|]; [|done].
  destruct (mapM (border_elem pos max_h head) nodes) as [borders|]; [|done].
  destruct (mapM (tag_elem pos max_h head) nodes) as [tags|]; [|done].
  destruct (mapM (date_elem pos data) nodes) as [dates|]; [|done].
  simpl in H. injection H as <-. by eexists _, _, _, _, _, _.
Qed.

Lemma render_Some_inv commitGraph HEAD0 commitsData w :
  getGraphWebviewContent commitGraph HEAD0 commitsData = Some w →
  ∃ links,
    build_links (reverse commitGraph) = Some links ∧
    scene (positions w) (max_height w) HEAD0 commitsData
      (e_hash <$> reverse commitGraph) links = Some (doc w) ∧
    positions w = positions_from 0 (reverse commitGraph) ∅ ∧
    max_height w = compute_max_height commitGraph ∧
    commitGraphString w = reverse commitGraph ∧
    commitsDateString w = commitsData ∧
    HEAD w = HEAD0 ∧ posted w = [] ∧ details w = None.
Proof.
  unfold getGraphWebviewContent. intros H.
  destruct (build_links (reverse commitGraph)) as [links|]; [|done].
  simpl in H.
  destruct (scene _ _ _ _ _ _) as [elems|] eqn:Hs; [|done].
  injection H as <-. simpl. by exists links.
Qed.

Lemma d3_attr_lookup_ne name v (m : gmap string AttrVal) k :
  name ≠ k → d3_attr name v m !! k = m !! k.
Proof.
  intros Hne. destruct v; simpl.
  - by rewrite lookup_insert_ne.
  - by rewrite lookup_delete_ne.
Qed.

(** C8, as stated, fails: the oldest commit [a] of the merge history, whose
    position in ascending chronological order is 0, is drawn at
    y = 50 + 3 * 100 and not at y = 50 + 0 * 100. *)
Lemma oldest_commit_drawn_last :
  merge_graph !! 0%nat = Some (mkEntry "a" (Some ["b"; "c"]) 1) ∧
  (λ w, positions w !! "a") <$> merge_page = Some (Some (210, 350)) ∧
  350 ≠ graph_y + Z.of_nat 0 * yOffset.
Proof. split_and!; [reflexivity|vm_compute; reflexivity|done]. Qed.

(** C8, amended: the node of a commit is positioned at
    x = baseX + (height - 1) * laneWidth and
    y = baseY + rowIndex * rowHeight, where rowIndex is the 0-based position
    of the commit in descending chronological order (the script reverses
    the layout, so the newest commit is drawn first): for the commit at
    position i of n in ascending order, rowIndex = n - 1 - i. *)
Theorem node_position commitGraph HEAD0 commitsData w (i : nat) c :
  NoDup (e_hash <$> commitGraph) →
  getGraphWebviewContent commitGraph HEAD0 commitsData = Some w →
  commitGraph !! i = Some c →
  positions w !! e_hash c =
    Some (graph_x + (e_height c - 1) * xOffset,
          graph_y + Z.of_nat (length commitGraph - 1 - i) * yOffset) ∧
  ∃ e, e ∈ doc w ∧ tagName e = "circle" ∧ datum e = DNode (e_hash c) ∧
       attrs e !! "cx" = Some (ANum (graph_x + (e_height c - 1) * xOffset)) ∧
       attrs e !! "cy" =
         Some (ANum (graph_y + Z.of_nat (length commitGraph - 1 - i) * yOffset)).
Proof.
  intros Hnd Hw Hi.
  apply render_Some_inv in Hw as (links & _ & Hscene & Hpos & _).
  pose proof (lookup_lt_Some _ _ _ Hi) as Hlt.
  assert (Hrev : reverse commitGraph !! (length commitGraph - 1 - i)%nat = Some c).
  { rewrite reverse_lookup by lia. rewrite <- Hi. f_equal. lia. }
  assert (Hp : positions w !! e_hash c =
    Some (graph_x + (e_height c - 1) * xOffset,
          graph_y + Z.of_nat (length commitGraph - 1 - i) * yOffset)).
  { rewrite Hpos.
    rewrite (positions_from_nodup 0 _ ∅ (length commitGraph - 1 - i) c); [done| |done].
    by rewrite fmap_reverse, reverse_Permutation. }
  split; [done|].
  apply scene_Some_inv in Hscene
    as (lines & circles & messages & borders & tags & dates & _ & Hc & _ & _ & _ & _ & ->).
  apply mapM_Some in Hc.
  assert (Hnode : (e_hash <$> reverse commitGraph) !! (length commitGraph - 1 - i)%nat
                  = Some (e_hash c)) by (by rewrite list_lookup_fmap, Hrev).
  destruct (Forall2_lookup_l _ _ _ _ _ Hc Hnode) as (e & He & Hce).
  exists e. split.
  { apply list_elem_of_lookup_2 in He. set_solver. }
  unfold circle_elem in Hce. rewrite Hp in Hce. simpl in Hce.
  injection Hce as <-. simpl. split_and!; [done..| |].
  - rewrite !d3_attr_lookup_ne by done. by simplify_map_eq.
  - rewrite !d3_attr_lookup_ne by done. by simplify_map_eq.
Qed.

Lemma node_position_witness :
  NoDup (e_hash <$> merge_graph) ∧
  is_Some merge_page ∧
  ∀ w, merge_page = Some w → positions w !! "c" = Some (310, 150).
Proof.
  assert (Hnd : NoDup (e_hash <$> merge_graph)).
  { apply (bool_decide_unpack _). vm_compute. exact I. }
  split; [exact Hnd|]. split.
  { apply (bool_decide_unpack _). vm_compute. exact I. }
  intros w Hw.
  apply (node_position merge_graph "d" merge_data w 2
           (mkEntry "c" (Some ["d"]) 2) Hnd Hw eq_refl).
Defined.

(** ** Double clicks *)

(** C5, as stated, fails: on the page of the merge history with HEAD on
    [d], a double click on the circle of [b] posts a checkout request;
    while no answer has been delivered (HEAD and the scene are unchanged), a
    double click on the circle of [c] posts a second one. *)
Lemma second_checkout_posted :
  (λ w, (posted (on_dblclick 10 w), HEAD (on_dblclick 10 w))) <$> merge_page
    = Some ([ mkMsg "gitCheckout" "b" ], "d") ∧
  (λ w, posted (on_dblclick 9 (on_dblclick 10 w))) <$> merge_page
    = Some [ mkMsg "gitCheckout" "b"; mkMsg "gitCheckout" "c" ].
Proof. split; vm_compute; reflexivity. Qed.

(** C5, amended: a double click on an element that listens (the circle or
    the commit message of a node) always posts exactly one [gitCheckout]
    message carrying the hash of that node, whatever was posted before and
    whether or not it was answered; it changes nothing else on the page,
    and the extension runs the checkout for every such message. *)
Theorem dblclick_always_posts w (i : nat) e id :
  doc w !! i = Some e → listens e = true → datum e = DNode id →
  posted (on_dblclick i w) = posted w ++ [ mkMsg "gitCheckout" id ] ∧
  HEAD (on_dblclick i w) = HEAD w ∧
  doc (on_dblclick i w) = doc w ∧
  positions (on_dblclick i w) = positions w ∧
  ∀ checkout,
    host_on_message checkout (mkMsg "gitCheckout" id) =
    match checkout id with
    | None => PostToWebview (mkMsg "gitCheckout" id)
    | Some text => ShowError text "Close"
    end.
Proof.
  intros He Hl Hd. unfold on_dblclick. rewrite He, Hl, Hd. simpl.
  split_and!; done.
Qed.

Lemma dblclick_always_posts_witness :
  is_Some merge_page ∧
  ∀ w, merge_page = Some w →
    posted (on_dblclick 9 (on_dblclick 10 w)) =
    posted (on_dblclick 10 w) ++ [ mkMsg "gitCheckout" "c" ].
Proof.
  split.
  { apply (bool_decide_unpack _). vm_compute. exact I. }
  intros w Hw.
  assert (Hc : (λ w, listens <$> w !! 9%nat) <$> (doc <$> merge_page) = Some (Some true)
             ∧ (λ w, datum <$> w !! 9%nat) <$> (doc <$> merge_page)
               = Some (Some (DNode "c"))).
  { split; vm_compute; reflexivity. }
  rewrite Hw in Hc. simpl in Hc. destruct Hc as [[= Hl] [= Hd]].
  destruct (doc w !! 9%nat) as [e|] eqn:He; [|done].
  injection Hl as Hl. injection Hd as Hd.
  apply (dblclick_always_posts (on_dblclick 10 w) 9 e "c");
    [|done..].
  unfold on_dblclick. destruct (doc w !! 10%nat) as [e'|]; [|done].
  by destruct (listens e'), (datum e').
Defined.

(** ** Class lists *)

Lemma elem_of_cl_remove c (l : list string) t :
  t ∈ cl_remove c l ↔ t ≠ c ∧ t ∈ l.
Proof. unfold cl_remove. by rewrite list_elem_of_filter. Qed.

Lemma elem_of_cl_add c (l : list string) t :
  t ∈ cl_add c l ↔ t = c ∨ t ∈ l.
Proof.
  unfold cl_add. case_bool_decide.
  - split; [by right|]. by intros [->|?].
  - rewrite elem_of_app, list_elem_of_singleton. tauto.
Qed.

Lemma contains_true c e : contains c e = true ↔ c ∈ classList e.
Proof. unfold contains. apply bool_decide_eq_true. Qed.

Lemma contains_false c e : contains c e = false ↔ c ∉ classList e.
Proof. unfold contains. apply bool_decide_eq_false. Qed.

(** [contains] only depends on the tokens. *)
Lemma contains_ext c e e' :
  (c ∈ classList e' ↔ c ∈ classList e) → contains c e' = contains c e.
Proof.
  intros H. unfold contains.
  destruct (decide (c ∈ classList e)) as [Hc|Hc].
  - rewrite !bool_decide_eq_true_2; tauto.
  - rewrite !bool_decide_eq_false_2; tauto.
Qed.

(** ** Hashes are not class names of the page *)

Lemma is_hash_not_reserved h :
  is_hash h = true →
  h ∉ [ "HEADElem"; "usualElem"; "circle"; "commitHash"; "HEADBorder";
        "HEADText"; "container"; "left"; "right"; "textGroup"; "headGroup";
        "dateGroup" ].
Proof.
  intros Hh Hin.
  repeat (apply elem_of_cons in Hin as [->|Hin]; [by vm_compute in Hh|]).
  by apply elem_of_nil in Hin.
Qed.

Lemma hash_not_flag h HEAD0 id : is_hash h = true → h ≠ head_flag HEAD0 id.
Proof.
  intros Hh ->. unfold head_flag in Hh. case_bool_decide; by vm_compute in Hh.
Qed.

Lemma hash_not_kind h k : is_hash h = true → k ∈ node_kinds → h ≠ k.
Proof.
  unfold node_kinds. intros Hh Hk ->.
  repeat (apply elem_of_cons in Hk as [->|Hk]; [by vm_compute in Hh|]).
  by apply elem_of_nil in Hk.
Qed.

Lemma kind_not_flag k HEAD0 id : k ∈ node_kinds → k ≠ head_flag HEAD0 id.
Proof.
  unfold node_kinds, head_flag. intros Hk Heq.
  repeat (apply elem_of_cons in Hk as [->|Hk]; [by case_bool_decide|]).
  by apply elem_of_nil in Hk.
Qed.

(** ** One element under a checkout *)

Lemma same_frame_refl e : same_frame e e.
Proof. by split_and!. Qed.

Lemma same_frame_contains e e' c :
  same_frame e e' → c ≠ "HEADElem" → c ≠ "usualElem" →
  contains c e' = contains c e.
Proof.
  intros (_ & _ & _ & _ & Hcl & _) H1 H2. apply contains_ext. by apply Hcl.
Qed.

Lemma same_frame_keys e e' :
  same_frame e e' →
  decoration_keys e' = decoration_keys e ∧ is_tag_text e' = is_tag_text e.
Proof.
  intros Hf. unfold decoration_keys, is_tag_text.
  by rewrite !(same_frame_contains e e' _ Hf).
Qed.

Lemma same_frame_trans e1 e2 e3 :
  same_frame e1 e2 → same_frame e2 e3 → same_frame e1 e3.
Proof.
  intros H12 H23. destruct (same_frame_keys _ _ H12) as [Hk Ht].
  destruct H12 as (Ha & Hb & Hc & Hd & He & Hf).
  destruct H23 as (Ha' & Hb' & Hc' & Hd' & He' & Hf').
  split_and!; try congruence.
  - intros k Hk'. rewrite Hd' by (by rewrite Hk). by apply Hd.
  - intros c H1 H2. rewrite He' by done. by apply He.
  - intros Hx. rewrite Hf' by (by rewrite Ht). by apply Hf.
Qed.

Lemma Forall2_same_frame_refl (es : list Elem) : Forall2 same_frame es es.
Proof. apply Forall_Forall2_diag, Forall_forall. intros. apply same_frame_refl. Qed.

Lemma Forall2_same_frame_trans (l1 l2 l3 : list Elem) :
  Forall2 same_frame l1 l2 → Forall2 same_frame l2 l3 →
  Forall2 same_frame l1 l3.
Proof.
  intros H12. revert l3. induction H12 as [|e1 e2 l1 l2 He _ IH]; intros l3 H23.
  - by inversion H23.
  - inversion H23 as [|? e3 ? l3' He' Hl']; subst. constructor.
    + by eapply same_frame_trans.
    + by apply IH.
Qed.

(** The body of the two loops of the listener, before the class update. *)
Ltac kind_cases e :=
  let Hc := fresh "Hcircle" in
  let Hm := fresh "Hmessage" in
  let Hb := fresh "Hborder" in
  let Ht := fresh "Htag" in
  destruct (contains "circle" e) eqn:Hc;
    [|destruct (contains "commitHash" e) eqn:Hm;
       [|destruct (contains "HEADBorder" e) eqn:Hb;
          [|destruct (contains "HEADText" e) eqn:Ht]]].

Lemma revert_elem_frame w e e' :
  revert_elem w e = Some e' →
  same_frame e e' ∧
  (∀ c, c ∈ classList e' ↔ c = "usualElem" ∨ (c ≠ "HEADElem" ∧ c ∈ classList e)).
Proof.
  unfold revert_elem. intros H.
  apply bind_Some in H as (e1 & He1 & [= <-]).
  assert (tagName e1 = tagName e ∧ datum e1 = datum e ∧
          listens e1 = listens e ∧ classList e1 = classList e ∧
          (∀ k, k ∉ decoration_keys e → attrs e1 !! k = attrs e !! k) ∧
          (is_tag_text e = false → textContent e1 = textContent e))
    as (Ha & Hb & Hc & Hd & He & Hf).
  { unfold decoration_keys, is_tag_text. kind_cases e.
    - apply bind_Some in He1 as (p & _ & [= <-]). simpl. split_and!; try done.
      intros k Hk%not_elem_of_cons. unfold set_color.
      rewrite lookup_insert_ne; [done|]. naive_solver.
    - injection He1 as <-. simpl. split_and!; try done.
      intros k Hk%not_elem_of_cons. rewrite lookup_insert_ne; [done|]. naive_solver.
    - injection He1 as <-. simpl. split_and!; try done.
      intros k Hk. rewrite !lookup_insert_ne; [done|set_solver..].
    - injection He1 as <-. simpl. split_and!; done.
    - injection He1 as <-. simpl. split_and!; done. }
  split.
  - split_and!; simpl; try done.
    intros c H1 H2. rewrite elem_of_cl_add, elem_of_cl_remove, Hd. naive_solver.
  - intros c. simpl. by rewrite elem_of_cl_add, elem_of_cl_remove, Hd.
Qed.

Lemma revert_elem_Some w e :
  (contains "circle" e = true → is_Some (positions w !! HEAD w)) →
  is_Some (revert_elem w e).
Proof.
  intros Hp. unfold revert_elem. kind_cases e; simpl; eauto.
  destruct (Hp eq_refl) as [p ->]. simpl. eauto.
Qed.

Lemma apply_elem_frame w e :
  same_frame e (apply_elem w e) ∧
  (∀ c, c ∈ classList (apply_elem w e) ↔
        c ≠ "usualElem" ∧ (c = "HEADElem" ∨ c ∈ classList e)).
Proof.
  unfold apply_elem.
  set (e1 := if contains "circle" e then _ else _).
  assert (tagName e1 = tagName e ∧ datum e1 = datum e ∧
          listens e1 = listens e ∧ classList e1 = classList e ∧
          (∀ k, k ∉ decoration_keys e → attrs e1 !! k = attrs e !! k) ∧
          (is_tag_text e = false → textContent e1 = textContent e))
    as (Ha & Hb & Hc & Hd & He & Hf).
  { subst e1. unfold decoration_keys, is_tag_text.
    kind_cases e; simpl; split_and!; try done.
    - intros k Hk%not_elem_of_cons. rewrite lookup_insert_ne; [done|]. naive_solver.
    - intros k Hk%not_elem_of_cons. rewrite lookup_insert_ne; [done|]. naive_solver.
    - intros k Hk. rewrite !lookup_insert_ne; [done|set_solver..]. }
  split.
  - split_and!; simpl; try done.
    intros c H1 H2. rewrite elem_of_cl_remove, elem_of_cl_add, Hd. naive_solver.
  - intros c. simpl. by rewrite elem_of_cl_remove, elem_of_cl_add, Hd.
Qed.

(** An element of one of the four kinds shows the decoration once the
    second loop of the listener has handled it. *)
Lemma apply_elem_decorated w w' e kind :
  max_height w' = max_height w → kind ∈ node_kinds → contains kind e = true →
  decorated w' (apply_elem w e) = true.
Proof.
  intros Hmh Hkind Hk. unfold decorated.
  destruct (apply_elem_frame w e) as [Hf Hcl].
  assert (Hhead : contains "HEADElem" (apply_elem w e) = true).
  { apply contains_true, Hcl. split; [done|by left]. }
  rewrite Hhead, !(same_frame_contains _ _ _ Hf) by done. simpl.
  unfold apply_elem. kind_cases e; simpl.
  - rewrite lookup_insert_eq. by rewrite bool_decide_eq_true_2.
  - rewrite lookup_insert_eq, Hmh. by rewrite bool_decide_eq_true_2.
  - apply andb_true_iff. split; apply bool_decide_eq_true.
    + rewrite lookup_insert_ne by done. by rewrite lookup_insert_eq.
    + by rewrite lookup_insert_eq.
  - done.
  - exfalso. unfold node_kinds in Hkind.
    repeat (apply elem_of_cons in Hkind as [->|Hkind]; [congruence|]).
    by apply elem_of_nil in Hkind.
Qed.

(** ** The listener on the whole page *)

Lemma revert_old_spec w es :
  (∀ e, e ∈ es → contains "HEADElem" e = true → contains "circle" e = true →
        is_Some (positions w !! HEAD w)) →
  ∃ es', revert_old w es = (es', false) ∧
    Forall2 (λ e e1, if contains "HEADElem" e then revert_elem w e = Some e1
                     else e1 = e) es es'.
Proof.
  induction es as [|e es IH]; intros Hp; simpl.
  - eexists. split; [done|constructor].
  - destruct IH as (es' & Hes' & Hall).
    { intros e' He'. apply Hp. by right. }
    rewrite Hes'. destruct (contains "HEADElem" e) eqn:Hh.
    + destruct (revert_elem_Some w e) as [e1 He1].
      { intros Hc. apply (Hp e); [by left|done..]. }
      rewrite He1. eexists. split; [done|]. constructor; [|done]. by rewrite Hh.
    + eexists. split; [done|]. constructor; [|done]. by rewrite Hh.
Qed.

Lemma revert_old_Forall2 w es es' threw :
  revert_old w es = (es', threw) → threw = false →
  Forall2 (λ e e1, if contains "HEADElem" e then revert_elem w e = Some e1
                   else e1 = e) es es'.
Proof.
  revert es' threw. induction es as [|e es IH]; intros es' threw H Ht; simpl in H.
  - injection H as <- _. constructor.
  - destruct (contains "HEADElem" e) eqn:Hh.
    + destruct (revert_elem w e) as [e1|] eqn:He1.
      * destruct (revert_old w es) as [rest t] eqn:Hr. injection H as <- <-.
        constructor; [by rewrite Hh|]. by eapply IH.
      * injection H as _ <-. done.
    + destruct (revert_old w es) as [rest t] eqn:Hr. injection H as <- <-.
      constructor; [by rewrite Hh|]. by eapply IH.
Qed.

Lemma on_message_Handled_inv m w w' :
  command m = "gitCheckout" → on_message m w = Handled w' →
  Forall2 (patched w (commitHash m)) (doc w) (doc w') ∧
  HEAD w' = commitHash m ∧
  positions w' = positions w ∧ max_height w' = max_height w ∧
  commitGraphString w' = commitGraphString w ∧
  commitsDateString w' = commitsDateString w ∧
  posted w' = posted w ∧ details w' = details w.
Proof.
  intros Hc. unfold on_message. rewrite bool_decide_eq_true_2 by done.
  destruct (revert_old w (doc w)) as [doc1 threw] eqn:Hr.
  destruct threw; [done|]. intros [= <-]. simpl. split_and!; try done.
  pose proof (revert_old_Forall2 _ _ _ _ Hr eq_refl) as Hall.
  unfold apply_new. apply Forall2_fmap_r.
  eapply Forall2_impl; [exact Hall|]. intros e e1 He. by exists e1.
Qed.

Lemma on_message_other m w :
  command m ≠ "gitCheckout" → on_message m w = Handled w.
Proof. intros Hc. unfold on_message. by rewrite bool_decide_eq_false_2. Qed.

Lemma on_message_handles m w :
  (∀ e, e ∈ doc w → contains "HEADElem" e = true → contains "circle" e = true →
        is_Some (positions w !! HEAD w)) →
  ∃ w', on_message m w = Handled w'.
Proof.
  intros Hp. unfold on_message. case_bool_decide; [|eauto].
  destruct (revert_old_spec w (doc w) Hp) as (es' & -> & _). eauto.
Qed.

(** What the listener does to one element. *)
Lemma patched_frame w B e e' :
  B ≠ "HEADElem" → B ≠ "usualElem" → patched w B e e' →
  same_frame e e' ∧
  (B ∈ classList e' ↔ B ∈ classList e) ∧
  ("HEADElem" ∈ classList e' ↔ B ∈ classList e).
Proof.
  intros HB1 HB2 (e1 & He1 & ->).
  assert (same_frame e e1 ∧
          (∀ c, c ≠ "usualElem" → c ∈ classList e1 ↔ c ≠ "HEADElem" ∧ c ∈ classList e) ∨
          e1 = e ∧ "HEADElem" ∉ classList e) as H1.
  { destruct (contains "HEADElem" e) eqn:Hh.
    - left. apply revert_elem_frame in He1 as [Hf Hcl]. split; [done|].
      intros c Hc. rewrite Hcl. naive_solver.
    - right. split; [done|]. by apply contains_false. }
  assert (Hf1 : same_frame e e1).
  { destruct H1 as [[? _]|[-> _]]; [done|apply same_frame_refl]. }
  assert (HB : B ∈ classList e1 ↔ B ∈ classList e).
  { destruct Hf1 as (_ & _ & _ & _ & Hcl & _). by apply Hcl. }
  assert (Hno : "HEADElem" ∉ classList e1).
  { destruct H1 as [[_ Hcl]|[-> ?]]; [|done]. rewrite Hcl by done. naive_solver. }
  destruct (contains B e1) eqn:HBe.
  - apply contains_true in HBe. destruct (apply_elem_frame w e1) as [Hf2 Hcl2].
    split_and!.
    + by eapply same_frame_trans.
    + rewrite Hcl2. naive_solver.
    + rewrite Hcl2. naive_solver.
  - apply contains_false in HBe. split_and!; [done..|]. tauto.
Qed.

(** An element that is tagged with neither the old nor the new hash is left
    as it is. *)
Lemma patched_untouched w B e e' :
  ("HEADElem" ∈ classList e → HEAD w ∈ classList e) →
  HEAD w ∉ classList e → B ∉ classList e → patched w B e e' → e' = e.
Proof.
  intros Hj Hold Hnew (e1 & He1 & ->).
  rewrite (proj2 (contains_false "HEADElem" e)) in He1 by tauto. subst e1.
  by rewrite (proj2 (contains_false B e)).
Qed.

(** After a checkout an element of one of the four kinds shows the HEAD
    decoration exactly when it is tagged with the new hash. *)
Lemma patched_decorated w w' B kind e e' :
  B ≠ "HEADElem" → B ≠ "usualElem" →
  max_height w' = max_height w → kind ∈ node_kinds →
  patched w B e e' →
  contains kind e' && decorated w' e' = contains kind e && contains B e.
Proof.
  intros HB1 HB2 Hmh Hkind Hp.
  destruct (patched_frame w B e e' HB1 HB2 Hp) as (Hf & HB & Hh).
  assert (Hk : contains kind e' = contains kind e).
  { apply (same_frame_contains e e'); [done|..];
      intros ->; unfold node_kinds in Hkind; set_solver. }
  rewrite Hk. destruct (contains kind e) eqn:Hke; [|done]. simpl.
  destruct (contains B e) eqn:HBe.
  - destruct Hp as (e1 & He1 & ->).
    assert (contains B e1 = true) as ->.
    { apply contains_true. apply contains_true in HBe.
      destruct (contains "HEADElem" e).
      - apply revert_elem_frame in He1 as [_ Hcl]. apply Hcl. by right.
      - by subst. }
    apply (apply_elem_decorated w w' e1 kind); [done..|].
    destruct (contains "HEADElem" e) eqn:Hhe; [|by subst].
    apply revert_elem_frame in He1 as [Hf1 _].
    rewrite (same_frame_contains e e1); [done..| |];
      intros ->; unfold node_kinds in Hkind; set_solver.
  - unfold decorated.
    rewrite (proj2 (contains_false "HEADElem" e')); [done|].
    apply contains_false in HBe. tauto.
Qed.

(** ** The scene that the script builds *)

Lemma mapM_elem_of {A B} (f : A → option B) (l : list A) (k : list B) y :
  mapM f l = Some k → y ∈ k → ∃ x, x ∈ l ∧ f x = Some y.
Proof.
  intros Hm%mapM_Some Hy. apply list_elem_of_lookup in Hy as [i Hi].
  destruct (Forall2_lookup_r _ _ _ _ _ Hm Hi) as (x & Hx & Hfx).
  exists x. split; [|done]. by eapply list_elem_of_lookup_2.
Qed.

Lemma node_classes_elem HEAD0 id kind c :
  c ∈ node_classes HEAD0 id kind ↔ c = head_flag HEAD0 id ∨ c = id ∨ c = kind.
Proof. unfold node_classes, head_flag. set_solver. Qed.

Lemma tag_classes_elem HEAD0 id kind c :
  c ∈ tag_classes HEAD0 id kind ↔ c = head_flag HEAD0 id ∨ c = id ∨ c = kind.
Proof. unfold tag_classes, head_flag. set_solver. Qed.

Lemma static_scene_elem HEAD0 nodes pos tag classes :
  (∀ c, c ∈ classes →
        c ∈ [ "container"; "left"; "right"; "textGroup"; "headGroup";
              "dateGroup" ]) →
  scene_elem HEAD0 nodes pos (static tag classes).
Proof. intros Hc. left. split_and!; [by left|done|done]. Qed.

Lemma scene_elems pos max_h HEAD0 data nodes links elems e :
  scene pos max_h HEAD0 data nodes links = Some elems → e ∈ elems →
  scene_elem HEAD0 nodes pos e.
Proof.
  intros Hs He.
  apply scene_Some_inv in Hs
    as (lines & circles & messages & borders & tags & dates
        & Hl & Hc & Hm & Hb & Ht & Hd & ->).
  assert (Hnode : ∀ (f : string → option Elem) seg kind,
    mapM f nodes = Some seg → e ∈ seg → kind ∈ node_kinds →
    (∀ id e', f id = Some e' → is_Some (pos !! id) ∧ datum e' = DNode id ∧
       ∀ c, c ∈ classList e' ↔ c = head_flag HEAD0 id ∨ c = id ∨ c = kind) →
    scene_elem HEAD0 nodes pos e).
  { intros f seg kind Hf Hin Hkind Hshape.
    destruct (mapM_elem_of _ _ _ _ Hf Hin) as (id & Hid & Hfe).
    destruct (Hshape _ _ Hfe) as (Hp & Hdat & Hcl).
    right. left. by exists id, kind. }
  repeat (apply elem_of_app in He as [He|He]).
  - repeat (apply elem_of_cons in He as [->|He]);
      [apply static_scene_elem; set_solver..|by apply elem_of_nil in He].
  - destruct (mapM_elem_of _ _ _ _ Hl He) as (l & _ & Hle).
    unfold line_elem in Hle.
    apply bind_Some in Hle as (ps & _ & Hle).
    apply bind_Some in Hle as (pt & _ & [= <-]).
    left. simpl. split_and!; [right; eauto|done|].
    intros c Hc'. by apply elem_of_nil in Hc'.
  - apply list_elem_of_singleton in He as ->. apply static_scene_elem. set_solver.
  - apply (Hnode _ _ "circle" Hc He); [unfold node_kinds; set_solver|].
    intros id e' Hfe. unfold circle_elem in Hfe.
    apply bind_Some in Hfe as (p & Hp & [= <-]). simpl.
    split_and!; [eauto|done|]. intros c. apply node_classes_elem.
  - apply list_elem_of_singleton in He as ->. apply static_scene_elem. set_solver.
  - apply (Hnode _ _ "commitHash" Hm He); [unfold node_kinds; set_solver|].
    intros id e' Hfe. unfold message_elem in Hfe.
    apply bind_Some in Hfe as (p & Hp & Hfe).
    apply bind_Some in Hfe as (d & _ & [= <-]). simpl.
    split_and!; [eauto|done|]. intros c. apply node_classes_elem.
  - apply list_elem_of_singleton in He as ->. apply static_scene_elem. set_solver.
  - apply (Hnode _ _ "HEADBorder" Hb He); [unfold node_kinds; set_solver|].
    intros id e' Hfe. unfold border_elem in Hfe.
    apply bind_Some in Hfe as (p & Hp & [= <-]). simpl.
    split_and!; [eauto|done|]. intros c. apply tag_classes_elem.
  - apply (Hnode _ _ "HEADText" Ht He); [unfold node_kinds; set_solver|].
    intros id e' Hfe. unfold tag_elem in Hfe.
    apply bind_Some in Hfe as (p & Hp & [= <-]). simpl.
    split_and!; [eauto|done|]. intros c. apply tag_classes_elem.
  - apply list_elem_of_singleton in He as ->. apply static_scene_elem. set_solver.
  - destruct (mapM_elem_of _ _ _ _ Hd He) as (id & Hid & Hfe).
    unfold date_elem in Hfe.
    apply bind_Some in Hfe as (p & Hp & Hfe).
    apply bind_Some in Hfe as (d & _ & [= <-]).
    right. right. by exists id.
  - apply list_elem_of_singleton in He as ->. apply static_scene_elem. set_solver.
Qed.

Lemma scene_elem_tag HEAD0 nodes pos e h :
  scene_elem HEAD0 nodes pos e →
  Forall (λ id, is_hash id = true) nodes → is_hash h = true →
  h ∈ classList e →
  h ∈ nodes ∧ is_Some (pos !! h) ∧ datum e = DNode h.
Proof.
  intros [(_ & _ & Hcl)|[(id & kind & Hid & Hp & Hd & Hk & Hcl)|(id & _ & _ & _ & Hcl)]]
         Hnodes Hh Hin.
  - exfalso. apply (is_hash_not_reserved h Hh). apply Hcl in Hin. set_solver.
  - apply Hcl in Hin as [->|[->| ->]]; [ |done| ].
    + exfalso. apply (is_hash_not_reserved _ Hh).
      unfold head_flag. case_bool_decide; set_solver.
    + exfalso. apply (is_hash_not_reserved _ Hh).
      unfold node_kinds in Hk. set_solver.
  - rewrite Hcl in Hin. by apply elem_of_nil in Hin.
Qed.

Lemma scene_elem_head HEAD0 nodes pos e :
  scene_elem HEAD0 nodes pos e →
  Forall (λ id, is_hash id = true) nodes → is_hash HEAD0 = true →
  ("HEADElem" ∈ classList e ↔ HEAD0 ∈ classList e).
Proof.
  intros [(_ & _ & Hcl)|[(id & kind & Hid & Hp & Hd & Hk & Hcl)|(id & _ & _ & _ & Hcl)]]
         Hnodes Hh.
  - split; intros Hin; apply Hcl in Hin; exfalso.
    + set_solver.
    + apply (is_hash_not_reserved _ Hh). set_solver.
  - rewrite Forall_forall in Hnodes. pose proof (Hnodes _ Hid) as Hidh.
    pose proof (is_hash_not_reserved _ Hidh) as Hid'.
    pose proof (is_hash_not_reserved _ Hh) as Hh'.
    rewrite !Hcl. unfold head_flag, node_kinds in *.
    case_bool_decide; set_solver.
  - rewrite Hcl. split; intros Hin; by apply elem_of_nil in Hin.
Qed.

Lemma scene_elem_node HEAD0 nodes pos e id :
  scene_elem HEAD0 nodes pos e → datum e = DNode id → listens e = true →
  id ∈ nodes.
Proof.
  intros [([Hd|(s & t & Hd)] & Hl & _)|[(id' & kind & Hid & _ & Hd & _)|(id' & _ & _ & Hl & _)]]
         Hdat Hlis; congruence.
Qed.

(** ** The nodes tagged with a hash *)

Lemma omap_tagged_none kind B (es : list Elem) :
  Forall (λ e, tagged_node kind B e = None) es →
  omap (tagged_node kind B) es = [].
Proof.
  induction 1 as [|e es He _ IH]; [done|]. simpl. by rewrite He.
Qed.

Lemma omap_one (nodes : list string) B :
  NoDup nodes → B ∈ nodes →
  omap (λ id, if bool_decide (id = B) then Some id else None) nodes = [B].
Proof.
  induction nodes as [|n nodes IH]; intros Hnd Hin; [by apply elem_of_nil in Hin|].
  apply NoDup_cons in Hnd as [Hn Hnd]. simpl.
  case_bool_decide as Hnb.
  - subst n. f_equal. clear IH Hin Hnd.
    induction nodes as [|n nodes IH]; [done|]. simpl.
    apply not_elem_of_cons in Hn as [Hne Hn].
    rewrite bool_decide_eq_false_2 by done. by apply IH.
  - apply IH; [done|]. by apply elem_of_cons in Hin as [->|?].
Qed.

(** The elements that one of the four loops of the script draws for the
    nodes: those of class [kind] tagged [B] are the one drawn for [B], when
    the loop draws that kind, and none otherwise. *)
Lemma omap_segment (f : string → option Elem) nodes seg k kind B HEAD0 :
  mapM f nodes = Some seg →
  (∀ id e, f id = Some e → datum e = DNode id ∧
     ∀ c, c ∈ classList e ↔ c = head_flag HEAD0 id ∨ c = id ∨ c = k) →
  Forall (λ id, is_hash id = true) nodes → is_hash B = true →
  k ∈ node_kinds → kind ∈ node_kinds →
  omap (tagged_node kind B) seg =
  if bool_decide (k = kind)
  then omap (λ id, if bool_decide (id = B) then Some id else None) nodes
  else [].
Proof.
  intros Hm%mapM_Some Hshape Hnodes HB Hk Hkind.
  induction Hm as [|id e nodes seg Hfe _ IH].
  { simpl. by case_bool_decide. }
  apply Forall_cons in Hnodes as [Hid Hnodes]. specialize (IH Hnodes).
  destruct (Hshape _ _ Hfe) as [Hd Hcl]. simpl.
  change (list_omap Elem string (tagged_node kind B) seg)
    with (omap (tagged_node kind B) seg).
  rewrite IH. unfold tagged_node at 1. rewrite Hd.
  assert (Hck : contains kind e = bool_decide (k = kind)).
  { unfold contains. apply bool_decide_ext. rewrite Hcl. split; [|by auto].
    intros [Hc|[Hc|Hc]]; [| |done].
    - by apply kind_not_flag in Hc.
    - symmetry in Hc. by apply hash_not_kind in Hc.
  }
  assert (HcB : contains B e = bool_decide (id = B)).
  { unfold contains. apply bool_decide_ext. rewrite Hcl. split; [|by auto].
    intros [Hc|[Hc|Hc]]; [|done|].
    - by apply hash_not_flag in Hc.
    - by apply hash_not_kind in Hc. }
  rewrite Hck, HcB. by repeat case_bool_decide.
Qed.

Lemma omap_Forall2_ext {A B C} (R : A → B → Prop) (f : B → option C)
    (g : A → option C) (l : list A) (l' : list B) :
  Forall2 R l l' → (∀ x y, R x y → f y = g x) → omap f l' = omap g l.
Proof.
  intros HR Hfg. induction HR as [|x y l l' Hxy _ IH]; [done|].
  simpl. rewrite (Hfg x y Hxy).
  change (list_omap B C f l') with (omap f l').
  change (list_omap A C g l) with (omap g l). by rewrite IH.
Qed.

Lemma tagged_node_frame kind B e e' :
  kind ∈ node_kinds → is_hash B = true → same_frame e e' →
  tagged_node kind B e' = tagged_node kind B e.
Proof.
  intros Hk HB Hf. unfold tagged_node.
  destruct Hf as (_ & -> & _ & _ & Hcl & _).
  rewrite (contains_ext kind e e'), (contains_ext B e e'); [done|..].
  - apply Hcl; intros ->; by vm_compute in HB.
  - apply Hcl; intros ->; unfold node_kinds in Hk; set_solver.
Qed.

(** On the page that the script builds, the elements of one kind tagged
    with the hash of a node are the one element drawn for that node. *)
Lemma scene_tagged_nodes pos max_h HEAD0 data nodes links elems kind B :
  scene pos max_h HEAD0 data nodes links = Some elems →
  Forall (λ id, is_hash id = true) nodes → is_hash B = true →
  kind ∈ node_kinds →
  omap (tagged_node kind B) elems =
  omap (λ id, if bool_decide (id = B) then Some id else None) nodes.
Proof.
  intros Hs Hnodes HBh Hkind.
  apply scene_Some_inv in Hs
    as (lines & circles & messages & borders & tags & dates
        & Hl & Hc & Hm & Hb & Ht & Hd & ->).
  assert (Hlines : omap (tagged_node kind B) lines = []).
  { apply omap_tagged_none, Forall_forall. intros e He.
    destruct (mapM_elem_of _ _ _ _ Hl He) as (l & _ & Hle).
    unfold line_elem in Hle.
    apply bind_Some in Hle as (ps & _ & Hle).
    by apply bind_Some in Hle as (pt & _ & [= <-]). }
  assert (Hdates : omap (tagged_node kind B) dates = []).
  { apply omap_tagged_none, Forall_forall. intros e He.
    destruct (mapM_elem_of _ _ _ _ Hd He) as (id & _ & Hfe).
    unfold date_elem in Hfe.
    apply bind_Some in Hfe as (p & _ & Hfe).
    apply bind_Some in Hfe as (d & _ & [= <-]).
    unfold tagged_node, contains. by simpl. }
  assert (Hcircles := omap_segment _ _ _ "circle" kind B HEAD0 Hc).
  assert (Hmessages := omap_segment _ _ _ "commitHash" kind B HEAD0 Hm).
  assert (Hborders := omap_segment _ _ _ "HEADBorder" kind B HEAD0 Hb).
  assert (Htags := omap_segment _ _ _ "HEADText" kind B HEAD0 Ht).
  rewrite !omap_app, Hlines, Hdates.
  rewrite Hcircles; [|clear Hcircles Hmessages Hborders Htags..].
  rewrite Hmessages; [|clear Hmessages Hborders Htags..].
  rewrite Hborders; [|clear Hborders Htags..].
  rewrite Htags; [|clear Htags..].
  - unfold node_kinds in Hkind. simpl.
    repeat (apply elem_of_cons in Hkind as [->|Hkind];
            [simpl; by rewrite ?app_nil_r|]).
    by apply elem_of_nil in Hkind.
  - intros id e Hfe. unfold tag_elem in Hfe.
    apply bind_Some in Hfe as (p & _ & [= <-]). simpl.
    split; [reflexivity|]. intros c. apply tag_classes_elem.
  - exact Hnodes.
  - exact HBh.
  - unfold node_kinds. do 3 right. left.
  - exact Hkind.
  - intros id e Hfe. unfold border_elem in Hfe.
    apply bind_Some in Hfe as (p & _ & [= <-]). simpl.
    split; [reflexivity|]. intros c. apply tag_classes_elem.
  - exact Hnodes.
  - exact HBh.
  - unfold node_kinds. do 2 right. left.
  - exact Hkind.
  - intros id e Hfe. unfold message_elem in Hfe.
    apply bind_Some in Hfe as (p & _ & Hfe).
    apply bind_Some in Hfe as (d & _ & [= <-]). simpl.
    split; [reflexivity|]. intros c. apply node_classes_elem.
  - exact Hnodes.
  - exact HBh.
  - unfold node_kinds. right. left.
  - exact Hkind.
  - intros id e Hfe. unfold circle_elem in Hfe.
    apply bind_Some in Hfe as (p & _ & [= <-]). simpl.
    split; [reflexivity|]. intros c. apply node_classes_elem.
  - exact Hnodes.
  - exact HBh.
  - unfold node_kinds. left.
  - exact Hkind.
Qed.

Lemma scene_tagged pos max_h HEAD0 data nodes links elems kind B :
  scene pos max_h HEAD0 data nodes links = Some elems →
  Forall (λ id, is_hash id = true) nodes → NoDup nodes → B ∈ nodes →
  kind ∈ node_kinds →
  omap (tagged_node kind B) elems = [B].
Proof.
  intros Hs Hnodes Hnd HB Hkind.
  assert (HBh : is_hash B = true) by (rewrite Forall_forall in Hnodes; auto).
  rewrite (scene_tagged_nodes _ _ _ _ _ _ _ _ _ Hs Hnodes HBh Hkind).
  by apply omap_one.
Qed.

(** ** The states of a page *)

Section Page.

Variable commitGraph : list Entry.
Variable HEAD0 : string.
Variable commitsData : list CommitData.
Variable w0 : Webview.
Hypothesis rendered :
  getGraphWebviewContent commitGraph HEAD0 commitsData = Some w0.
Hypothesis hashes : Forall (λ c, is_hash (e_hash c) = true) commitGraph.
Hypothesis head_hash : is_hash HEAD0 = true.

Local Abbreviation nodes := (e_hash <$> commitGraphString w0).

Lemma nodes_hashes : Forall (λ id, is_hash id = true) nodes.
Proof.
  destruct (render_Some_inv _ _ _ _ rendered) as (_ & _ & _ & _ & _ & -> & _).
  apply Forall_fmap, Forall_reverse. by eapply Forall_impl.
Qed.

Lemma nodes_NoDup : NoDup (e_hash <$> commitGraph) → NoDup nodes.
Proof.
  destruct (render_Some_inv _ _ _ _ rendered) as (_ & _ & _ & _ & _ & -> & _).
  by rewrite fmap_reverse, reverse_Permutation.
Qed.

Lemma doc_scene e :
  e ∈ doc w0 → scene_elem HEAD0 nodes (positions w0) e.
Proof.
  destruct (render_Some_inv _ _ _ _ rendered)
    as (links & _ & Hs & _ & _ & -> & _).
  intros He. by eapply scene_elems.
Qed.

Lemma doc_tagged kind B :
  NoDup (e_hash <$> commitGraph) → B ∈ nodes → kind ∈ node_kinds →
  omap (tagged_node kind B) (doc w0) = [B].
Proof.
  intros Hnd HB Hk. pose proof (nodes_NoDup Hnd) as Hnd'.
  pose proof nodes_hashes as Hh. revert Hnd' Hh HB.
  destruct (render_Some_inv _ _ _ _ rendered)
    as (links & _ & Hs & _ & _ & -> & _).
  intros Hnd' Hh HB. by eapply scene_tagged.
Qed.

Lemma page_ok_init : page_ok w0 w0.
Proof.
  destruct (render_Some_inv _ _ _ _ rendered)
    as (links & _ & _ & _ & _ & _ & _ & HH & Hp & _).
  split_and!; try done.
  - apply Forall2_same_frame_refl.
  - intros e He. rewrite HH.
    eapply scene_elem_head; [by apply doc_scene|apply nodes_hashes|done].
  - by rewrite HH.
  - intros m Hm. rewrite Hp in Hm. by apply elem_of_nil in Hm.
Qed.

Lemma page_ok_origin w e :
  page_ok w0 w → e ∈ doc w → ∃ e0, e0 ∈ doc w0 ∧ same_frame e0 e.
Proof.
  intros (Hf & _) He. apply list_elem_of_lookup in He as [i Hi].
  destruct (Forall2_lookup_r _ _ _ _ _ Hf Hi) as (e0 & He0 & Hfe).
  exists e0. split; [by eapply list_elem_of_lookup_2|done].
Qed.

(** An element of a page tagged with a hash is drawn for the node of that
    hash, which has a position. *)
Lemma page_ok_tag w e h :
  page_ok w0 w → e ∈ doc w → is_hash h = true → h ∈ classList e →
  h ∈ nodes ∧ is_Some (positions w !! h) ∧ datum e = DNode h.
Proof.
  intros Hok He Hh Hin.
  destruct (page_ok_origin w e Hok He) as (e0 & He0 & Hf).
  destruct Hok as (_ & -> & _).
  destruct (scene_elem_tag HEAD0 nodes (positions w0) e0 h)
    as (Hn & Hp & Hd); [by apply doc_scene|apply nodes_hashes|done| |].
  - destruct Hf as (_ & _ & _ & _ & Hcl & _).
    apply Hcl; [| |done]; intros ->; by vm_compute in Hh.
  - split_and!; [done..|]. destruct Hf as (_ & -> & _). done.
Qed.

(** The listener never throws on a page. *)
Lemma page_ok_handles w m :
  page_ok w0 w → ∃ w', on_message m w = Handled w'.
Proof.
  intros Hok. apply on_message_handles. intros e He Hh _.
  pose proof Hok as (_ & _ & _ & _ & _ & Hj & HH & _).
  apply contains_true, (Hj e He) in Hh.
  by destruct (page_ok_tag w e (HEAD w) Hok He HH Hh) as (_ & ? & _).
Qed.

Lemma page_ok_message w m w' :
  page_ok w0 w → m ∈ posted w → on_message m w = Handled w' →
  page_ok w0 w'.
Proof.
  intros Hok Hm Hw'.
  pose proof Hok as (Hf & Hp & Hmh & Hg & Hd & Hj & HH & Hposted).
  destruct (Hposted m Hm) as [Hc Hn].
  assert (HB : is_hash (commitHash m) = true).
  { pose proof nodes_hashes as Hall. rewrite Forall_forall in Hall. auto. }
  apply on_message_Handled_inv in Hw'
    as (Hpatch & HH' & Hp' & Hmh' & Hg' & Hd' & Hpo' & _); [|done].
  assert (HB1 : commitHash m ≠ "HEADElem") by (intros E; rewrite E in HB; done).
  assert (HB2 : commitHash m ≠ "usualElem") by (intros E; rewrite E in HB; done).
  split_and!; try congruence.
  - eapply Forall2_same_frame_trans; [done|].
    eapply Forall2_impl; [done|]. intros e e' Hpe.
    by destruct (patched_frame _ _ _ _ HB1 HB2 Hpe).
  - intros e' He'. rewrite HH'.
    apply list_elem_of_lookup in He' as [i Hi].
    destruct (Forall2_lookup_r _ _ _ _ _ Hpatch Hi) as (e & _ & Hpe).
    destruct (patched_frame _ _ _ _ HB1 HB2 Hpe) as (_ & H1 & H2).
    by rewrite H1, H2.
  - by rewrite Hpo'.
Qed.

Lemma page_ok_dblclick w i : page_ok w0 w → page_ok w0 (on_dblclick i w).
Proof.
  intros Hok. unfold on_dblclick.
  destruct (doc w !! i) as [e|] eqn:Hi; [|done].
  destruct (listens e) eqn:Hl; [|done].
  destruct (datum e) as [|id|] eqn:Hd; try done.
  pose proof Hok as (Hf & Hp & Hmh & Hg & Hda & Hj & HH & Hposted).
  split_and!; try done. simpl.
  intros m [Hm| ->%list_elem_of_singleton]%elem_of_app; [by apply Hposted|].
  split; [done|]. simpl.
  destruct (page_ok_origin w e Hok) as (e0 & He0 & Hfe);
    [by eapply list_elem_of_lookup_2|].
  destruct Hfe as (_ & Hd0 & Hl0 & _).
  eapply scene_elem_node; [by apply doc_scene|congruence..].
Qed.

Lemma page_ok_click w i : page_ok w0 w → page_ok w0 (on_click i w).
Proof.
  intros Hok. unfold on_click.
  destruct (doc w !! i) as [e|]; [|done].
  destruct (listens e); [|done].
  destruct (datum e) as [|id|]; try done.
  by destruct (find_data (commitsDateString w) id).
Qed.

Lemma reachable_ok w : reachable w0 w → page_ok w0 w.
Proof.
  induction 1 as [|i w _ IH|i w _ IH|m w w' _ IH Hm Hw'].
  - apply page_ok_init.
  - by apply page_ok_dblclick.
  - by apply page_ok_click.
  - by eapply page_ok_message.
Qed.

(** After the listener has handled the answer to a request of the page,
    the elements of each kind that show the HEAD decoration are the one
    drawn for the requested commit. *)
Lemma page_ok_head_nodes w m w' kind :
  NoDup (e_hash <$> commitGraph) →
  page_ok w0 w → m ∈ posted w → on_message m w = Handled w' →
  kind ∈ node_kinds →
  head_nodes kind w' = [commitHash m].
Proof.
  intros Hnd Hok Hm Hw' Hkind.
  pose proof Hok as (Hf & _ & _ & _ & _ & _ & _ & Hposted).
  destruct (Hposted m Hm) as [Hc Hn].
  assert (HB : is_hash (commitHash m) = true).
  { pose proof nodes_hashes as Hall. rewrite Forall_forall in Hall. auto. }
  assert (HB1 : commitHash m ≠ "HEADElem") by (intros E; rewrite E in HB; done).
  assert (HB2 : commitHash m ≠ "usualElem") by (intros E; rewrite E in HB; done).
  apply on_message_Handled_inv in Hw'
    as (Hpatch & _ & _ & Hmh' & _); [|done].
  unfold head_nodes.
  rewrite (omap_Forall2_ext (patched w (commitHash m)) _
             (tagged_node kind (commitHash m)) (doc w) (doc w') Hpatch).
  - rewrite (omap_Forall2_ext same_frame _
               (tagged_node kind (commitHash m)) (doc w0) (doc w) Hf).
    + by apply doc_tagged.
    + intros e0 e Hfe. by apply tagged_node_frame.
  - intros e e' Hpe. unfold tagged_node.
    destruct (patched_frame _ _ _ _ HB1 HB2 Hpe) as ((_ & -> & _) & _ & _).
    destruct (datum e); try done.
    by rewrite (patched_decorated w w' (commitHash m) kind e e').
Qed.

End Page.

(** ** Checkouts *)

Lemma on_dblclick_listening w (i : nat) e id :
  doc w !! i = Some e → listens e = true → datum e = DNode id →
  posted (on_dblclick i w) = posted w ++ [ mkMsg "gitCheckout" id ] ∧
  HEAD (on_dblclick i w) = HEAD w ∧ doc (on_dblclick i w) = doc w ∧
  positions (on_dblclick i w) = positions w.
Proof.
  intros He Hl Hd. unfold on_dblclick. by rewrite He, Hl, Hd.
Qed.

(** The circle of [b] on the page of the merge history. *)
Lemma merge_page_circle_b w0 :
  merge_page = Some w0 →
  posted w0 = [] ∧
  ∃ e, doc w0 !! 10%nat = Some e ∧ listens e = true ∧ datum e = DNode "b".
Proof.
  intros Hw.
  assert (Hc : (λ w, (posted w, listens <$> doc w !! 10%nat,
                      datum <$> doc w !! 10%nat)) <$> merge_page
               = Some ([], Some true, Some (DNode "b"))).
  { vm_compute. reflexivity. }
  rewrite Hw in Hc. simpl in Hc. injection Hc as Hp Hl Hd.
  split; [done|]. destruct (doc w0 !! 10%nat) as [e|]; [|done].
  simpl in Hl, Hd. exists e. split; [done|]. split; congruence.
Qed.

Lemma merge_graph_hashes :
  Forall (λ c, is_hash (e_hash c) = true) merge_graph ∧
  NoDup (e_hash <$> merge_graph) ∧ is_hash "d" = true.
Proof.
  split_and!; [|apply (bool_decide_unpack _); vm_compute; exact I|reflexivity].
  repeat constructor.
Qed.

(** C7: on a page built by the script, the patch that the listener applies
    when the extension answers a checkout request of the page leaves the
    positions, the layout with its heights and the maximal height as they
    are; every element keeps its tag, datum, handlers and attributes except
    its HEAD decoration (the fill of a circle, the x of a commit message,
    the width and height of a border, the text of a HEAD tag, the class
    tokens HEADElem and usualElem); and an element tagged with neither the
    old nor the new HEAD hash does not change at all. *)
Theorem checkout_patch_frame commitGraph HEAD0 commitsData w0 w m w' :
  getGraphWebviewContent commitGraph HEAD0 commitsData = Some w0 →
  Forall (λ c, is_hash (e_hash c) = true) commitGraph →
  is_hash HEAD0 = true →
  reachable w0 w → m ∈ posted w → on_message m w = Handled w' →
  positions w' = positions w ∧
  commitGraphString w' = commitGraphString w ∧
  max_height w' = max_height w ∧
  Forall2 same_frame (doc w) (doc w') ∧
  (∀ (i : nat) e e', doc w !! i = Some e → doc w' !! i = Some e' →
     HEAD w ∉ classList e → commitHash m ∉ classList e → e' = e).
Proof.
  intros Hr Hh HH Hreach Hm Hw'.
  pose proof (reachable_ok _ _ _ _ Hr Hh HH w Hreach) as Hok.
  pose proof Hok as (_ & _ & _ & _ & _ & Hj & _ & Hposted).
  destruct (Hposted m Hm) as [Hc Hn].
  assert (HB : is_hash (commitHash m) = true).
  { pose proof (nodes_hashes _ _ _ _ Hr Hh) as Hall.
    rewrite Forall_forall in Hall. auto. }
  assert (HB1 : commitHash m ≠ "HEADElem") by (intros E; rewrite E in HB; done).
  assert (HB2 : commitHash m ≠ "usualElem") by (intros E; rewrite E in HB; done).
  apply on_message_Handled_inv in Hw'
    as (Hpatch & _ & Hp' & Hmh' & Hg' & _); [|done].
  split_and!; [done..| |].
  - eapply Forall2_impl; [done|]. intros e e' Hpe.
    by destruct (patched_frame _ _ _ _ HB1 HB2 Hpe).
  - intros i e e' Hi Hi' Hold Hnew.
    destruct (Forall2_lookup_l _ _ _ _ _ Hpatch Hi) as (e'' & Hi'' & Hpe).
    assert (e'' = e') as -> by congruence.
    eapply patched_untouched; [|done..].
    apply Hj. by eapply list_elem_of_lookup_2.
Qed.

Lemma checkout_patch_frame_witness :
  is_Some merge_page ∧
  ∀ w0, merge_page = Some w0 →
    ∃ w', on_message (mkMsg "gitCheckout" "b") (on_dblclick 10 w0) = Handled w' ∧
          positions w' = positions (on_dblclick 10 w0) ∧
          Forall2 same_frame (doc (on_dblclick 10 w0)) (doc w').
Proof.
  split.
  { apply (bool_decide_unpack _). vm_compute. exact I. }
  intros w0 Hw0.
  destruct merge_graph_hashes as (Hh & Hnd & HH).
  destruct (merge_page_circle_b w0 Hw0) as (Hp & e & He & Hl & Hd).
  destruct (on_dblclick_listening w0 10 e "b" He Hl Hd) as (Hp1 & _).
  assert (Hreach : reachable w0 (on_dblclick 10 w0)).
  { apply reach_dblclick, reach_init. }
  destruct (page_ok_handles _ _ _ _ Hw0 Hh (on_dblclick 10 w0)
              (mkMsg "gitCheckout" "b")) as [w' Hw'].
  { by apply (reachable_ok _ _ _ _ Hw0 Hh HH). }
  exists w'. split; [exact Hw'|].
  destruct (checkout_patch_frame merge_graph "d" merge_data w0
              (on_dblclick 10 w0) (mkMsg "gitCheckout" "b") w'
              Hw0 Hh HH Hreach) as (H1 & _ & _ & H4 & _).
  - rewrite Hp1, Hp. by left.
  - exact Hw'.
  - by split.
Defined.

(** The round trip on the page of the merge history, computed: HEAD moves
    from [d] to [b] and the circles that show the decoration go from the one
    of [d] to the one of [b]. *)
Example merge_page_round_trip :
  (λ w, (HEAD w, head_nodes "circle" w)) <$> merge_page
    = Some ("d", ["d"]) ∧
  (λ w, match checkout_round_trip (λ _, None) 10 w with
        | (Handled w', shown) =>
            Some (HEAD w', head_nodes "circle" w', head_nodes "HEADText" w',
                  shown)
        | _ => None
        end) <$> merge_page
    = Some (Some ("b", ["b"], ["b"], None)) ∧
  (λ w, match checkout_round_trip (λ _, Some "dirty tree") 10 w with
        | (Handled w', shown) =>
            Some (HEAD w', head_nodes "circle" w', shown)
        | _ => None
        end) <$> merge_page
    = Some (Some ("d", ["d"], Some "dirty tree")).
Proof. split_and!; vm_compute; reflexivity. Qed.

(** * Further properties of the webview *)

(** ** The listener is safe on every state of a page *)

(** On a page built by the script for hexadecimal hashes, the listener
    never throws, whatever message it receives and whatever double clicks,
    clicks and answers came before: [positions[HEAD]] is defined whenever
    the first loop reads it. *)
Theorem listener_never_throws commitGraph HEAD0 commitsData w0 w m :
  getGraphWebviewContent commitGraph HEAD0 commitsData = Some w0 →
  Forall (λ c, is_hash (e_hash c) = true) commitGraph →
  is_hash HEAD0 = true →
  reachable w0 w →
  ∃ w', on_message m w = Handled w'.
Proof.
  intros Hr Hh HH Hreach.
  eapply page_ok_handles; [done..|]. by eapply reachable_ok.
Qed.

Lemma listener_never_throws_witness :
  is_Some merge_page ∧
  ∀ w0, merge_page = Some w0 →
    ∃ w', on_message (mkMsg "gitCheckout" "c") (on_click 9 (on_dblclick 10 w0))
          = Handled w'.
Proof.
  split.
  { apply (bool_decide_unpack _). vm_compute. exact I. }
  intros w0 Hw0. destruct merge_graph_hashes as (Hh & Hnd & HH).
  apply (listener_never_throws merge_graph "d" merge_data w0 _ _ Hw0 Hh HH).
  apply reach_click, reach_dblclick, reach_init.
Defined.

(** ** The decoration of the elements tagged with HEAD *)

Lemma head_flag_self HEAD0 : head_flag HEAD0 HEAD0 = "HEADElem".
Proof. unfold head_flag. by rewrite bool_decide_eq_true_2. Qed.

(** [c] is a class of an element drawn for a node, or is not. *)
Ltac class_true c :=
  match goal with
  | |- context [bool_decide (c ∈ ?l)] =>
      rewrite (bool_decide_eq_true_2 (c ∈ l))
        by (first [apply node_classes_elem | apply tag_classes_elem];
            rewrite ?head_flag_self; auto)
  end.

Ltac class_false c HH :=
  match goal with
  | |- context [bool_decide (c ∈ ?l)] =>
      rewrite (bool_decide_eq_false_2 (c ∈ l))
        by (first [rewrite node_classes_elem | rewrite tag_classes_elem];
            let Hx := fresh "Hx" in
            intros [Hx|[Hx|Hx]];
            [unfold head_flag in Hx; by case_bool_decide
            |rewrite <- Hx in HH; by vm_compute in HH
            |done])
  end.

Lemma circle_elem_shown pos HEAD0 e w :
  is_hash HEAD0 = true → circle_elem pos HEAD0 HEAD0 = Some e →
  decorated w e = true.
Proof.
  intros HH Hfe. unfold circle_elem in Hfe.
  apply bind_Some in Hfe as (p & _ & [= <-]). unfold decorated, contains.
  cbn [classList]. class_true "HEADElem".
  class_true "circle".
  simpl. rewrite (bool_decide_eq_true_2 (HEAD0 = HEAD0)) by done. simpl.
  by rewrite lookup_insert_eq, bool_decide_eq_true_2.
Qed.

Lemma message_elem_shown pos max_h HEAD0 data e w :
  is_hash HEAD0 = true → max_height w = max_h →
  message_elem pos max_h HEAD0 data HEAD0 = Some e →
  decorated w e = true.
Proof.
  intros HH Hmh Hfe. unfold message_elem in Hfe.
  apply bind_Some in Hfe as (p & _ & Hfe).
  apply bind_Some in Hfe as (d & _ & [= <-]). unfold decorated, contains.
  cbn [classList]. class_true "HEADElem".
  class_false "circle" HH.
  class_true "commitHash".
  simpl. rewrite (bool_decide_eq_true_2 (HEAD0 = HEAD0)) by done.
  by rewrite lookup_insert_eq, Hmh, bool_decide_eq_true_2.
Qed.

Lemma border_elem_shown pos max_h HEAD0 e w :
  is_hash HEAD0 = true → border_elem pos max_h HEAD0 HEAD0 = Some e →
  decorated w e = true.
Proof.
  intros HH Hfe. unfold border_elem in Hfe.
  apply bind_Some in Hfe as (p & _ & [= <-]). unfold decorated, contains.
  cbn [classList]. class_true "HEADElem".
  class_false "circle" HH.
  class_false "commitHash" HH.
  class_true "HEADBorder".
  simpl. rewrite !(bool_decide_eq_true_2 (HEAD0 = HEAD0)) by done.
  apply andb_true_iff. split; apply bool_decide_eq_true; by simplify_map_eq.
Qed.

Lemma tag_elem_shown pos max_h HEAD0 e w :
  is_hash HEAD0 = true → tag_elem pos max_h HEAD0 HEAD0 = Some e →
  decorated w e = true.
Proof.
  intros HH Hfe. unfold tag_elem in Hfe.
  apply bind_Some in Hfe as (p & _ & [= <-]). unfold decorated, contains.
  cbn [classList]. class_true "HEADElem".
  class_false "circle" HH.
  class_false "commitHash" HH.
  class_false "HEADBorder" HH.
  class_true "HEADText".
  simpl. by rewrite !(bool_decide_eq_true_2 (HEAD0 = HEAD0)) by done.
Qed.

(** On the page that the script builds, the elements tagged with HEAD show
    the HEAD decoration. *)
Lemma scene_head_shown pos max_h HEAD0 data nodes links elems e w :
  scene pos max_h HEAD0 data nodes links = Some elems →
  Forall (λ id, is_hash id = true) nodes → is_hash HEAD0 = true →
  max_height w = max_h →
  e ∈ elems → HEAD0 ∈ classList e → decorated w e = true.
Proof.
  intros Hs Hnodes HH Hmh He Hin.
  pose proof (scene_elems _ _ _ _ _ _ _ _ Hs He) as Hshape.
  destruct (scene_elem_tag _ _ _ _ _ Hshape Hnodes HH Hin) as (Hn & _ & Hd).
  apply scene_Some_inv in Hs
    as (lines & circles & messages & borders & tags & dates
        & Hl & Hc & Hm & Hb & Ht & Hdt & ->).
  assert (Hnode : ∀ (f : string → option Elem) seg,
    mapM f nodes = Some seg → e ∈ seg →
    (∀ id e', f id = Some e' → datum e' = DNode id) →
    f HEAD0 = Some e).
  { intros f seg Hf Hin' Hdat.
    destruct (mapM_elem_of _ _ _ _ Hf Hin') as (id & _ & Hfe).
    pose proof (Hdat _ _ Hfe) as Hd'. rewrite Hd in Hd'. by injection Hd' as ->. }
  repeat (apply elem_of_app in He as [He|He]).
  - repeat (apply elem_of_cons in He as [->|He]); try (simpl in Hd; discriminate).
    by apply elem_of_nil in He.
  - destruct (mapM_elem_of _ _ _ _ Hl He) as (l & _ & Hle).
    unfold line_elem in Hle.
    apply bind_Some in Hle as (ps & _ & Hle).
    apply bind_Some in Hle as (pt & _ & [= <-]). simpl in Hd. discriminate.
  - apply list_elem_of_singleton in He as ->. simpl in Hd. discriminate.
  - eapply circle_elem_shown; [done|]. apply (Hnode _ _ Hc He).
    intros id e' Hfe. unfold circle_elem in Hfe.
    by apply bind_Some in Hfe as (p & _ & [= <-]).
  - apply list_elem_of_singleton in He as ->. simpl in Hd. discriminate.
  - eapply message_elem_shown; [done..|]. apply (Hnode _ _ Hm He).
    intros id e' Hfe. unfold message_elem in Hfe.
    apply bind_Some in Hfe as (p & _ & Hfe).
    by apply bind_Some in Hfe as (d & _ & [= <-]).
  - apply list_elem_of_singleton in He as ->. simpl in Hd. discriminate.
  - eapply border_elem_shown; [done|]. apply (Hnode _ _ Hb He).
    intros id e' Hfe. unfold border_elem in Hfe.
    by apply bind_Some in Hfe as (p & _ & [= <-]).
  - eapply tag_elem_shown; [done|]. apply (Hnode _ _ Ht He).
    intros id e' Hfe. unfold tag_elem in Hfe.
    by apply bind_Some in Hfe as (p & _ & [= <-]).
  - apply list_elem_of_singleton in He as ->. simpl in Hd. discriminate.
  - destruct (mapM_elem_of _ _ _ _ Hdt He) as (id & _ & Hfe).
    unfold date_elem in Hfe.
    apply bind_Some in Hfe as (p & _ & Hfe).
    apply bind_Some in Hfe as (d & _ & [= <-]). simpl in Hin.
    by apply elem_of_nil in Hin.
  - apply list_elem_of_singleton in He as ->. simpl in Hd. discriminate.
Qed.

Lemma omap_none (nodes : list string) B :
  B ∉ nodes →
  omap (λ id, if bool_decide (id = B) then Some id else None) nodes = [].
Proof.
  induction nodes as [|n nodes IH]; intros Hn; [done|].
  apply not_elem_of_cons in Hn as [Hne Hn]. simpl.
  rewrite bool_decide_eq_false_2 by done. by apply IH.
Qed.

Lemma omap_ext_in {A B} (f g : A → option B) (l : list A) :
  (∀ x, x ∈ l → f x = g x) → omap f l = omap g l.
Proof.
  induction l as [|x l IH]; intros H; [done|]. simpl.
  rewrite (H x) by (by left).
  change (list_omap A B f l) with (omap f l).
  change (list_omap A B g l) with (omap g l).
  rewrite IH; [done|]. intros y Hy. apply H. by right.
Qed.

Lemma on_dblclick_frame i w :
  doc (on_dblclick i w) = doc w ∧ HEAD (on_dblclick i w) = HEAD w ∧
  max_height (on_dblclick i w) = max_height w ∧
  positions (on_dblclick i w) = positions w ∧
  details (on_dblclick i w) = details w.
Proof.
  unfold on_dblclick. destruct (doc w !! i) as [e|]; [|done].
  destruct (listens e); [|done]. by destruct (datum e).
Qed.

Lemma on_click_frame i w :
  doc (on_click i w) = doc w ∧ HEAD (on_click i w) = HEAD w ∧
  max_height (on_click i w) = max_height w ∧
  positions (on_click i w) = positions w ∧
  posted (on_click i w) = posted w.
Proof.
  unfold on_click. destruct (doc w !! i) as [e|]; [|done].
  destruct (listens e); [|done]. destruct (datum e) as [|id|]; try done.
  by destruct (find_data (commitsDateString w) id).
Qed.

Lemma decorated_ext w w' e :
  max_height w' = max_height w → decorated w' e = decorated w e.
Proof. intros H. unfold decorated. by rewrite H. Qed.

Lemma reachable_shown commitGraph HEAD0 commitsData w0 w :
  getGraphWebviewContent commitGraph HEAD0 commitsData = Some w0 →
  Forall (λ c, is_hash (e_hash c) = true) commitGraph →
  is_hash HEAD0 = true →
  reachable w0 w → head_shown w.
Proof.
  intros Hr Hh HH Hreach.
  induction Hreach as [|i w Hreach IH|i w Hreach IH|m w w' Hreach IH Hm Hw'].
  - intros e kind He Hin Hk Hc.
    destruct (render_Some_inv _ _ _ _ Hr)
      as (links & _ & Hs & _ & _ & Hg & _ & HHw & _).
    rewrite HHw in Hin.
    eapply scene_head_shown; [exact Hs| |done|done|done|done].
    rewrite <- Hg. by eapply nodes_hashes.
  - destruct (on_dblclick_frame i w) as (Hd & HHw & Hmh & _).
    intros e kind He Hin Hk Hc. rewrite Hd in He. rewrite HHw in Hin.
    rewrite (decorated_ext w) by done. by eapply IH.
  - destruct (on_click_frame i w) as (Hd & HHw & Hmh & _).
    intros e kind He Hin Hk Hc. rewrite Hd in He. rewrite HHw in Hin.
    rewrite (decorated_ext w) by done. by eapply IH.
  - pose proof (reachable_ok _ _ _ _ Hr Hh HH w Hreach) as Hok.
    pose proof Hok as (_ & _ & _ & _ & _ & _ & _ & Hposted).
    destruct (Hposted m Hm) as [Hc Hn].
    assert (HB : is_hash (commitHash m) = true).
    { pose proof (nodes_hashes _ _ _ _ Hr Hh) as Hall.
      rewrite Forall_forall in Hall. auto. }
    assert (HB1 : commitHash m ≠ "HEADElem") by (intros E; rewrite E in HB; done).
    assert (HB2 : commitHash m ≠ "usualElem") by (intros E; rewrite E in HB; done).
    apply on_message_Handled_inv in Hw'
      as (Hpatch & HH' & _ & Hmh' & _); [|done].
    intros e' kind He' Hin Hk Hck. rewrite HH' in Hin.
    apply list_elem_of_lookup in He' as [j Hj].
    destruct (Forall2_lookup_r _ _ _ _ _ Hpatch Hj) as (e & _ & Hpe).
    pose proof (patched_decorated w w' _ kind e e' HB1 HB2 Hmh' Hk Hpe) as Hdec.
    destruct (patched_frame _ _ _ _ HB1 HB2 Hpe) as (Hf & HBe & _).
    rewrite Hck in Hdec. simpl in Hdec. rewrite Hdec.
    rewrite <- (same_frame_contains e e' kind Hf), Hck; simpl.
    + apply contains_true. by apply HBe.
    + intros ->. unfold node_kinds in Hk. set_solver.
    + intros ->. unfold node_kinds in Hk. set_solver.
Qed.

(** ** The width of the graph *)

Lemma foldl_max_height_ge (cs : list Entry) m :
  m ≤ foldl (λ m c, if bool_decide (e_height c > m) then e_height c else m) m cs.
Proof.
  revert m. induction cs as [|c cs IH]; intros m; simpl; [lia|].
  etrans; [|apply IH]. case_bool_decide; lia.
Qed.

Lemma foldl_max_height_upper (cs : list Entry) m c :
  c ∈ cs →
  e_height c ≤
  foldl (λ m c, if bool_decide (e_height c > m) then e_height c else m) m cs.
Proof.
  revert m. induction cs as [|c' cs IH]; intros m Hc; [by apply elem_of_nil in Hc|].
  simpl. apply elem_of_cons in Hc as [->|Hc]; [|by apply IH].
  etrans; [|apply foldl_max_height_ge]. case_bool_decide; lia.
Qed.

Lemma foldl_max_height_attained (cs : list Entry) m :
  let r := foldl (λ m c, if bool_decide (e_height c > m) then e_height c else m)
                 m cs in
  r = m ∨ ∃ c, c ∈ cs ∧ e_height c = r.
Proof.
  revert m. induction cs as [|c cs IH]; intros m; simpl; [by left|].
  destruct (IH (if bool_decide (e_height c > m) then e_height c else m))
    as [Heq|(c' & Hc' & Heq)].
  - simpl in Heq. rewrite Heq. case_bool_decide; [|by left].
    right. exists c. split; [by left|done].
  - right. exists c'. split; [by right|done].
Qed.

(** [max_height], the width of the graph in lanes, is at least 1 and at
    least every height of the layout, and it is 1 or the height of some
    commit. *)
Theorem max_height_is_max commitGraph :
  1 ≤ compute_max_height commitGraph ∧
  Forall (λ c, e_height c ≤ compute_max_height commitGraph) commitGraph ∧
  (compute_max_height commitGraph = 1 ∨
   ∃ c, c ∈ commitGraph ∧ e_height c = compute_max_height commitGraph).
Proof.
  unfold compute_max_height. split_and!.
  - apply foldl_max_height_ge.
  - apply Forall_forall. intros c Hc. by apply foldl_max_height_upper.
  - apply (foldl_max_height_attained commitGraph 1).
Qed.

Lemma positions_from_Some index cs m h p :
  positions_from index cs m !! h = Some p →
  m !! h = Some p ∨
  ∃ c (j : nat), cs !! j = Some c ∧ e_hash c = h ∧
    p = (graph_x + (e_height c - 1) * xOffset,
         graph_y + Z.of_nat (index + j) * yOffset).
Proof.
  revert index m. induction cs as [|c cs IH]; intros index m Hp; simpl in *; [by left|].
  apply IH in Hp as [Hp|(c' & j & Hj & Hh & ->)].
  - destruct (decide (e_hash c = h)) as [<-|Hne].
    + rewrite lookup_insert_eq in Hp. injection Hp as <-. right.
      exists c, 0%nat. by rewrite Nat.add_0_r.
    + rewrite lookup_insert_ne in Hp by done. by left.
  - right. exists c', (S j). split_and!; [done..|]. do 3 f_equal. lia.
Qed.

Lemma positions_from_is_Some index cs h :
  is_Some (positions_from index cs ∅ !! h) ↔ h ∈ e_hash <$> cs.
Proof.
  split.
  - intros [p [Hp|(c & j & Hj & <- & _)]%positions_from_Some].
    + by rewrite lookup_empty in Hp.
    + apply list_elem_of_fmap. exists c. split; [done|].
      by eapply list_elem_of_lookup_2.
  - revert index. generalize (∅ : gmap string (Z * Z)).
    induction cs as [|c cs IH]; intros m index Hh; [by apply elem_of_nil in Hh|].
    simpl. rewrite fmap_cons in Hh.
    destruct (decide (h ∈ e_hash <$> cs)) as [Hin|Hout]; [by apply IH|].
    apply elem_of_cons in Hh as [->|?]; [|done].
    rewrite positions_from_notin by done. rewrite lookup_insert_eq. eauto.
Qed.

(** The commit messages are drawn to the right of every node: a node is at
    least 90 units to the left of the column of the messages. *)
Theorem nodes_left_of_messages commitGraph HEAD0 commitsData w id p :
  getGraphWebviewContent commitGraph HEAD0 commitsData = Some w →
  positions w !! id = Some p →
  p.1 + 90 ≤ max_height w * xOffset + graph_x - 10.
Proof.
  intros Hr Hp.
  destruct (render_Some_inv _ _ _ _ Hr) as (_ & _ & _ & Hpos & Hmh & _).
  rewrite Hpos in Hp.
  apply positions_from_Some in Hp as [Hp|(c & j & Hj & _ & ->)];
    [by rewrite lookup_empty in Hp|].
  rewrite Hmh. simpl.
  assert (Hle : e_height c ≤ compute_max_height commitGraph).
  { apply foldl_max_height_upper, elem_of_reverse.
    by eapply list_elem_of_lookup_2. }
  unfold xOffset, graph_x in *. lia.
Qed.

Lemma merge_page_positions w :
  merge_page = Some w →
  positions w !! "a" = Some (210, 350) ∧ positions w !! "c" = Some (310, 150).
Proof.
  intros Hw.
  assert (H : (λ w, (positions w !! "a", positions w !! "c")) <$> merge_page
              = Some (Some (210, 350), Some (310, 150)))
    by (vm_compute; reflexivity).
  rewrite Hw in H. simpl in H. by injection H as -> ->.
Qed.

Lemma nodes_left_of_messages_witness :
  is_Some merge_page ∧
  ∀ w, merge_page = Some w →
    (310, 150).1 + 90 ≤ max_height w * xOffset + graph_x - 10.
Proof.
  split.
  { apply (bool_decide_unpack _). vm_compute. exact I. }
  intros w Hw.
  apply (nodes_left_of_messages merge_graph "d" merge_data w "c" _ Hw).
  apply (merge_page_positions w Hw).
Defined.

(** ** The colours of the lanes *)

Lemma branchColor_lane h :
  1 ≤ h →
  branchColor (graph_x + (h - 1) * xOffset)
  = branchColors !! Z.to_nat ((h - 1) `mod` 10) ∧
  is_Some (branchColors !! Z.to_nat ((h - 1) `mod` 10)).
Proof.
  intros Hh. unfold branchColor, color_idx.
  replace (graph_x + (h - 1) * xOffset - graph_x) with ((h - 1) * xOffset) by lia.
  rewrite Z.quot_mul by done.
  rewrite Z.rem_mod_nonneg by lia.
  pose proof (Z.mod_pos_bound (h - 1) 10 ltac:(lia)) as Hb.
  rewrite bool_decide_eq_true_2 by lia. split; [done|].
  apply lookup_lt_is_Some. simpl. lia.
Qed.

Lemma build_links_elem cs links c children child :
  build_links cs = Some links →
  c ∈ cs → e_children c = Some children → child ∈ children →
  (e_hash c, child) ∈ links.
Proof.
  unfold build_links. intros Hb Hc Hch Hin.
  apply fmap_Some in Hb as (per & Hper & ->).
  apply mapM_Some in Hper.
  apply list_elem_of_lookup in Hc as [i Hi].
  destruct (Forall2_lookup_l _ _ _ _ _ Hper Hi) as (l & Hl & Hcl).
  rewrite Hch in Hcl. simpl in Hcl. injection Hcl as <-.
  apply list_elem_of_In, in_concat.
  eexists. split; [apply list_elem_of_In; by eapply list_elem_of_lookup_2|].
  apply list_elem_of_In, list_elem_of_fmap. eauto.
Qed.

Lemma render_position commitGraph HEAD0 commitsData w c :
  getGraphWebviewContent commitGraph HEAD0 commitsData = Some w →
  NoDup (e_hash <$> commitGraph) → c ∈ commitGraph →
  ∃ row : nat, positions w !! e_hash c =
    Some (graph_x + (e_height c - 1) * xOffset,
          graph_y + Z.of_nat row * yOffset).
Proof.
  intros Hr Hnd Hc.
  destruct (render_Some_inv _ _ _ _ Hr) as (_ & _ & _ & Hpos & _).
  apply elem_of_reverse, list_elem_of_lookup in Hc as [j Hj].
  exists j. rewrite Hpos.
  rewrite (positions_from_nodup 0 _ ∅ j c); [done| |done].
  by rewrite fmap_reverse, reverse_Permutation.
Qed.

(** Every pair of a commit and one of the children it lists is drawn as a
    line between their two nodes, whatever their heights.  The stroke of
    the line is the palette colour of the higher of the two lanes,
    [branchColors[(max(height, height') - 1) mod 10]], when that lane is at
    least 1; when both heights are 0 the line has no stroke attribute. *)
Theorem edge_colour commitGraph HEAD0 commitsData w c children c' :
  getGraphWebviewContent commitGraph HEAD0 commitsData = Some w →
  NoDup (e_hash <$> commitGraph) →
  c ∈ commitGraph → e_children c = Some children →
  c' ∈ commitGraph → e_hash c' ∈ children →
  ∃ e p p',
    e ∈ doc w ∧ tagName e = "line" ∧ datum e = DLink (e_hash c) (e_hash c') ∧
    positions w !! e_hash c = Some p ∧ positions w !! e_hash c' = Some p' ∧
    attrs e !! "x1" = Some (ANum p.1) ∧ attrs e !! "y1" = Some (ANum p.2) ∧
    attrs e !! "x2" = Some (ANum p'.1) ∧ attrs e !! "y2" = Some (ANum p'.2) ∧
    (1 ≤ Z.max (e_height c) (e_height c') →
     ∃ colour,
       branchColors !! Z.to_nat ((Z.max (e_height c) (e_height c') - 1) `mod` 10)
         = Some colour ∧
       attrs e !! "stroke" = Some (AStr colour)) ∧
    (Z.max (e_height c) (e_height c') = 0 → attrs e !! "stroke" = None).
Proof.
  intros Hr Hnd Hc Hch Hc' Hin.
  destruct (render_position _ _ _ _ c Hr Hnd Hc) as (j & Hp).
  destruct (render_position _ _ _ _ c' Hr Hnd Hc') as (j' & Hp').
  destruct (render_Some_inv _ _ _ _ Hr) as (links & Hlinks & Hs & _).
  pose proof (build_links_elem _ _ c children (e_hash c') Hlinks
                (proj2 (elem_of_reverse _ _) Hc) Hch Hin) as Hl.
  apply scene_Some_inv in Hs
    as (lines & circles & messages & borders & tags & dates
        & Hlines & _ & _ & _ & _ & _ & Hdoc).
  apply mapM_Some in Hlines.
  apply list_elem_of_lookup in Hl as [i Hi].
  destruct (Forall2_lookup_l _ _ _ _ _ Hlines Hi) as (e & He & Hle).
  unfold line_elem in Hle. simpl in Hle. rewrite Hp, Hp' in Hle. simpl in Hle.
  injection Hle as <-.
  set (hm := Z.max (e_height c) (e_height c')).
  eexists _, _, _. split.
  { rewrite Hdoc. apply list_elem_of_lookup_2 in He.
    do 3 apply list_elem_of_further. apply elem_of_app. by left. }
  assert (Hmax : (if bool_decide
                       (graph_x + (e_height c - 1) * xOffset >
                        graph_x + (e_height c' - 1) * xOffset)
                  then graph_x + (e_height c - 1) * xOffset
                  else graph_x + (e_height c' - 1) * xOffset)
                 = graph_x + (hm - 1) * xOffset).
  { subst hm. case_bool_decide; unfold xOffset, graph_x in *; lia. }
  split_and!; try done; simpl.
  - rewrite d3_attr_lookup_ne by done. by simplify_map_eq.
  - rewrite d3_attr_lookup_ne by done. by simplify_map_eq.
  - rewrite d3_attr_lookup_ne by done. by simplify_map_eq.
  - rewrite d3_attr_lookup_ne by done. by simplify_map_eq.
  - intros Hpos. rewrite Hmax.
    destruct (branchColor_lane hm Hpos) as (Hcol & colour & Hcolour).
    exists colour. split; [done|].
    rewrite Hcol, Hcolour. simpl. by rewrite lookup_insert_eq.
  - intros H0. rewrite Hmax, H0.
    replace (branchColor (graph_x + (0 - 1) * xOffset)) with (@None string)
      by (by vm_compute).
    simpl. by rewrite lookup_delete_eq.
Qed.

Lemma edge_colour_witness :
  is_Some merge_page ∧
  ∀ w, merge_page = Some w →
    ∃ e p p' colour,
      e ∈ doc w ∧ tagName e = "line" ∧ datum e = DLink "a" "c" ∧
      positions w !! "a" = Some p ∧ positions w !! "c" = Some p' ∧
      attrs e !! "x1" = Some (ANum p.1) ∧ attrs e !! "y1" = Some (ANum p.2) ∧
      attrs e !! "x2" = Some (ANum p'.1) ∧ attrs e !! "y2" = Some (ANum p'.2) ∧
      branchColors !! Z.to_nat ((Z.max 1 2 - 1) `mod` 10) = Some colour ∧
      attrs e !! "stroke" = Some (AStr colour).
Proof.
  split.
  { apply (bool_decide_unpack _). vm_compute. exact I. }
  intros w Hw. destruct merge_graph_hashes as (_ & Hnd & _).
  destruct (edge_colour merge_graph "d" merge_data w
              (mkEntry "a" (Some ["b"; "c"]) 1) ["b"; "c"]
              (mkEntry "c" (Some ["d"]) 2) Hw Hnd)
    as (e & p & p' & He & Ht & Hd & Hp & Hp' & Hx1 & Hy1 & Hx2 & Hy2
        & Hcol & _).
  - apply list_elem_of_here.
  - reflexivity.
  - do 2 apply list_elem_of_further. apply list_elem_of_here.
  - apply (bool_decide_unpack _). vm_compute. exact I.
  - destruct Hcol as (colour & Hc1 & Hc2); [simpl; lia|].
    by exists e, p, p', colour.
Defined.

(** ** When the script draws the page *)

Lemma build_links_elem_inv cs links l :
  build_links cs = Some links → l ∈ links →
  ∃ c children, c ∈ cs ∧ e_children c = Some children ∧
    l.1 = e_hash c ∧ l.2 ∈ children.
Proof.
  unfold build_links. intros Hb Hl.
  apply fmap_Some in Hb as (per & Hper & ->).
  apply list_elem_of_In, in_concat in Hl as (ls & Hls & Hl).
  apply list_elem_of_In in Hls, Hl.
  destruct (mapM_elem_of _ _ _ _ Hper Hls) as (c & Hc & Hfc).
  apply fmap_Some in Hfc as (children & Hch & ->).
  apply list_elem_of_fmap in Hl as (child & -> & Hchild).
  by exists c, children.
Qed.

Lemma build_links_is_Some cs :
  is_Some (build_links cs) ↔ Forall (λ c, is_Some (e_children c)) cs.
Proof.
  unfold build_links. rewrite fmap_is_Some, mapM_is_Some.
  apply Forall_proper; [|done]. intros c. simpl. by rewrite fmap_is_Some.
Qed.

(** When the text pasted into the script is intact, the script draws the
    page without throwing exactly when every commit of the graph has a
    list of children, every child it lists is a commit of the graph, and
    every commit has a record of commit data.  The run of the script on
    the values does not depend on the text; the hypothesis is what makes
    the page read these values. *)
Theorem page_drawn_iff_drawable commitGraph HEAD0 commitsData :
  pasted_intact commitGraph HEAD0 commitsData →
  (is_Some (getGraphWebviewContent commitGraph HEAD0 commitsData) ↔
   Forall (drawable commitGraph commitsData) commitGraph).
Proof.
  intros _. split.
  - intros [w Hr]. apply Forall_forall. intros c Hc.
    destruct (render_Some_inv _ _ _ _ Hr) as (links & Hlinks & Hs & Hpos & _).
    apply scene_Some_inv in Hs
      as (lines & circles & messages & borders & tags & dates
          & Hlines & _ & Hmsg & _ & _ & _ & _).
    assert (Hrc : c ∈ reverse commitGraph) by by apply elem_of_reverse.
    assert (is_Some (e_children c)) as [cs Hcs].
    { assert (Hall : is_Some (build_links (reverse commitGraph))) by eauto.
      apply build_links_is_Some in Hall.
      by apply (proj1 (Forall_forall _ _) Hall). }
    exists cs. split; [done|]. split.
    + apply Forall_forall. intros child Hchild.
      pose proof (build_links_elem _ _ c cs child Hlinks Hrc Hcs Hchild) as Hl.
      apply mapM_Some in Hlines.
      apply list_elem_of_lookup in Hl as [i Hi].
      destruct (Forall2_lookup_l _ _ _ _ _ Hlines Hi) as (e & _ & Hle).
      unfold line_elem in Hle. simpl in Hle.
      apply bind_Some in Hle as (ps & _ & Hle).
      apply bind_Some in Hle as (pt & Hpt & _).
      rewrite Hpos in Hpt.
      assert (His : is_Some (positions_from 0 (reverse commitGraph) ∅ !! child))
        by eauto.
      apply positions_from_is_Some in His.
      by rewrite fmap_reverse, elem_of_reverse in His.
    + apply mapM_Some in Hmsg.
      assert (Hid : e_hash c ∈ e_hash <$> reverse commitGraph).
      { apply list_elem_of_fmap. eauto. }
      apply list_elem_of_lookup in Hid as [i Hi].
      destruct (Forall2_lookup_l _ _ _ _ _ Hmsg Hi) as (e & _ & Hme).
      unfold message_elem in Hme.
      apply bind_Some in Hme as (p & _ & Hme).
      apply bind_Some in Hme as (d & Hd & _). eauto.
  - intros Hall. rewrite Forall_forall in Hall.
    unfold getGraphWebviewContent.
    assert (is_Some (build_links (reverse commitGraph))) as [links Hlinks].
    { apply build_links_is_Some, Forall_forall. intros c Hc.
      rewrite elem_of_reverse in Hc.
      destruct (Hall c Hc) as (cs & -> & _). eauto. }
    rewrite Hlinks. simpl.
    set (pos := positions_from 0 (reverse commitGraph) ∅).
    assert (Hpos : ∀ id, id ∈ e_hash <$> commitGraph → is_Some (pos !! id)).
    { intros id Hid. apply positions_from_is_Some.
      by rewrite fmap_reverse, elem_of_reverse. }
    assert (Hdata : ∀ id, id ∈ e_hash <$> commitGraph →
              is_Some (find_data commitsData id)).
    { intros id (c & -> & Hc)%list_elem_of_fmap.
      by destruct (Hall c Hc) as (cs & _ & _ & Hd). }
    assert (Hnodes : ∀ id, id ∈ e_hash <$> reverse commitGraph →
              id ∈ e_hash <$> commitGraph).
    { intros id. by rewrite fmap_reverse, elem_of_reverse. }
    assert (is_Some (mapM (line_elem pos) links)) as [lines Hlines].
    { apply mapM_is_Some, Forall_forall. intros l Hl. simpl.
      destruct (build_links_elem_inv _ _ l Hlinks Hl)
        as (c & cs & Hc & Hcs & H1 & H2).
      rewrite elem_of_reverse in Hc.
      destruct (Hall c Hc) as (cs' & Hcs' & Hch & _).
      assert (cs' = cs) as -> by congruence.
      rewrite Forall_forall in Hch.
      destruct (Hpos l.1) as [ps Hps].
      { rewrite H1. apply list_elem_of_fmap. eauto. }
      destruct (Hpos l.2 (Hch _ H2)) as [pt Hpt].
      unfold line_elem. rewrite Hps, Hpt. simpl. eauto. }
    assert (is_Some (mapM (circle_elem pos HEAD0) (e_hash <$> reverse commitGraph)))
      as [circles Hcircles].
    { apply mapM_is_Some, Forall_forall. intros id Hid%Hnodes. simpl.
      destruct (Hpos id Hid) as [p Hp].
      unfold circle_elem. rewrite Hp. simpl. eauto. }
    assert (is_Some (mapM (message_elem pos (compute_max_height commitGraph)
                             HEAD0 commitsData)
                       (e_hash <$> reverse commitGraph)))
      as [messages Hmessages].
    { apply mapM_is_Some, Forall_forall. intros id Hid%Hnodes. simpl.
      destruct (Hpos id Hid) as [p Hp]. destruct (Hdata id Hid) as [d Hd].
      unfold message_elem. rewrite Hp. simpl. rewrite Hd. simpl. eauto. }
    assert (is_Some (mapM (border_elem pos (compute_max_height commitGraph) HEAD0)
                       (e_hash <$> reverse commitGraph)))
      as [borders Hborders].
    { apply mapM_is_Some, Forall_forall. intros id Hid%Hnodes. simpl.
      destruct (Hpos id Hid) as [p Hp].
      unfold border_elem. rewrite Hp. simpl. eauto. }
    assert (is_Some (mapM (tag_elem pos (compute_max_height commitGraph) HEAD0)
                       (e_hash <$> reverse commitGraph)))
      as [tags Htags].
    { apply mapM_is_Some, Forall_forall. intros id Hid%Hnodes. simpl.
      destruct (Hpos id Hid) as [p Hp].
      unfold tag_elem. rewrite Hp. simpl. eauto. }
    assert (is_Some (mapM (date_elem pos commitsData)
                       (e_hash <$> reverse commitGraph)))
      as [dates Hdates].
    { apply mapM_is_Some, Forall_forall. intros id Hid%Hnodes. simpl.
      destruct (Hpos id Hid) as [p Hp]. destruct (Hdata id Hid) as [d Hd].
      unfold date_elem. rewrite Hp. simpl. rewrite Hd. simpl. eauto. }
    unfold scene.
    rewrite Hlines. simpl. rewrite Hcircles. simpl. rewrite Hmessages. simpl.
    rewrite Hborders. simpl. rewrite Htags. simpl. rewrite Hdates. simpl.
    eauto.
Qed.

Lemma merge_pasted_intact : pasted_intact merge_graph "d" merge_data.
Proof.
  split; [reflexivity|]. split.
  - apply Forall_forall. intros c Hc.
    unfold merge_graph in Hc.
    repeat (apply elem_of_cons in Hc as [->|Hc]);
      [split; [reflexivity|repeat constructor]..|by apply elem_of_nil in Hc].
  - apply Forall_forall. intros r Hr.
    unfold merge_data in Hr.
    repeat (apply elem_of_cons in Hr as [->|Hr]);
      [apply Forall_forall; intros f Hf;
       repeat (apply elem_of_cons in Hf as [->|Hf]);
       [by vm_compute..|by apply elem_of_nil in Hf]..
      |by apply elem_of_nil in Hr].
Qed.

Lemma page_drawn_iff_drawable_witness :
  pasted_intact merge_graph "d" merge_data ∧
  (is_Some (getGraphWebviewContent merge_graph "d" merge_data) ↔
   Forall (drawable merge_graph merge_data) merge_graph).
Proof.
  split; [exact merge_pasted_intact|].
  apply (page_drawn_iff_drawable merge_graph "d" merge_data merge_pasted_intact).
Defined.

(** ** How many elements the script draws *)

Lemma build_links_length cs links :
  build_links cs = Some links →
  length links = sum_list_with (λ c, length (default [] (e_children c))) cs.
Proof.
  unfold build_links. intros Hb.
  apply fmap_Some in Hb as (per & Hper & ->).
  apply mapM_Some in Hper.
  induction Hper as [|c ls cs per Hc _ IH]; [done|].
  apply fmap_Some in Hc as (children & Hch & ->).
  simpl. rewrite length_app, length_fmap, IH, Hch. done.
Qed.

Lemma count_segment {A} (f : A → option Elem) (l : list A) (k : list Elem)
    (t tag : string) :
  mapM f l = Some k → (∀ x y, f x = Some y → tagName y = t) →
  length (filter (λ e, tagName e = tag) k)
  = if bool_decide (t = tag) then length l else 0%nat.
Proof.
  intros Hm%mapM_Some Ht.
  induction Hm as [|x y l k Hxy _ IH]; [by case_bool_decide|].
  pose proof (Ht _ _ Hxy) as Hy.
  case_bool_decide as Heq.
  - rewrite filter_cons_True by congruence. simpl. by rewrite IH.
  - rewrite filter_cons_False by congruence. done.
Qed.

Lemma count_cons (tag : string) (x : Elem) (l : list Elem) :
  length (filter (λ e, tagName e = tag) (x :: l))
  = ((if bool_decide (tagName x = tag) then 1 else 0)
     + length (filter (λ e, tagName e = tag) l))%nat.
Proof.
  case_bool_decide.
  - by rewrite filter_cons_True.
  - by rewrite filter_cons_False.
Qed.

Lemma count_app (tag : string) (l k : list Elem) :
  length (filter (λ e, tagName e = tag) (l ++ k))
  = (length (filter (λ e, tagName e = tag) l)
     + length (filter (λ e, tagName e = tag) k))%nat.
Proof. by rewrite filter_app, length_app. Qed.

(** The page holds one circle and one rectangle per commit, three texts
    per commit (message, HEAD tag and date) and one line per pair of a
    commit and a child it lists. *)
Theorem element_counts commitGraph HEAD0 commitsData w :
  getGraphWebviewContent commitGraph HEAD0 commitsData = Some w →
  count_tag "circle" w = length commitGraph ∧
  count_tag "rect" w = length commitGraph ∧
  count_tag "text" w = (3 * length commitGraph)%nat ∧
  count_tag "line" w =
    sum_list_with (λ c, length (default [] (e_children c))) commitGraph.
Proof.
  intros Hr.
  destruct (render_Some_inv _ _ _ _ Hr) as (links & Hlinks & Hs & _).
  apply build_links_length in Hlinks.
  rewrite sum_list_with_reverse in Hlinks.
  apply scene_Some_inv in Hs
    as (lines & circles & messages & borders & tags & dates
        & Hl & Hc & Hm & Hb & Ht & Hd & Hdoc).
  assert (Hn : length (e_hash <$> reverse commitGraph) = length commitGraph)
    by by rewrite length_fmap, length_reverse.
  assert (Hcount : ∀ tag,
    count_tag tag w =
      ((if bool_decide ("line" = tag) then length links else 0)
       + (if bool_decide ("circle" = tag) then length commitGraph else 0)
       + (if bool_decide ("text" = tag) then length commitGraph else 0)
       + (if bool_decide ("rect" = tag) then length commitGraph else 0)
       + (if bool_decide ("text" = tag) then length commitGraph else 0)
       + (if bool_decide ("text" = tag) then length commitGraph else 0)
       + (if bool_decide ("div" = tag) then 3 else 0)
       + (if bool_decide ("g" = tag) then 5 else 0))%nat).
  { intros tag. unfold count_tag. rewrite Hdoc.
    rewrite ?count_app, ?count_cons, ?count_app, ?count_cons, ?count_app.
    rewrite ?count_cons, ?count_app, ?count_cons.
    rewrite (count_segment _ _ _ "line" tag Hl).
    2:{ intros l e He. unfold line_elem in He.
        apply bind_Some in He as (ps & _ & He).
        by apply bind_Some in He as (pt & _ & [= <-]). }
    rewrite (count_segment _ _ _ "circle" tag Hc), Hn.
    2:{ intros id e He. unfold circle_elem in He.
        by apply bind_Some in He as (p & _ & [= <-]). }
    rewrite (count_segment _ _ _ "text" tag Hm), Hn.
    2:{ intros id e He. unfold message_elem in He.
        apply bind_Some in He as (p & _ & He).
        by apply bind_Some in He as (dd & _ & [= <-]). }
    rewrite (count_segment _ _ _ "rect" tag Hb), Hn.
    2:{ intros id e He. unfold border_elem in He.
        by apply bind_Some in He as (p & _ & [= <-]). }
    rewrite (count_segment _ _ _ "text" tag Ht), Hn.
    2:{ intros id e He. unfold tag_elem in He.
        by apply bind_Some in He as (p & _ & [= <-]). }
    rewrite (count_segment _ _ _ "text" tag Hd), Hn.
    2:{ intros id e He. unfold date_elem in He.
        apply bind_Some in He as (p & _ & He).
        by apply bind_Some in He as (dd & _ & [= <-]). }
    simpl. repeat (case_bool_decide; [|try congruence]); simpl; try congruence; lia. }
  rewrite !Hcount, Hlinks.
  split_and!; repeat (case_bool_decide; try done); lia.
Qed.

Lemma element_counts_witness :
  is_Some merge_page ∧
  ∀ w, merge_page = Some w →
    count_tag "circle" w = length merge_graph ∧
    count_tag "rect" w = length merge_graph ∧
    count_tag "text" w = (3 * length merge_graph)%nat ∧
    count_tag "line" w =
      sum_list_with (λ c, length (default [] (e_children c))) merge_graph.
Proof.
  split.
  { apply (bool_decide_unpack _). vm_compute. exact I. }
  intros w Hw. apply (element_counts merge_graph "d" merge_data w Hw).
Defined.

(** ** Clicks *)

Lemma patched_listens w B e e' :
  patched w B e e' → datum e' = datum e ∧ listens e' = listens e.
Proof.
  intros (e1 & H1 & ->).
  assert (Hf1 : datum e1 = datum e ∧ listens e1 = listens e).
  { destruct (contains "HEADElem" e).
    - by destruct (revert_elem_frame _ _ _ H1) as [(_ & ? & ? & _) _].
    - by subst e1. }
  destruct Hf1 as [Hd Hl].
  destruct (contains B e1); [|done].
  destruct (apply_elem_frame w e1) as [(_ & Hd' & Hl' & _) _].
  split; congruence.
Qed.

(** Whatever is clicked or delivered, the elements of the page keep their
    datum and their handlers, and the page keeps the commit data. *)
Lemma reachable_listeners w0 w :
  reachable w0 w →
  Forall2 (λ e e', datum e' = datum e ∧ listens e' = listens e)
    (doc w0) (doc w) ∧
  commitsDateString w = commitsDateString w0.
Proof.
  induction 1 as [|i w Hr [IHd IHc]|i w Hr [IHd IHc]|m w w' Hr [IHd IHc] Hm Hh].
  - split; [|done]. by apply Forall_Forall2_diag, Forall_forall.
  - unfold on_dblclick. destruct (doc w !! i) as [e|]; [|done].
    destruct (listens e), (datum e); done.
  - unfold on_click. destruct (doc w !! i) as [e|]; [|done].
    destruct (listens e), (datum e); try done.
    by destruct (find_data _ _).
  - destruct (decide (command m = "gitCheckout")) as [Hc|Hc].
    + destruct (on_message_Handled_inv _ _ _ Hc Hh)
        as (Hp & _ & _ & _ & _ & Hcd & _).
      split; [|congruence].
      eapply Forall2_trans; [|exact IHd|exact Hp].
      intros e0 e e' [Hd Hl] [Hd' Hl']%patched_listens. split; congruence.
    + rewrite on_message_other in Hh by done. by injection Hh as <-.
Qed.

Lemma render_data commitGraph HEAD0 commitsData w id :
  getGraphWebviewContent commitGraph HEAD0 commitsData = Some w →
  id ∈ e_hash <$> commitGraph →
  ∃ commit, find_data commitsData id = Some commit ∧ cd_hash commit = id.
Proof.
  intros Hr Hid.
  destruct (render_Some_inv _ _ _ _ Hr) as (links & _ & Hs & _).
  apply scene_Some_inv in Hs
    as (lines & circles & messages & borders & tags & dates
        & _ & _ & Hmsg & _).
  apply mapM_Some in Hmsg.
  rewrite <- elem_of_reverse, <- fmap_reverse in Hid.
  apply list_elem_of_lookup in Hid as [i Hi].
  destruct (Forall2_lookup_l _ _ _ _ _ Hmsg Hi) as (e & _ & Hme).
  unfold message_elem in Hme.
  apply bind_Some in Hme as (p & _ & Hme).
  apply bind_Some in Hme as (d & Hd & _).
  exists d. split; [done|].
  unfold find_data in Hd. apply find_some in Hd as [_ Hd].
  by apply bool_decide_eq_true in Hd.
Qed.

(** In every state of a page, a click on a circle or on a commit message
    shows the first record of commit data of that node, which exists, and
    changes nothing else: nothing is posted, HEAD and the scene stay. *)
Theorem click_shows_commit commitGraph HEAD0 commitsData w0 w (i : nat) e :
  getGraphWebviewContent commitGraph HEAD0 commitsData = Some w0 →
  reachable w0 w →
  doc w !! i = Some e → listens e = true →
  ∃ id commit,
    datum e = DNode id ∧ id ∈ e_hash <$> commitGraph ∧
    find_data commitsData id = Some commit ∧ cd_hash commit = id ∧
    details (on_click i w) = Some commit ∧
    doc (on_click i w) = doc w ∧ HEAD (on_click i w) = HEAD w ∧
    posted (on_click i w) = posted w.
Proof.
  intros Hr Hreach Hi Hl.
  destruct (reachable_listeners _ _ Hreach) as [Hdoc Hcd].
  destruct (Forall2_lookup_r _ _ _ _ _ Hdoc Hi) as (e0 & Hi0 & Hd0 & Hl0).
  destruct (render_Some_inv _ _ _ _ Hr)
    as (links & _ & Hs & _ & _ & _ & Hdata & _).
  assert (Hshape : scene_elem HEAD0 (e_hash <$> reverse commitGraph)
                     (positions w0) e0).
  { eapply scene_elems; [exact Hs|]. by eapply list_elem_of_lookup_2. }
  destruct Hshape
    as [(_ & Hl' & _)|[(id & kind & Hid & _ & Hd & _)|(id & _ & _ & Hl' & _)]];
    [congruence| |congruence].
  rewrite fmap_reverse, elem_of_reverse in Hid.
  destruct (render_data _ _ _ _ id Hr Hid) as (commit & Hfind & Hhash).
  exists id, commit.
  assert (Hde : datum e = DNode id) by congruence.
  split_and!; [done..| | | |].
  all: unfold on_click; rewrite Hi, Hl, Hde, Hcd, Hdata, Hfind; done.
Qed.

Lemma click_shows_commit_witness :
  is_Some merge_page ∧
  ∀ w0, merge_page = Some w0 →
    ∃ e, doc (on_dblclick 10 w0) !! 10%nat = Some e ∧ listens e = true ∧
    ∃ id commit,
      datum e = DNode id ∧ id ∈ e_hash <$> merge_graph ∧
      find_data merge_data id = Some commit ∧ cd_hash commit = id ∧
      details (on_click 10 (on_dblclick 10 w0)) = Some commit ∧
      doc (on_click 10 (on_dblclick 10 w0)) = doc (on_dblclick 10 w0) ∧
      HEAD (on_click 10 (on_dblclick 10 w0)) = HEAD (on_dblclick 10 w0) ∧
      posted (on_click 10 (on_dblclick 10 w0)) = posted (on_dblclick 10 w0).
Proof.
  split.
  { apply (bool_decide_unpack _). vm_compute. exact I. }
  intros w0 Hw0.
  destruct (merge_page_circle_b w0 Hw0) as (_ & e & He & Hl & Hd).
  assert (He' : doc (on_dblclick 10 w0) !! 10%nat = Some e).
  { by rewrite (proj1 (on_dblclick_frame 10 w0)). }
  exists e. split; [exact He'|]. split; [exact Hl|].
  apply (click_shows_commit merge_graph "d" merge_data w0 (on_dblclick 10 w0)
           10 e Hw0 (reach_dblclick _ _ _ (reach_init _)) He' Hl).
Defined.

(** ** The same answer delivered twice *)

Lemma Elem_eq (e e' : Elem) :
  tagName e = tagName e' → datum e = datum e' →
  classList e = classList e' → attrs e = attrs e' →
  textContent e = textContent e' → listens e = listens e' → e = e'.
Proof. destruct e, e'. simpl. congruence. Qed.

Lemma Webview_eq (w w' : Webview) :
  commitGraphString w = commitGraphString w' →
  commitsDateString w = commitsDateString w' →
  max_height w = max_height w' → HEAD w = HEAD w' →
  positions w = positions w' → doc w = doc w' →
  posted w = posted w' → details w = details w' → w = w'.
Proof. destruct w, w'. simpl. congruence. Qed.

Lemma apply_elem_fields w e :
  classList (apply_elem w e)
    = cl_remove "usualElem" (cl_add "HEADElem" (classList e)) ∧
  attrs (apply_elem w e)
    = (if contains "circle" e then <["fill" := AStr "white"]> (attrs e)
       else if contains "commitHash" e then
         <["x" := ANum (max_height w * xOffset + graph_x + 70)]> (attrs e)
       else if contains "HEADBorder" e then
         <["height" := ANum 30]> (<["width" := ANum 72]> (attrs e))
       else attrs e) ∧
  textContent (apply_elem w e)
    = if is_tag_text e then "HEAD" else textContent e.
Proof. unfold apply_elem, is_tag_text. by kind_cases e. Qed.

Lemma revert_elem_fields w e r :
  revert_elem w e = Some r →
  classList r = cl_add "usualElem" (cl_remove "HEADElem" (classList e)) ∧
  (∃ colour,
     attrs r
     = if contains "circle" e then set_color "fill" colour (attrs e)
       else if contains "commitHash" e then
         <["x" := ANum (max_height w * xOffset + graph_x - 10)]> (attrs e)
       else if contains "HEADBorder" e then
         <["height" := ANum 0]> (<["width" := ANum 0]> (attrs e))
       else attrs e) ∧
  textContent r = if is_tag_text e then "" else textContent e.
Proof.
  unfold revert_elem, is_tag_text. intros H.
  apply bind_Some in H as (e1 & He1 & [= <-]). simpl.
  kind_cases e.
  - apply bind_Some in He1 as (p & _ & [= <-]). simpl.
    split_and!; [done| |done]. by eexists.
  - injection He1 as <-. simpl. split_and!; [done| |done]. by exists None.
  - injection He1 as <-. simpl. split_and!; [done| |done]. by exists None.
  - injection He1 as <-. simpl. split_and!; [done| |done]. by exists None.
  - injection He1 as <-. simpl. split_and!; [done| |done]. by exists None.
Qed.

Lemma filter_all {A} (P : A → Prop) `{!∀ x, Decision (P x)} (l : list A) :
  Forall P l → filter P l = l.
Proof.
  induction 1 as [|x l Hx _ IH]; [done|].
  by rewrite filter_cons_True, IH.
Qed.

(** Removing and adding the two flags again gives back the class list of
    an element that the second loop has handled. *)
Lemma cl_cycle (l : list string) :
  "HEADElem" ∉ l →
  cl_remove "usualElem"
    (cl_add "HEADElem"
       (cl_add "usualElem"
          (cl_remove "HEADElem"
             (cl_remove "usualElem" (cl_add "HEADElem" l)))))
  = cl_remove "usualElem" (cl_add "HEADElem" l).
Proof.
  intros Hno. unfold cl_add at 3. rewrite bool_decide_eq_false_2 by done.
  unfold cl_remove at 3. rewrite filter_app.
  rewrite (filter_cons_True _ "HEADElem") by done. rewrite filter_nil.
  set (n := filter (λ t, t ≠ "usualElem") l).
  assert (Hn1 : "usualElem" ∉ n).
  { subst n. rewrite list_elem_of_filter. naive_solver. }
  assert (Hn2 : "HEADElem" ∉ n).
  { subst n. rewrite list_elem_of_filter. naive_solver. }
  assert (Hn3 : filter (λ t, t ≠ "HEADElem") n = n).
  { apply filter_all, Forall_forall. by intros t Ht ->. }
  assert (Hn4 : filter (λ t, t ≠ "usualElem") n = n).
  { apply filter_all, Forall_forall. by intros t Ht ->. }
  unfold cl_remove at 2. rewrite filter_app, Hn3.
  rewrite (filter_cons_False _ "HEADElem") by naive_solver. rewrite filter_nil, app_nil_r.
  unfold cl_add at 2. rewrite bool_decide_eq_false_2 by done.
  unfold cl_add. rewrite bool_decide_eq_false_2.
  2:{ rewrite elem_of_app, list_elem_of_singleton. naive_solver. }
  unfold cl_remove. rewrite !filter_app, Hn4.
  rewrite (filter_cons_False _ "usualElem") by naive_solver.
  rewrite (filter_cons_True _ "HEADElem") by done.
  rewrite !filter_nil, app_nil_r.
  rewrite bool_decide_eq_false_2 by done.
  rewrite filter_app, (filter_cons_True _ "HEADElem") by done.
  by rewrite filter_nil.
Qed.

(** The first loop of the listener followed by the second gives back an
    element that the second loop had handled. *)
Lemma apply_revert_apply w w' e1 r :
  max_height w' = max_height w →
  "HEADElem" ∉ classList e1 →
  revert_elem w' (apply_elem w e1) = Some r →
  apply_elem w' r = apply_elem w e1.
Proof.
  intros Hmh Hno Hr.
  destruct (apply_elem_frame w e1) as [Hf1 _].
  destruct (revert_elem_frame _ _ _ Hr) as [Hf2 _].
  destruct (apply_elem_frame w' r) as [Hf3 _].
  destruct (apply_elem_fields w e1) as (Hc1 & Ha1 & Ht1).
  destruct (revert_elem_fields _ _ _ Hr) as (Hc2 & (colour & Ha2) & Ht2).
  destruct (apply_elem_fields w' r) as (Hc3 & Ha3 & Ht3).
  destruct (same_frame_keys _ _ Hf1) as [_ Htt1].
  destruct (same_frame_keys _ _ Hf2) as [_ Htt2].
  rewrite !(same_frame_contains _ _ _ Hf2), !(same_frame_contains _ _ _ Hf1)
    in Ha3 by done.
  rewrite !(same_frame_contains _ _ _ Hf1) in Ha2 by done.
  rewrite Htt2, Htt1 in Ht3. rewrite Htt1 in Ht2.
  destruct Hf1 as (Hn1 & Hd1 & Hl1 & _).
  destruct Hf2 as (Hn2 & Hd2 & Hl2 & _).
  destruct Hf3 as (Hn3 & Hd3 & Hl3 & _).
  apply Elem_eq; [congruence|congruence| | | |congruence].
  - rewrite Hc3, Hc2, Hc1. by apply cl_cycle.
  - rewrite Ha3, Ha2, Ha1, Hmh. kind_cases e1.
    + unfold set_color. by rewrite !insert_insert_eq.
    + by rewrite !insert_insert_eq.
    + apply map_eq. intros k.
      destruct (decide (k = "height")) as [->|Hk1];
        [by rewrite !lookup_insert_eq|].
      rewrite !(lookup_insert_ne _ "height") by done.
      destruct (decide (k = "width")) as [->|Hk2];
        [by rewrite !lookup_insert_eq|].
      by rewrite !lookup_insert_ne by done.
    + done.
    + done.
  - rewrite Ht3, Ht2, Ht1. by destruct (is_tag_text e1).
Qed.

(** One element under two deliveries of the same answer. *)
Lemma patched_twice w w' B e e' e'' :
  B ≠ "HEADElem" → B ≠ "usualElem" →
  max_height w' = max_height w →
  patched w B e e' → patched w' B e' e'' → e'' = e'.
Proof.
  intros HB1 HB2 Hmh Hp Hp'.
  destruct (patched_frame _ _ _ _ HB1 HB2 Hp) as (_ & HB & HH).
  destruct Hp as (e1 & He1 & ->).
  destruct Hp' as (r & Hr & ->).
  destruct (decide (B ∈ classList e)) as [Hin|Hout].
  - assert (Hno : "HEADElem" ∉ classList e1).
    { destruct (contains "HEADElem" e) eqn:Hh.
      - destruct (revert_elem_frame _ _ _ He1) as [_ Hcl].
        rewrite Hcl. naive_solver.
      - subst e1. by apply contains_false. }
    destruct (contains B e1) eqn:HBe1.
    + assert (Hh' : contains "HEADElem" (apply_elem w e1) = true).
      { apply contains_true, HH, Hin. }
      rewrite Hh' in Hr.
      destruct (revert_elem_frame _ _ _ Hr) as [_ Hcl].
      assert (HBr : contains B r = true).
      { apply contains_true, Hcl. right. split; [done|]. by apply HB. }
      rewrite HBr. by eapply apply_revert_apply.
    + exfalso. apply contains_false in HBe1. by apply HBe1, HB.
  - set (e' := if contains B e1 then apply_elem w e1 else e1) in *.
    assert (Hh' : contains "HEADElem" e' = false).
    { apply contains_false. by rewrite HH. }
    assert (HB' : contains B e' = false).
    { apply contains_false. by rewrite HB. }
    rewrite Hh' in Hr. subst r. by rewrite HB'.
Qed.

(** The answer to a checkout request delivered a second time leaves the
    page exactly as the first delivery left it. *)
Theorem checkout_answer_idempotent commitGraph HEAD0 commitsData w0 w m w' :
  getGraphWebviewContent commitGraph HEAD0 commitsData = Some w0 →
  Forall (λ c, is_hash (e_hash c) = true) commitGraph →
  is_hash HEAD0 = true →
  reachable w0 w → m ∈ posted w →
  on_message m w = Handled w' →
  on_message m w' = Handled w'.
Proof.
  intros Hr Hh HH Hreach Hm Hw'.
  pose proof (reachable_ok _ _ _ _ Hr Hh HH w Hreach) as Hok.
  pose proof (page_ok_message _ _ _ _ Hr Hh _ _ _ Hok Hm Hw') as Hok'.
  destruct (page_ok_handles _ _ _ _ Hr Hh w' m Hok') as [w'' Hw''].
  rewrite Hw''. f_equal.
  destruct Hok as (_ & _ & _ & _ & _ & _ & _ & Hposted).
  destruct (Hposted m Hm) as [Hc HB].
  assert (HBh : is_hash (commitHash m) = true).
  { pose proof (nodes_hashes _ _ _ _ Hr Hh) as Hn.
    by apply (proj1 (Forall_forall _ _) Hn). }
  pose proof (is_hash_not_reserved _ HBh) as Hres.
  assert (HB1 : commitHash m ≠ "HEADElem") by (intros E; apply Hres; rewrite E; set_solver).
  assert (HB2 : commitHash m ≠ "usualElem") by (intros E; apply Hres; rewrite E; set_solver).
  destruct (on_message_Handled_inv _ _ _ Hc Hw')
    as (Hp & HH' & Hpos & Hmh & Hg & Hd & Hpo & Hde).
  destruct (on_message_Handled_inv _ _ _ Hc Hw'')
    as (Hp' & HH'' & Hpos' & Hmh' & Hg' & Hd' & Hpo' & Hde').
  apply Webview_eq; try congruence.
  apply list_eq. intros i.
  destruct (doc w' !! i) as [e'|] eqn:Hi.
  - destruct (Forall2_lookup_l _ _ _ _ _ Hp' Hi) as (e'' & Hi'' & Hpe').
    destruct (Forall2_lookup_r _ _ _ _ _ Hp Hi) as (e & _ & Hpe).
    rewrite Hi''. f_equal.
    by apply (patched_twice w w' (commitHash m) e e' e'').
  - apply lookup_ge_None. apply lookup_ge_None in Hi.
    apply Forall2_length in Hp'. lia.
Qed.

Lemma checkout_answer_idempotent_witness :
  is_Some merge_page ∧
  ∀ w0, merge_page = Some w0 →
    ∃ w', on_message (mkMsg "gitCheckout" "b") (on_dblclick 10 w0) = Handled w' ∧
          on_message (mkMsg "gitCheckout" "b") w' = Handled w'.
Proof.
  split.
  { apply (bool_decide_unpack _). vm_compute. exact I. }
  intros w0 Hw0. destruct merge_graph_hashes as (Hh & Hnd & HH).
  destruct (merge_page_circle_b w0 Hw0) as (Hp & e & He & Hl & Hd).
  destruct (on_dblclick_listening w0 10 e "b" He Hl Hd) as (Hposted & _).
  assert (Hreach : reachable w0 (on_dblclick 10 w0))
    by apply reach_dblclick, reach_init.
  destruct (page_ok_handles _ _ _ _ Hw0 Hh (on_dblclick 10 w0)
              (mkMsg "gitCheckout" "b")
              (reachable_ok _ _ _ _ Hw0 Hh HH _ Hreach)) as [w' Hw'].
  exists w'. split; [exact Hw'|].
  apply (checkout_answer_idempotent merge_graph "d" merge_data w0
           (on_dblclick 10 w0) _ w' Hw0 Hh HH Hreach); [|exact Hw'].
  rewrite Hposted, Hp. apply list_elem_of_here.
Defined.

(** ** What the page shows of HEAD *)

Lemma decorated_shows w e :
  decorated w e = contains "HEADElem" e && shows_head w e.
Proof. reflexivity. Qed.

(** No colour that the script or the listener gives to a circle other than
    HEAD is white. *)
Lemma branchColor_not_white px : default "undefined" (branchColor px) ≠ "white".
Proof.
  unfold branchColor. case_bool_decide; [|done].
  destruct (branchColors !! Z.to_nat (color_idx px)) as [colour|] eqn:Hc;
    [|done].
  simpl. apply list_elem_of_lookup_2 in Hc. unfold branchColors in Hc.
  intros ->.
  repeat (apply elem_of_cons in Hc as [Hc|Hc]; [done|]).
  by apply elem_of_nil in Hc.
Qed.

Lemma plain_ext w w' e :
  max_height w' = max_height w → plain w' e = plain w e.
Proof. intros H. unfold plain. by rewrite H. Qed.

Lemma plain_not_shown w e kind :
  kind ∈ node_kinds → contains kind e = true →
  plain w e = true → shows_head w e = false.
Proof.
  intros Hkind Hk. unfold plain, shows_head. kind_cases e.
  - intros H%bool_decide_eq_true. by apply bool_decide_eq_false.
  - intros H%bool_decide_eq_true. rewrite H.
    apply bool_decide_eq_false. intros [= Heq]. lia.
  - intros [H _]%andb_true_iff. apply bool_decide_eq_true in H. rewrite H.
    by rewrite bool_decide_eq_false_2.
  - intros H%bool_decide_eq_true. rewrite H. by apply bool_decide_eq_false.
  - intros _. exfalso. unfold node_kinds in Hkind.
    repeat (apply elem_of_cons in Hkind as [->|Hkind]; [congruence|]).
    by apply elem_of_nil in Hkind.
Qed.

Lemma circle_elem_plain pos HEAD0 id e w :
  circle_elem pos HEAD0 id = Some e → "HEADElem" ∉ classList e →
  plain w e = true.
Proof.
  intros Hfe. unfold circle_elem in Hfe.
  apply bind_Some in Hfe as (p & _ & [= <-]). cbn [classList]. intros Hno.
  assert (Hne : id ≠ HEAD0).
  { intros ->. apply Hno, node_classes_elem. left. by rewrite head_flag_self. }
  unfold plain, contains. cbn [classList]. class_true "circle".
  cbn [attrs]. rewrite (bool_decide_eq_false_2 (id = HEAD0)) by done.
  apply bool_decide_eq_true.
  pose proof (branchColor_not_white p.1) as Hw.
  destruct (branchColor p.1) as [colour|]; simpl in *.
  - rewrite lookup_insert_eq. by intros [= ->].
  - by rewrite lookup_delete_eq.
Qed.

Lemma message_elem_plain pos max_h HEAD0 data id e w :
  is_hash id = true → max_height w = max_h →
  message_elem pos max_h HEAD0 data id = Some e → "HEADElem" ∉ classList e →
  plain w e = true.
Proof.
  intros HH Hmh Hfe. unfold message_elem in Hfe.
  apply bind_Some in Hfe as (p & _ & Hfe).
  apply bind_Some in Hfe as (d & _ & [= <-]). cbn [classList]. intros Hno.
  assert (Hne : id ≠ HEAD0).
  { intros ->. apply Hno, node_classes_elem. left. by rewrite head_flag_self. }
  unfold plain, contains. cbn [classList].
  class_false "circle" HH.
  class_true "commitHash".
  cbn [attrs]. rewrite (bool_decide_eq_false_2 (id = HEAD0)) by done.
  by rewrite lookup_insert_eq, Hmh, bool_decide_eq_true_2.
Qed.

Lemma border_elem_plain pos max_h HEAD0 id e w :
  is_hash id = true →
  border_elem pos max_h HEAD0 id = Some e → "HEADElem" ∉ classList e →
  plain w e = true.
Proof.
  intros HH Hfe. unfold border_elem in Hfe.
  apply bind_Some in Hfe as (p & _ & [= <-]). cbn [classList]. intros Hno.
  assert (Hne : id ≠ HEAD0).
  { intros ->. apply Hno, tag_classes_elem. left. by rewrite head_flag_self. }
  unfold plain, contains. cbn [classList].
  class_false "circle" HH.
  class_false "commitHash" HH.
  class_true "HEADBorder".
  cbn [attrs]. rewrite !(bool_decide_eq_false_2 (id = HEAD0)) by done.
  apply andb_true_iff. split; apply bool_decide_eq_true; by simplify_map_eq.
Qed.

Lemma tag_elem_plain pos max_h HEAD0 id e w :
  is_hash id = true →
  tag_elem pos max_h HEAD0 id = Some e → "HEADElem" ∉ classList e →
  plain w e = true.
Proof.
  intros HH Hfe. unfold tag_elem in Hfe.
  apply bind_Some in Hfe as (p & _ & [= <-]). cbn [classList]. intros Hno.
  assert (Hne : id ≠ HEAD0).
  { intros ->. apply Hno, tag_classes_elem. left. by rewrite head_flag_self. }
  unfold plain, contains. cbn [classList].
  class_false "circle" HH.
  class_false "commitHash" HH.
  class_false "HEADBorder" HH.
  class_true "HEADText".
  cbn [textContent]. by rewrite (bool_decide_eq_false_2 (id = HEAD0)) by done.
Qed.

(** On the page that the script builds, an element that is not of class
    [HEADElem] shows nothing of the HEAD decoration. *)
Lemma scene_plain pos max_h HEAD0 data nodes links elems e w :
  scene pos max_h HEAD0 data nodes links = Some elems →
  Forall (λ id, is_hash id = true) nodes →
  max_height w = max_h →
  e ∈ elems → "HEADElem" ∉ classList e → plain w e = true.
Proof.
  intros Hs Hnodes Hmh He Hno. rewrite Forall_forall in Hnodes.
  apply scene_Some_inv in Hs
    as (lines & circles & messages & borders & tags & dates
        & Hl & Hc & Hm & Hb & Ht & Hdt & ->).
  repeat (apply elem_of_app in He as [He|He]).
  - repeat (apply elem_of_cons in He as [->|He]); [by vm_compute..|].
    by apply elem_of_nil in He.
  - destruct (mapM_elem_of _ _ _ _ Hl He) as (l & _ & Hle).
    unfold line_elem in Hle.
    apply bind_Some in Hle as (ps & _ & Hle).
    by apply bind_Some in Hle as (pt & _ & [= <-]).
  - apply list_elem_of_singleton in He as ->. by vm_compute.
  - destruct (mapM_elem_of _ _ _ _ Hc He) as (id & Hid & Hfe).
    by eapply circle_elem_plain.
  - apply list_elem_of_singleton in He as ->. by vm_compute.
  - destruct (mapM_elem_of _ _ _ _ Hm He) as (id & Hid & Hfe).
    eapply message_elem_plain; [by apply Hnodes|done..].
  - apply list_elem_of_singleton in He as ->. by vm_compute.
  - destruct (mapM_elem_of _ _ _ _ Hb He) as (id & Hid & Hfe).
    eapply border_elem_plain; [by apply Hnodes|done..].
  - destruct (mapM_elem_of _ _ _ _ Ht He) as (id & Hid & Hfe).
    eapply tag_elem_plain; [by apply Hnodes|done..].
  - apply list_elem_of_singleton in He as ->. by vm_compute.
  - destruct (mapM_elem_of _ _ _ _ Hdt He) as (id & _ & Hfe).
    unfold date_elem in Hfe.
    apply bind_Some in Hfe as (p & _ & Hfe).
    by apply bind_Some in Hfe as (d & _ & [= <-]).
  - apply list_elem_of_singleton in He as ->. by vm_compute.
Qed.

(** The first loop of the listener leaves an element that shows nothing of
    the HEAD decoration. *)
Lemma revert_elem_plain w w' e r :
  max_height w' = max_height w →
  revert_elem w e = Some r → plain w' r = true.
Proof.
  intros Hmh Hr.
  destruct (revert_elem_frame _ _ _ Hr) as [Hf _].
  unfold plain. rewrite !(same_frame_contains _ _ _ Hf) by done.
  unfold revert_elem in Hr.
  apply bind_Some in Hr as (e1 & He1 & [= <-]). simpl.
  kind_cases e.
  - apply bind_Some in He1 as (p & _ & [= <-]). simpl.
    unfold set_color. rewrite lookup_insert_eq.
    apply bool_decide_eq_true. intros [= Heq].
    by apply (branchColor_not_white p.1).
  - injection He1 as <-. simpl.
    by rewrite lookup_insert_eq, Hmh, bool_decide_eq_true_2.
  - injection He1 as <-. simpl.
    apply andb_true_iff. split; apply bool_decide_eq_true.
    + rewrite lookup_insert_ne by done. by rewrite lookup_insert_eq.
    + by rewrite lookup_insert_eq.
  - by injection He1 as <-.
  - done.
Qed.

(** In every state of a page, an element that is not of class [HEADElem]
    shows nothing of the HEAD decoration. *)
Lemma reachable_plain commitGraph HEAD0 commitsData w0 w :
  getGraphWebviewContent commitGraph HEAD0 commitsData = Some w0 →
  Forall (λ c, is_hash (e_hash c) = true) commitGraph →
  reachable w0 w →
  ∀ e, e ∈ doc w → "HEADElem" ∉ classList e → plain w e = true.
Proof.
  intros Hr Hh Hreach.
  induction Hreach as [|i w Hreach IH|i w Hreach IH|m w w' Hreach IH Hm Hw'].
  - intros e He Hno.
    destruct (render_Some_inv _ _ _ _ Hr)
      as (links & _ & Hs & _ & _ & Hg & _).
    eapply scene_plain; [exact Hs| |done|done|done].
    rewrite <- Hg. by eapply nodes_hashes.
  - destruct (on_dblclick_frame i w) as (Hd & _ & Hmh & _).
    intros e He Hno. rewrite Hd in He.
    rewrite (plain_ext w) by done. by apply IH.
  - destruct (on_click_frame i w) as (Hd & _ & Hmh & _).
    intros e He Hno. rewrite Hd in He.
    rewrite (plain_ext w) by done. by apply IH.
  - destruct (decide (command m = "gitCheckout")) as [Hc|Hc].
    2:{ rewrite on_message_other in Hw' by done. by injection Hw' as <-. }
    apply on_message_Handled_inv in Hw'
      as (Hpatch & _ & _ & Hmh' & _); [|done].
    intros e' He' Hno.
    apply list_elem_of_lookup in He' as [j Hj].
    destruct (Forall2_lookup_r _ _ _ _ _ Hpatch Hj) as (e & Hje & Hpe).
    destruct Hpe as (e1 & He1 & ->).
    destruct (contains (commitHash m) e1) eqn:HB.
    { exfalso. apply Hno.
      destruct (apply_elem_frame w e1) as [_ Hcl]. apply Hcl.
      split; [done|by left]. }
    destruct (contains "HEADElem" e) eqn:Hhe.
    + by eapply revert_elem_plain.
    + subst e1. rewrite (plain_ext w) by done. apply IH; [|done].
      by eapply list_elem_of_lookup_2.
Qed.

Lemma reachable_others_plain commitGraph HEAD0 commitsData w0 w :
  getGraphWebviewContent commitGraph HEAD0 commitsData = Some w0 →
  Forall (λ c, is_hash (e_hash c) = true) commitGraph →
  is_hash HEAD0 = true →
  reachable w0 w → others_plain w.
Proof.
  intros Hr Hh HH Hreach e id He Hd Hne.
  apply (reachable_plain _ _ _ _ _ Hr Hh Hreach e He).
  intros Hcl.
  pose proof (reachable_ok _ _ _ _ Hr Hh HH w Hreach) as Hok.
  pose proof Hok as (_ & _ & _ & _ & _ & Hj & HHw & _).
  apply (Hj e He) in Hcl.
  destruct (page_ok_tag _ _ _ _ Hr Hh w e (HEAD w) Hok He HHw Hcl)
    as (_ & _ & Hd').
  congruence.
Qed.

(** The nodes that show the decoration are those whose element has the
    decoration and the class [HEADElem]. *)
Lemma reachable_shown_nodes commitGraph HEAD0 commitsData w0 w kind :
  getGraphWebviewContent commitGraph HEAD0 commitsData = Some w0 →
  Forall (λ c, is_hash (e_hash c) = true) commitGraph →
  reachable w0 w → kind ∈ node_kinds →
  shown_nodes kind w = head_nodes kind w.
Proof.
  intros Hr Hh Hreach Hkind. unfold shown_nodes, head_nodes.
  apply omap_ext_in. intros e He.
  destruct (datum e); try done.
  destruct (contains kind e) eqn:Hk; [|done]. simpl.
  rewrite decorated_shows.
  destruct (contains "HEADElem" e) eqn:Hhe; [done|]. simpl.
  rewrite (plain_not_shown w e kind); [done..|].
  apply (reachable_plain _ _ _ _ _ Hr Hh Hreach e He).
  by apply contains_false.
Qed.

Lemma head_marker commitGraph HEAD0 commitsData w0 w kind :
  getGraphWebviewContent commitGraph HEAD0 commitsData = Some w0 →
  Forall (λ c, is_hash (e_hash c) = true) commitGraph →
  is_hash HEAD0 = true →
  NoDup (e_hash <$> commitGraph) →
  reachable w0 w → kind ∈ node_kinds →
  head_nodes kind w =
  if bool_decide (HEAD w ∈ e_hash <$> commitGraph) then [HEAD w] else [].
Proof.
  intros Hr Hh HH Hnd Hreach Hkind.
  pose proof (reachable_ok _ _ _ _ Hr Hh HH w Hreach) as Hok.
  pose proof (reachable_shown _ _ _ _ _ Hr Hh HH Hreach) as Hshown.
  pose proof Hok as (Hf & _ & _ & _ & _ & Hj & HHw & _).
  unfold head_nodes.
  rewrite (omap_ext_in _ (tagged_node kind (HEAD w))).
  2:{ intros e He. unfold tagged_node. destruct (datum e); try done.
      destruct (contains kind e) eqn:Hc; [|done]. simpl.
      destruct (contains (HEAD w) e) eqn:Hhead.
      - rewrite (Hshown e kind); [done..| |done|done]. by apply contains_true.
      - replace (decorated w e) with false; [done|]. symmetry.
        unfold decorated. rewrite (proj2 (contains_false "HEADElem" e)); [done|].
        rewrite (Hj e He). by apply contains_false. }
  rewrite (omap_Forall2_ext same_frame _
             (tagged_node kind (HEAD w)) (doc w0) (doc w) Hf).
  2:{ intros e0 e Hfe. by apply tagged_node_frame. }
  destruct (render_Some_inv _ _ _ _ Hr)
    as (links & _ & Hs & _ & _ & Hg & _).
  pose proof (nodes_hashes _ _ _ _ Hr Hh) as Hall. rewrite Hg in Hall.
  rewrite (scene_tagged_nodes _ _ _ _ _ _ _ kind (HEAD w) Hs Hall HHw Hkind).
  assert (Hmem : HEAD w ∈ e_hash <$> reverse commitGraph
                 ↔ HEAD w ∈ e_hash <$> commitGraph).
  { by rewrite fmap_reverse, elem_of_reverse. }
  case_bool_decide as Hin.
  - apply omap_one; [|by apply Hmem].
    by rewrite fmap_reverse, reverse_Permutation.
  - apply omap_none. by rewrite Hmem.
Qed.

(** In every state of a page built by the script for commits with pairwise
    different hexadecimal hashes, and for each of the four kinds of
    elements drawn for a node, the nodes that show the HEAD decoration are
    exactly the node of the current HEAD, when HEAD is a commit of the
    graph, and none otherwise: never two.  This holds of what the
    elements show (their fill, their place, their size, their text) as of
    their class [HEADElem], and every element of another node shows
    nothing of the decoration. *)
Theorem one_head_marker commitGraph HEAD0 commitsData w0 w kind :
  getGraphWebviewContent commitGraph HEAD0 commitsData = Some w0 →
  Forall (λ c, is_hash (e_hash c) = true) commitGraph →
  is_hash HEAD0 = true →
  NoDup (e_hash <$> commitGraph) →
  reachable w0 w → kind ∈ node_kinds →
  head_nodes kind w =
    (if bool_decide (HEAD w ∈ e_hash <$> commitGraph) then [HEAD w] else []) ∧
  shown_nodes kind w =
    (if bool_decide (HEAD w ∈ e_hash <$> commitGraph) then [HEAD w] else []) ∧
  others_plain w.
Proof.
  intros Hr Hh HH Hnd Hreach Hkind.
  pose proof (head_marker _ _ _ _ _ kind Hr Hh HH Hnd Hreach Hkind) as Hhead.
  split; [done|]. split.
  - by rewrite (reachable_shown_nodes _ _ _ _ _ kind Hr Hh Hreach Hkind).
  - by eapply reachable_others_plain.
Qed.

Lemma one_head_marker_witness :
  is_Some merge_page ∧
  ∀ w0, merge_page = Some w0 →
    head_nodes "HEADBorder" (on_click 9 w0) =
      (if bool_decide (HEAD (on_click 9 w0) ∈ e_hash <$> merge_graph)
       then [HEAD (on_click 9 w0)] else []) ∧
    shown_nodes "HEADBorder" (on_click 9 w0) =
      (if bool_decide (HEAD (on_click 9 w0) ∈ e_hash <$> merge_graph)
       then [HEAD (on_click 9 w0)] else []) ∧
    others_plain (on_click 9 w0).
Proof.
  split.
  { apply (bool_decide_unpack _). vm_compute. exact I. }
  intros w0 Hw0. destruct merge_graph_hashes as (Hh & Hnd & HH).
  apply (one_head_marker merge_graph "d" merge_data w0 _ "HEADBorder"
           Hw0 Hh HH Hnd).
  - apply reach_click, reach_init.
  - unfold node_kinds. do 2 right. left.
Defined.

(** C6: on a page built by the script for commits with pairwise different
    hashes, take a double click on an element of the node [B].  When the
    checkout succeeds, the page ends with HEAD equal to [B], and for each of
    the four kinds of elements exactly one node shows the HEAD decoration,
    the node [B]: exactly one has the decoration and the class [HEADElem],
    exactly one shows it (a white fill, the shifted message, the border of
    72 by 30, the text HEAD), and every element of another node, the old
    HEAD included, shows nothing of it.  When the checkout fails, the
    extension shows the error message, the page receives nothing, and HEAD
    and the scene stay as they were. *)
Theorem checkout_round_trip_head commitGraph HEAD0 commitsData w0 w
    (i : nat) e B checkout :
  getGraphWebviewContent commitGraph HEAD0 commitsData = Some w0 →
  Forall (λ c, is_hash (e_hash c) = true) commitGraph →
  is_hash HEAD0 = true →
  NoDup (e_hash <$> commitGraph) →
  reachable w0 w →
  doc w !! i = Some e → listens e = true → datum e = DNode B →
  (checkout B = None →
     ∃ w', checkout_round_trip checkout i w = (Handled w', None) ∧
           HEAD w' = B ∧
           (∀ kind, kind ∈ node_kinds → head_nodes kind w' = [B]) ∧
           (∀ kind, kind ∈ node_kinds → shown_nodes kind w' = [B]) ∧
           others_plain w' ∧
           positions w' = positions w) ∧
  (∀ text, checkout B = Some text →
     checkout_round_trip checkout i w
       = (Handled (on_dblclick i w), Some text) ∧
     HEAD (on_dblclick i w) = HEAD w ∧
     doc (on_dblclick i w) = doc w ∧
     host_on_message checkout (mkMsg "gitCheckout" B) = ShowError text "Close").
Proof.
  intros Hr Hh HH Hnd Hreach He Hl Hd.
  destruct (on_dblclick_listening w i e B He Hl Hd) as (Hp1 & HH1 & Hd1 & Hpos1).
  assert (Hdrop : drop (length (posted w)) (posted (on_dblclick i w))
                  = [ mkMsg "gitCheckout" B ]).
  { rewrite Hp1. by rewrite drop_app_length. }
  pose proof (reachable_ok _ _ _ _ Hr Hh HH _ (reach_dblclick w0 i w Hreach)) as Hok1.
  split.
  - intros Hgit.
    destruct (page_ok_handles _ _ _ _ Hr Hh (on_dblclick i w)
                (mkMsg "gitCheckout" B) Hok1) as [w' Hw'].
    exists w'. unfold checkout_round_trip. rewrite Hdrop.
    unfold host_on_message. simpl. rewrite Hgit. simpl. rewrite Hw'.
    assert (Hin : mkMsg "gitCheckout" B ∈ posted (on_dblclick i w)).
    { rewrite Hp1. apply elem_of_app. right. by left. }
    assert (Hreach' : reachable w0 w').
    { eapply reach_message; [|exact Hin|exact Hw'].
      by apply reach_dblclick. }
    assert (Hheads : ∀ kind, kind ∈ node_kinds → head_nodes kind w' = [B]).
    { intros kind Hkind.
      apply (page_ok_head_nodes _ _ _ _ Hr Hh (on_dblclick i w)
               (mkMsg "gitCheckout" B) w' kind Hnd Hok1 Hin Hw' Hkind). }
    split_and!; [done| |done| | |].
    + by apply on_message_Handled_inv in Hw' as (_ & ? & _).
    + intros kind Hkind.
      rewrite (reachable_shown_nodes _ _ _ _ _ kind Hr Hh Hreach' Hkind).
      by apply Hheads.
    + by eapply reachable_others_plain.
    + apply on_message_Handled_inv in Hw' as (_ & _ & ? & _); [|done].
      congruence.
  - intros text Hgit. unfold checkout_round_trip. rewrite Hdrop.
    unfold host_on_message. simpl. rewrite Hgit. by split_and!.
Qed.

Lemma checkout_round_trip_head_witness :
  is_Some merge_page ∧
  ∀ w0, merge_page = Some w0 →
    ∃ w', checkout_round_trip (λ _, None) 10 w0 = (Handled w', None) ∧
          HEAD w' = "b" ∧
          (∀ kind, kind ∈ node_kinds → head_nodes kind w' = ["b"]) ∧
          (∀ kind, kind ∈ node_kinds → shown_nodes kind w' = ["b"]) ∧
          others_plain w' ∧
          positions w' = positions w0.
Proof.
  split.
  { apply (bool_decide_unpack _). vm_compute. exact I. }
  intros w0 Hw0.
  destruct merge_graph_hashes as (Hh & Hnd & HH).
  destruct (merge_page_circle_b w0 Hw0) as (Hp & e & He & Hl & Hd).
  destruct (checkout_round_trip_head merge_graph "d" merge_data w0 w0 10 e "b"
              (λ _, None) Hw0 Hh HH Hnd (reach_init w0) He Hl Hd) as [Hok _].
  by apply Hok.
Defined.

(** ** A checkout that fails *)

(** When [git.checkout] rejects, the extension shows the message of the
    error and sends nothing to the page: after the double click the page
    has only recorded the request, HEAD and the scene are as before. *)
Theorem failed_checkout_keeps_page checkout (i : nat) w e id text :
  doc w !! i = Some e → listens e = true → datum e = DNode id →
  checkout id = Some text →
  ∃ w', checkout_round_trip checkout i w = (Handled w', Some text) ∧
        HEAD w' = HEAD w ∧ doc w' = doc w ∧ positions w' = positions w ∧
        posted w' = posted w ++ [ mkMsg "gitCheckout" id ].
Proof.
  intros He Hl Hd Hfail.
  destruct (on_dblclick_listening w i e id He Hl Hd) as (Hp & HH & Hdoc & Hpos).
  exists (on_dblclick i w). split; [|done].
  unfold checkout_round_trip. rewrite Hp, drop_app_length. simpl.
  unfold host_on_message. simpl. by rewrite Hfail.
Qed.

Lemma failed_checkout_keeps_page_witness :
  is_Some merge_page ∧
  ∀ w0, merge_page = Some w0 →
    ∃ w', checkout_round_trip (λ _, Some "pathspec did not match") 10 w0
            = (Handled w', Some "pathspec did not match") ∧
          HEAD w' = HEAD w0 ∧ doc w' = doc w0 ∧ positions w' = positions w0 ∧
          posted w' = posted w0 ++ [ mkMsg "gitCheckout" "b" ].
Proof.
  split.
  { apply (bool_decide_unpack _). vm_compute. exact I. }
  intros w0 Hw0.
  destruct (merge_page_circle_b w0 Hw0) as (_ & e & He & Hl & Hd).
  apply (failed_checkout_keeps_page (λ _, Some "pathspec did not match")
           10 w0 e "b" "pathspec did not match" He Hl Hd eq_refl).
Defined.

(** ** The drawing area *)

(** Every node lies inside the [viewBox] of the drawing, when no height
    is negative. *)
Theorem nodes_in_viewBox commitGraph HEAD0 commitsData w id p :
  getGraphWebviewContent commitGraph HEAD0 commitsData = Some w →
  Forall (λ c, 0 ≤ e_height c) commitGraph →
  positions w !! id = Some p →
  0 < p.1 < (viewBox w).1 ∧ 0 < p.2 < (viewBox w).2.
Proof.
  intros Hr Hnn Hp.
  destruct (render_Some_inv _ _ _ _ Hr) as (_ & _ & _ & Hpos & Hmh & Hg & _).
  rewrite Hpos in Hp.
  apply positions_from_Some in Hp as [Hp|(c & j & Hj & _ & ->)];
    [by rewrite lookup_empty in Hp|].
  assert (Hc : c ∈ commitGraph).
  { apply elem_of_reverse. by eapply list_elem_of_lookup_2. }
  pose proof (foldl_max_height_upper commitGraph 1 c Hc) as Hle.
  pose proof (proj1 (Forall_forall _ _) Hnn c Hc) as H0. simpl in H0.
  apply lookup_lt_Some in Hj.
  unfold viewBox. rewrite Hmh, Hg. simpl.
  fold (compute_max_height commitGraph) in Hle.
  unfold xOffset, yOffset, graph_x, graph_y, textWidth in *. lia.
Qed.

Lemma nodes_in_viewBox_witness :
  is_Some merge_page ∧
  ∀ w, merge_page = Some w →
    0 < (310, 150).1 < (viewBox w).1 ∧ 0 < (310, 150).2 < (viewBox w).2.
Proof.
  split.
  { apply (bool_decide_unpack _). vm_compute. exact I. }
  intros w Hw.
  apply (nodes_in_viewBox merge_graph "d" merge_data w "c" _ Hw).
  - unfold merge_graph. repeat constructor; simpl; lia.
  - apply (merge_page_positions w Hw).
Defined.

(** ** The row of a commit *)

Lemma mapM_elem_of_l {A B} (f : A → option B) (l : list A) (k : list B) x :
  mapM f l = Some k → x ∈ l → ∃ y, y ∈ k ∧ f x = Some y.
Proof.
  intros Hm%mapM_Some Hx. apply list_elem_of_lookup in Hx as [i Hi].
  destruct (Forall2_lookup_l _ _ _ _ _ Hm Hi) as (y & Hy & Hfx).
  exists y. split; [|done]. by eapply list_elem_of_lookup_2.
Qed.

(** Whatever the page draws for a commit beside its circle lies on the row
    of the commit: its message, with the subject of its first record of
    commit data; the border of the HEAD tag, 15 units above; the text of
    the HEAD tag, which reads HEAD on the HEAD commit only; and its date,
    in the first column. *)
Theorem commit_row commitGraph HEAD0 commitsData w id :
  getGraphWebviewContent commitGraph HEAD0 commitsData = Some w →
  id ∈ e_hash <$> commitGraph →
  ∃ p commit msg border tag date,
    positions w !! id = Some p ∧ find_data commitsData id = Some commit ∧
    (msg ∈ doc w ∧ tagName msg = "text" ∧ datum msg = DNode id ∧
     "commitHash" ∈ classList msg ∧ textContent msg = message commit ∧
     attrs msg !! "y" = Some (ANum p.2)) ∧
    (border ∈ doc w ∧ tagName border = "rect" ∧ datum border = DNode id ∧
     attrs border !! "y" = Some (ANum (p.2 - 15))) ∧
    (tag ∈ doc w ∧ tagName tag = "text" ∧ datum tag = DNode id ∧
     "HEADText" ∈ classList tag ∧
     textContent tag = (if bool_decide (id = HEAD0) then "HEAD" else "") ∧
     attrs tag !! "y" = Some (ANum p.2)) ∧
    (date ∈ doc w ∧ tagName date = "text" ∧ datum date = DNode id ∧
     classList date = [] ∧ textContent date = authorDate commit ∧
     attrs date !! "x" = Some (ANum 0) ∧ attrs date !! "y" = Some (ANum p.2)).
Proof.
  intros Hr Hid.
  destruct (render_data _ _ _ _ id Hr Hid) as (commit & Hfind & _).
  destruct (render_Some_inv _ _ _ _ Hr) as (links & _ & Hs & Hpos & _).
  assert (Hnode : id ∈ e_hash <$> reverse commitGraph)
    by by rewrite fmap_reverse, elem_of_reverse.
  assert (is_Some (positions w !! id)) as [p Hp].
  { rewrite Hpos. by apply positions_from_is_Some. }
  apply scene_Some_inv in Hs
    as (lines & circles & messages & borders & tags & dates
        & _ & _ & Hm & Hb & Ht & Hd & Hdoc).
  destruct (mapM_elem_of_l _ _ _ id Hm Hnode) as (msg & Hmsg & Hme).
  destruct (mapM_elem_of_l _ _ _ id Hb Hnode) as (border & Hborder & Hbe).
  destruct (mapM_elem_of_l _ _ _ id Ht Hnode) as (tag & Htag & Hte).
  destruct (mapM_elem_of_l _ _ _ id Hd Hnode) as (date & Hdate & Hde).
  unfold message_elem in Hme. rewrite Hp in Hme. simpl in Hme.
  rewrite Hfind in Hme. simpl in Hme. injection Hme as Hme.
  unfold border_elem in Hbe. rewrite Hp in Hbe. simpl in Hbe.
  injection Hbe as Hbe.
  unfold tag_elem in Hte. rewrite Hp in Hte. simpl in Hte.
  injection Hte as Hte.
  unfold date_elem in Hde. rewrite Hp in Hde. simpl in Hde.
  rewrite Hfind in Hde. simpl in Hde. injection Hde as Hde.
  exists p, commit, msg, border, tag, date.
  split; [done|]. split; [done|].
  assert (Hin : ∀ e, e ∈ messages ∨ e ∈ borders ∨ e ∈ tags ∨ e ∈ dates →
            e ∈ doc w).
  { intros e He. rewrite Hdoc, !elem_of_app. tauto. }
  subst msg border tag date. unfold node_classes, tag_classes.
  split_and!; simpl;
    lazymatch goal with
    | |- _ ∈ doc w => apply Hin; tauto
    | |- _ ∈ _ :: _ =>
        repeat first [ apply list_elem_of_here | apply list_elem_of_further ]
    | |- _ !! _ = _ => by rewrite ?lookup_insert_ne, ?lookup_insert_eq by done
    | |- _ => done
    end.
Qed.

Lemma commit_row_witness :
  is_Some merge_page ∧
  ∀ w, merge_page = Some w →
    ∃ p commit msg border tag date,
      positions w !! "c" = Some p ∧ find_data merge_data "c" = Some commit ∧
      (msg ∈ doc w ∧ tagName msg = "text" ∧ datum msg = DNode "c" ∧
       "commitHash" ∈ classList msg ∧ textContent msg = message commit ∧
       attrs msg !! "y" = Some (ANum p.2)) ∧
      (border ∈ doc w ∧ tagName border = "rect" ∧ datum border = DNode "c" ∧
       attrs border !! "y" = Some (ANum (p.2 - 15))) ∧
      (tag ∈ doc w ∧ tagName tag = "text" ∧ datum tag = DNode "c" ∧
       "HEADText" ∈ classList tag ∧
       textContent tag = (if bool_decide ("c" = "d") then "HEAD" else "") ∧
       attrs tag !! "y" = Some (ANum p.2)) ∧
      (date ∈ doc w ∧ tagName date = "text" ∧ datum date = DNode "c" ∧
       classList date = [] ∧ textContent date = authorDate commit ∧
       attrs date !! "x" = Some (ANum 0) ∧ attrs date !! "y" = Some (ANum p.2)).
Proof.
  split.
  { apply (bool_decide_unpack _). vm_compute. exact I. }
  intros w Hw.
  apply (commit_row merge_graph "d" merge_data w "c" Hw).
  apply (bool_decide_unpack _). vm_compute. exact I.
Defined.

(** * Further properties of the lane layout *)

(** ** Only what the traversal reaches gets a lane *)

Section Reached.

Variable commits : gmap string (list string).
Variable hashIdx : gmap string nat.
Variable root : string.
Hypothesis rows_inj : ∀ a b i,
  hashIdx !! a = Some i → hashIdx !! b = Some i → a = b.

Local Abbreviation dfs := (dfs commits hashIdx).
Local Abbreviation from_root := (rtc (edge commits) root).

(** The rows with a height are rows of commits reachable from [root]. *)
Local Abbreviation lanes_reached := (λ hs : gmap (option nat) Z,
  ∀ h (i : nat) v, hashIdx !! h = Some i → hs !! Some i = Some v → v ≠ 0 →
    from_root h).

Lemma flush_reached c cs st :
  layout_inv hashIdx st → from_root c → Forall from_root (subTree st) →
  lanes_reached (height st) →
  lanes_reached (height (flush hashIdx c cs st)).
Proof.
  intros (Hrun & _) Hc Hsub Hold h i v Hi Hv Hne.
  destruct (flush_cases hashIdx c cs st (Some i) Hrun)
    as [([Hk|(Hk & _)] & _ & _)|(_ & Heq)].
  - apply list_elem_of_fmap in Hk as (h' & Hrow & Hin).
    unfold row in Hrow. symmetry in Hrow.
    rewrite (rows_inj h h' i Hi Hrow).
    rewrite Forall_forall in Hsub. apply Hsub.
    by eapply subseteq_drop.
  - unfold row in Hk. symmetry in Hk. by rewrite (rows_inj h c i Hi Hk).
  - rewrite Heq in Hv. by eapply Hold.
Qed.

Lemma dfs_reached fuel : ∀ c st st',
  layout_inv hashIdx st → from_root c → Forall from_root (subTree st) →
  lanes_reached (height st) →
  dfs fuel c st = Done st' →
  lanes_reached (height st').
Proof.
  induction fuel as [|fuel IH]; intros c st st' Hinv Hc Hsub Hold Hd; [done|].
  apply dfs_Done_inv in Hd
    as (fuel' & cs & [= <-] & Hcs & [[_ ->]|(Hne & Hc0 & Hfor)]).
  { by apply flush_reached. }
  assert (Hgen : ∀ ns s s', (∀ n, n ∈ ns → n ∈ cs) →
            layout_inv hashIdx (push c s) →
            Forall from_root (subTree s) → lanes_reached (height s) →
            for_neighbors (dfs fuel) c ns s = Done s' →
            lanes_reached (height s')).
  { induction ns as [|n ns IHns]; intros s s' Hsubset Hp Hs Hl Hf.
    - by injection Hf as <-.
    - apply for_neighbors_cons_inv in Hf as (s1 & Hv & Hf).
      destruct (dfs_inv _ _ _ _ _ _ Hp Hv) as (Hi1 & Hs1 & _).
      assert (Hn : from_root n).
      { eapply rtc_r; [exact Hc|]. exists cs. split; [done|].
        apply Hsubset. by left. }
      apply (IHns s1 s').
      + intros n' Hn'. apply Hsubset. by right.
      + by apply push_inv_next.
      + rewrite Hs1. constructor.
      + apply (IH n (push c s) s1); [done|done| |done|done].
        simpl. apply Forall_app. split; [done|]. by constructor.
      + done. }
  apply (Hgen cs st st'); [done|by apply push_inv_first|done..].
Qed.

End Reached.

(** A commit that [getCommitGraph] gives a height other than 0 is
    reachable from the oldest commit along the child lists. *)
Theorem height_only_if_reachable fuel commits orderedCommits ans c0 e :
  getCommitGraph fuel commits orderedCommits = Done ans →
  head orderedCommits = Some c0 →
  e ∈ ans → e_height e ≠ 0 →
  rtc (edge commits) (hash c0) (e_hash e).
Proof.
  intros Hg Hhd He Hne. unfold getCommitGraph in Hg.
  destruct (layout fuel commits orderedCommits) as [st| |] eqn:Hl; [|done..].
  injection Hg as <-.
  apply list_elem_of_fmap in He as (c & -> & Hc). simpl in *.
  destruct (answer_height_defined _ _ _ _ _ Hl Hc) as (i & v & Hi & Hv & Hh).
  rewrite Hh in Hne.
  apply layout_Done_inv in Hl as (c0' & rest & st0 & Hcs & Hd & Hhs & _).
  assert (c0' = c0) as -> by (rewrite Hcs in Hhd; by injection Hhd).
  destruct (decide (i = 0%nat)) as [->|Hi0].
  - unfold build_hashIdx in Hi.
    apply index_from_Some in Hi as [Hi|(_ & c' & Hc' & Hhc)];
      [by rewrite lookup_empty in Hi|].
    rewrite Hcs in Hc'. simpl in Hc'. injection Hc' as <-. by rewrite Hhc.
  - rewrite Hhs, lookup_insert_ne in Hv by congruence.
    apply (dfs_reached commits (build_hashIdx orderedCommits) (hash c0)
             (build_hashIdx_inj orderedCommits) fuel (hash c0)
             (init_state (length orderedCommits)) st0
             (init_state_inv orderedCommits) (rtc_refl _ _)
             (Forall_nil_2 _)) with i v; [|done..].
    intros h' i' v' _ Hv' Hne'. simpl in Hv'.
    apply zero_heights_lookup in Hv' as [-> _]. done.
Qed.

Lemma height_only_if_reachable_witness :
  rtc (edge merge_commits) (hash (mkCommit "a" 0))
      (e_hash (mkEntry "c" (Some ["d"]) 2)).
Proof.
  apply (height_only_if_reachable 10 merge_commits (ord ["a"; "b"; "c"; "d"])
           _ (mkCommit "a" 0) (mkEntry "c" (Some ["d"]) 2) merge_heights).
  - reflexivity.
  - do 2 apply list_elem_of_further. apply list_elem_of_here.
  - simpl. lia.
Defined.

(** ** No gap between the lanes, and no more lanes than commits *)

Lemma scan_max_attained hs idx count nh :
  scan_max hs idx count nh = nh ∨
  ∃ a : nat, hs !! Some a = Some (scan_max hs idx count nh).
Proof.
  revert idx nh. induction count as [|count IH]; intros idx nh; simpl; [by left|].
  destruct (hs !! Some idx) as [v|] eqn:Hv; [|apply IH].
  case_bool_decide; [|apply IH].
  destruct (IH (S idx) v) as [->|?]; eauto.
Qed.

Lemma range_max_attained hs lo hi :
  range_max hs lo hi = 0 ∨ ∃ a : nat, hs !! Some a = Some (range_max hs lo hi).
Proof.
  unfold range_max. destruct lo, hi; try by left. apply scan_max_attained.
Qed.

Lemma flush_lanes_filled hashIdx c cs st :
  layout_inv hashIdx st → lanes_filled (height st) →
  lanes_filled (height (flush hashIdx c cs st)).
Proof.
  intros (Hrun & _) Hfill i v u Hv Hu.
  pose proof (flush_keeps hashIdx c cs st Hrun) as Hkeep.
  assert (Hold : ∀ (a : nat) x, height st !! Some a = Some x → u ≤ x →
            ∃ j : nat, height (flush hashIdx c cs st) !! Some j = Some u).
  { intros a x Hx Hux. destruct (Hfill a x u Hx) as [j Hj]; [lia|].
    exists j. apply Hkeep; [done|lia]. }
  destruct (flush_lookup hashIdx c cs st (Some i) Hrun) as [Heq|[_ Hnew]].
  - rewrite Heq in Hv. apply (Hold i v); [done|lia].
  - rewrite Hnew in Hv. injection Hv as <-.
    destruct (decide (u = flush_height hashIdx c st)) as [->|Hlt]; [eauto|].
    unfold flush_height in *.
    destruct (range_max_attained (height st)
                (head (subTree st ++ [c]) ≫= row hashIdx) (row hashIdx c))
      as [H0|[a Ha]]; [lia|].
    apply (Hold a _ Ha). lia.
Qed.

Lemma flush_rows_below hashIdx n c cs st :
  layout_inv hashIdx st → rows_below n (height st) →
  rows_below n (height (flush hashIdx c cs st)).
Proof.
  intros (Hrun & _) Hb i v Hv.
  destruct (flush_lookup hashIdx c cs st (Some i) Hrun) as [Heq|[H0 _]].
  - rewrite Heq in Hv. by eapply Hb.
  - by eapply Hb.
Qed.

(** As many distinct rows as lanes in use. *)
Lemma lanes_filled_rows hs (m : nat) :
  lanes_filled hs → (∃ i : nat, hs !! Some i = Some (Z.of_nat m)) →
  ∃ l : list nat, NoDup l ∧ length l = m ∧
    ∀ j, j ∈ l → ∃ u, hs !! Some j = Some u ∧ 1 ≤ u ≤ Z.of_nat m.
Proof.
  intros Hfill. induction m as [|m IH]; intros [i Hi].
  - exists []. split_and!; [constructor|done|]. by intros j Hj%elem_of_nil.
  - destruct (decide (m = 0%nat)) as [->|Hm].
    + exists [i]. split_and!; [apply NoDup_singleton|done|].
      intros j ->%list_elem_of_singleton. eauto with lia.
    + destruct (Hfill i _ (Z.of_nat m) Hi) as [j Hj]; [lia|].
      destruct IH as (l & Hnd & Hlen & Hl); [eauto|].
      exists (i :: l). split_and!.
      * constructor; [|done]. intros Hin.
        destruct (Hl i Hin) as (u & Hu & Hle). simplify_eq. lia.
      * simpl. by rewrite Hlen.
      * intros j' [->|Hin]%elem_of_cons; [eauto with lia|].
        destruct (Hl j' Hin) as (u & Hu & Hle). exists u. split; [done|lia].
Qed.

Lemma lanes_filled_bound hs n (i : nat) v :
  lanes_filled hs → rows_below n hs →
  hs !! Some i = Some v → v ≤ Z.of_nat n.
Proof.
  intros Hfill Hb Hv.
  destruct (decide (v ≤ 0)) as [|Hpos]; [lia|].
  destruct (lanes_filled_rows hs (Z.to_nat v) Hfill) as (l & Hnd & Hlen & Hl).
  { exists i. by rewrite Z2Nat.id by lia. }
  assert (Hsub : l ⊆+ seq 0 n).
  { apply NoDup_submseteq; [done|]. intros j Hj.
    destruct (Hl j Hj) as (u & Hu & _). apply elem_of_seq.
    pose proof (Hb j u Hu). lia. }
  apply submseteq_length in Hsub. rewrite length_seq in Hsub. lia.
Qed.

(** The heights that [getCommitGraph] gives lie between 0 and the number
    of commits listed. *)
Theorem heights_bounded fuel commits orderedCommits ans e :
  getCommitGraph fuel commits orderedCommits = Done ans →
  e ∈ ans →
  0 ≤ e_height e ≤ Z.of_nat (length orderedCommits).
Proof.
  intros Hg He. unfold getCommitGraph in Hg.
  destruct (layout fuel commits orderedCommits) as [st| |] eqn:Hl; [|done..].
  injection Hg as <-.
  apply list_elem_of_fmap in He as (c & -> & Hc). simpl.
  destruct (answer_height_defined _ _ _ _ _ Hl Hc) as (i & v & Hi & Hv & ->).
  apply layout_Done_inv in Hl as (c0 & rest & st0 & Hcs & Hd & Hh & _).
  destruct (decide (i = 0%nat)) as [->|Hi0].
  { rewrite Hh, lookup_insert_eq in Hv. injection Hv as <-.
    rewrite Hcs. simpl. lia. }
  rewrite Hh, lookup_insert_ne in Hv by congruence.
  destruct (dfs_inv _ _ _ _ _ _ (init_state_inv orderedCommits) Hd)
    as ((_ & Hnn & _) & _ & _).
  split; [apply (Hnn _ _ Hv)|].
  assert (Hboth : lanes_filled (height st0) ∧
                  rows_below (length orderedCommits) (height st0)).
  { apply (dfs_preserves commits (build_hashIdx orderedCommits)
             (λ hs _, lanes_filled hs ∧ rows_below (length orderedCommits) hs))
      with fuel (hash c0) (init_state (length orderedCommits)).
    - intros c' cs' st1 Hinv [Hf Hb]. split.
      + by apply flush_lanes_filled.
      + by apply flush_rows_below.
    - apply init_state_inv.
    - split.
      + intros i' v' u Hv' Hu. simpl in Hv'.
        apply zero_heights_lookup in Hv' as [-> _]. lia.
      + intros i' v' Hv'. simpl in Hv'.
        apply zero_heights_lookup in Hv' as (_ & i'' & [= <-] & Hlt). done.
    - done. }
  destruct Hboth as [Hf Hb]. by eapply lanes_filled_bound.
Qed.

Lemma heights_bounded_witness :
  0 ≤ e_height (mkEntry "c" (Some ["d"]) 2)
    ≤ Z.of_nat (length (ord ["a"; "b"; "c"; "d"])).
Proof.
  apply (heights_bounded 10 merge_commits (ord ["a"; "b"; "c"; "d"]) _
           (mkEntry "c" (Some ["d"]) 2) merge_heights).
  do 2 apply list_elem_of_further. apply list_elem_of_here.
Defined.

(** ** A history without forks *)

Section SingleLane.

Variable commits : gmap string (list string).
Variable hashIdx : gmap string nat.
Hypothesis no_fork : map_Forall (λ _ cs, (length cs ≤ 1)%nat) commits.

Local Abbreviation dfs := (dfs commits hashIdx).


End SingleLane.



(** * Properties of the queries of the repository *)

(** ** Splitting *)

Lemma js_split_cons sep s : ∃ piece pieces, js_split sep s = piece :: pieces.
Proof.
  induction s as [|a s (piece & pieces & IH)]; simpl; [eauto|].
  destruct (Ascii.eqb a sep); [eauto|]. rewrite IH. eauto.
Qed.

Lemma js_split_free sep s : has_char sep s = false → js_split sep s = [s].
Proof.
  induction s as [|a s IH]; simpl; [done|].
  intros [Ha Hs]%orb_false_iff. rewrite Ha, (IH Hs). done.
Qed.

Lemma js_split_app sep s rest :
  has_char sep s = false →
  js_split sep (String.append s (String sep rest)) = s :: js_split sep rest.
Proof.
  induction s as [|a s IH]; simpl.
  - intros _. by rewrite Ascii.eqb_refl.
  - intros [Ha Hs]%orb_false_iff. by rewrite Ha, (IH Hs).
Qed.

Lemma js_split_join sep pieces :
  pieces ≠ [] → Forall (λ piece, has_char sep piece = false) pieces →
  js_split sep (join sep pieces) = pieces.
Proof.
  induction pieces as [|piece rest IH]; [done|].
  intros _ [Hp Hrest]%Forall_cons. destruct rest as [|piece' rest].
  - simpl. by apply js_split_free.
  - change (join sep (piece :: piece' :: rest))
      with (String.append piece (String sep (join sep (piece' :: rest)))).
    rewrite js_split_app by done. by rewrite IH.
Qed.

Lemma has_char_append a s t :
  has_char a (String.append s t) = has_char a s || has_char a t.
Proof.
  induction s as [|b s IH]; simpl; [done|]. by rewrite IH, orb_assoc.
Qed.

Lemma has_char_join a sep pieces :
  Ascii.eqb sep a = false →
  Forall (λ piece, has_char a piece = false) pieces →
  has_char a (join sep pieces) = false.
Proof.
  intros Hsep. induction pieces as [|piece rest IH]; [done|].
  intros [Hp Hrest]%Forall_cons. destruct rest as [|piece' rest]; [done|].
  change (join sep (piece :: piece' :: rest))
    with (String.append piece (String sep (join sep (piece' :: rest)))).
  rewrite has_char_append, Hp. simpl. rewrite Hsep. by apply IH.
Qed.

Lemma hex_free a s :
  hex_digit a = false →
  forallb hex_digit (String.list_ascii_of_string s) = true →
  has_char a s = false.
Proof.
  intros Ha. induction s as [|b s IH]; simpl; [done|].
  intros [Hb Hs]%andb_true_iff. rewrite (IH Hs), orb_false_r.
  apply Ascii.eqb_neq. intros ->. congruence.
Qed.

Lemma is_hash_free t :
  is_hash t = true → has_char space t = false ∧ has_char newline t = false.
Proof.
  unfold is_hash. intros [_ Hhex]%andb_true_iff.
  split; by apply hex_free.
Qed.

(** ** The children of the commits *)

Lemma add_line_words commitGraph commitHash parentHashes :
  Forall (λ t, is_hash t = true) (commitHash :: parentHashes) →
  add_line commitGraph (join space (commitHash :: parentHashes))
  = <[commitHash := parentHashes]> commitGraph.
Proof.
  intros Hw. unfold add_line. rewrite js_split_join; [done..|].
  eapply Forall_impl; [exact Hw|]. intros t Ht. by apply is_hash_free.
Qed.

Lemma foldl_add_line (history : list (string * list string)) m :
  Forall (λ r, Forall (λ t, is_hash t = true) (r.1 :: r.2)) history →
  foldl add_line m ((λ r, join space (r.1 :: r.2)) <$> history)
  = foldl (λ m r, <[r.1 := r.2]> m) m history.
Proof.
  revert m. induction history as [|r history IH]; intros m; [done|].
  intros [Hr Hrest]%Forall_cons. rewrite fmap_cons. cbn [foldl].
  rewrite add_line_words by done. by apply IH.
Qed.

Lemma foldl_insert_reverse (history : list (string * list string)) :
  foldl (λ m r, <[r.1 := r.2]> m) (∅ : gmap string (list string)) history
  = list_to_map (reverse history).
Proof.
  induction history as [|r history IH] using rev_ind; [done|].
  rewrite foldl_app, reverse_app. simpl. by rewrite IH.
Qed.

(** On what [git rev-list --all --children] prints for a history,
    [getCommitsChildren] gives the object that maps each commit to the
    list of its children, the last line of a commit taking precedence; on
    an empty output it gives the object whose only key is the empty
    string. *)
Theorem getCommitsChildren_rev_list history :
  Forall (λ r, Forall (λ t, is_hash t = true) (r.1 :: r.2)) history →
  getCommitsChildren (rev_list_children history)
  = match history with
    | [] => {[ "" := [] ]}
    | _ => list_to_map (reverse history)
    end.
Proof.
  intros Hh. destruct history as [|r history]; [done|].
  unfold getCommitsChildren, rev_list_children.
  rewrite js_split_join.
  - rewrite foldl_add_line by done. apply foldl_insert_reverse.
  - done.
  - apply Forall_fmap. eapply Forall_impl; [exact Hh|].
    intros r' Hr'. apply (has_char_join newline space (r'.1 :: r'.2)); [done|].
    eapply Forall_impl; [exact Hr'|]. intros t Ht. by apply is_hash_free.
Qed.

Lemma getCommitsChildren_rev_list_witness :
  getCommitsChildren
    (rev_list_children [ ("a", ["b"; "c"]); ("b", ["d"]); ("c", ["d"]); ("d", []) ])
  = list_to_map
      (reverse [ ("a", ["b"; "c"]); ("b", ["d"]); ("c", ["d"]); ("d", []) ]).
Proof.
  apply (getCommitsChildren_rev_list
           [ ("a", ["b"; "c"]); ("b", ["d"]); ("c", ["d"]); ("d", []) ]).
  repeat constructor.
Defined.

(** ** The data of the commits *)

Lemma js_split_lines (lines : list string) :
  Forall (λ line, has_char newline line = false) lines →
  js_split newline
    (foldr (λ line out, String.append line (String newline out))
       EmptyString lines)
  = lines ++ [EmptyString].
Proof.
  induction 1 as [|line lines Hline _ IH]; [done|].
  simpl. rewrite js_split_app by done. by rewrite IH.
Qed.

Lemma data_loop_records (records : list CommitData) : ∀ fuel (before : list string),
  (length records < fuel)%nat →
  data_loop fuel (length before)
    (before ++ (records ≫= git_log_record) ++ [EmptyString])
  = Done (commit_fields <$> records).
Proof.
  induction records as [|r records IH]; intros fuel before Hfuel.
  - destruct fuel as [|fuel]; [simpl in Hfuel; lia|]. simpl.
    rewrite bool_decide_eq_false_2; [done|].
    rewrite length_app. simpl. lia.
  - destruct fuel as [|fuel]; [simpl in Hfuel; lia|].
    simpl in Hfuel. cbn [data_loop].
    change ((r :: records) ≫= git_log_record)
      with (git_log_record r ++ (records ≫= git_log_record)).
    set (rest := (records ≫= git_log_record) ++ [EmptyString]).
    rewrite <- (app_assoc (git_log_record r)). fold rest.
    rewrite bool_decide_eq_true_2.
    2:{ rewrite !length_app. simpl. lia. }
    assert (Hat : ∀ k line, git_log_record r !! k = Some line →
              (before ++ git_log_record r ++ rest) !! (length before + k)%nat
              = Some line).
    { intros k line Hk. rewrite lookup_app_r by lia.
      replace (length before + k - length before)%nat with k by lia.
      by apply lookup_app_l_Some. }
    rewrite (Hat 3%nat (authorDate r) eq_refl).
    rewrite (Hat 1%nat (authorName r) eq_refl).
    rewrite (Hat 2%nat (authorEmail r) eq_refl).
    rewrite (Hat 4%nat (message r) eq_refl).
    replace ((before ++ git_log_record r ++ rest) !! length before)
      with (Some (cd_hash r)).
    2:{ symmetry. rewrite <- (Nat.add_0_r (length before)). by apply Hat. }
    replace (length before + 5)%nat with (length (before ++ git_log_record r))
      by (rewrite length_app; done).
    rewrite (app_assoc before). subst rest.
    rewrite (IH fuel (before ++ git_log_record r)) by lia. done.
Qed.

(** On what [git log] prints for a list of commits in the format of line
    176, [getCommitsData] gives back the commits in the same order, each
    with its hash, author, email and subject, and with its date cut by the
    six code units of the time zone. *)
Theorem getCommitsData_git_log records :
  Forall (λ r, Forall (λ line, has_char newline line = false)
                 (git_log_record r)) records →
  getCommitsData (git_log_output records) = Done (commit_fields <$> records).
Proof.
  intros Hfree. unfold getCommitsData, git_log_output.
  rewrite js_split_lines.
  2:{ apply Forall_bind. eapply Forall_impl; [exact Hfree|]. done. }
  assert (Hlen : (length records < S (length ((records ≫= git_log_record) ++ [EmptyString])))%nat).
  { rewrite length_app. simpl.
    assert (length (records ≫= git_log_record) = 5 * length records)%nat.
    { clear. induction records as [|r records IH]; [done|].
      change ((r :: records) ≫= git_log_record)
        with (git_log_record r ++ (records ≫= git_log_record)).
      rewrite length_app, IH. simpl. lia. }
    lia. }
  apply (data_loop_records records _ [] Hlen).
Qed.

Lemma getCommitsData_git_log_witness :
  getCommitsData
    (git_log_output
       [ mkData "d" "Ann" "ann@example.org" "2024-01-04 10:00:00 +0100" "merge";
         mkData "c" "Bob" "bob@example.org" "2024-01-03 10:00:00 +0100" "feature" ])
  = Done
      [ mkFields (Some "d") (Some "Ann") (Some "ann@example.org")
          "2024-01-04 10:00:00" (Some "merge");
        mkFields (Some "c") (Some "Bob") (Some "bob@example.org")
          "2024-01-03 10:00:00" (Some "feature") ].
Proof.
  apply (getCommitsData_git_log
    [ mkData "d" "Ann" "ann@example.org" "2024-01-04 10:00:00 +0100" "merge";
      mkData "c" "Bob" "bob@example.org" "2024-01-03 10:00:00 +0100" "feature" ]).
  repeat constructor.
Defined.

(** What the loop does from the index [i] on, by the number of lines that
    are left after it. *)
Lemma data_loop_spec lines fuel : ∀ i,
  (length lines - 1 - i + 5 ≤ 5 * fuel)%nat →
  if bool_decide ((length lines - 1 - i) `mod` 5 = 1 ∨
                  (length lines - 1 - i) `mod` 5 = 2)%nat
  then data_loop fuel i lines = TypeError
  else ∃ commits,
    data_loop fuel i lines = Done commits ∧
    length commits = ((length lines - 1 - i + 4) `div` 5)%nat ∧
    ∀ (k : nat) c, commits !! k = Some c →
      is_Some (f_hash c) ∧ is_Some (f_authorName c) ∧
      is_Some (f_authorEmail c) ∧
      f_hash c = lines !! (i + 5 * k)%nat ∧
      f_authorName c = lines !! (i + 5 * k + 1)%nat ∧
      f_authorEmail c = lines !! (i + 5 * k + 2)%nat ∧
      Some (f_authorDate c) = slice_0_m6 <$> lines !! (i + 5 * k + 3)%nat ∧
      f_message c = lines !! (i + 5 * k + 4)%nat.
Proof.
  induction fuel as [|fuel IH]; intros i Hfuel; [lia|].
  cbn [data_loop].
  destruct (decide (i < length lines - 1)%nat) as [Hlt|Hge].
  2:{ rewrite (bool_decide_eq_false_2 (i < _)%nat) by done.
      replace (length lines - 1 - i)%nat with 0%nat by lia.
      rewrite bool_decide_eq_false_2 by (simpl; lia).
      exists []. split_and!; [done..|]. intros k c Hk. done. }
  rewrite (bool_decide_eq_true_2 (i < _)%nat) by done.
  destruct (lines !! (i + 3)%nat) as [date|] eqn:Hdate.
  2:{ apply lookup_ge_None in Hdate.
      rewrite bool_decide_eq_true_2; [done|].
      assert (length lines - 1 - i = 1 ∨ length lines - 1 - i = 2)%nat
        as [-> | ->] by lia; simpl; lia. }
  pose proof (lookup_lt_Some _ _ _ Hdate) as Hlen.
  specialize (IH (i + 5)%nat ltac:(lia)).
  destruct (decide (length lines - 1 - i ≤ 5)%nat) as [Hlast|Hmore].
  - replace (length lines - 1 - (i + 5))%nat with 0%nat in IH by lia.
    rewrite bool_decide_eq_false_2 in IH by (simpl; lia).
    destruct IH as (commits & -> & Hn & _).
    destruct commits; [|simpl in Hn; done].
    rewrite bool_decide_eq_false_2.
    2:{ assert (length lines - 1 - i = 3 ∨ length lines - 1 - i = 4 ∨
                length lines - 1 - i = 5)%nat as [-> | [-> | ->]] by lia;
          simpl; lia. }
    eexists. split; [done|]. split.
    { assert (length lines - 1 - i = 3 ∨ length lines - 1 - i = 4 ∨
              length lines - 1 - i = 5)%nat as [-> | [-> | ->]] by lia; done. }
    intros [|k] c Hk; [|done]. injection Hk as <-. simpl.
    rewrite Nat.add_0_r, Hdate.
    split_and!; try done; apply lookup_lt_is_Some; lia.
  - assert (Hmod : ((length lines - 1 - (i + 5)) `mod` 5
                    = (length lines - 1 - i) `mod` 5)%nat).
    { replace (length lines - 1 - i)%nat
        with (length lines - 1 - (i + 5) + 1 * 5)%nat by lia.
      by rewrite Nat.Div0.mod_add. }
    rewrite Hmod in IH.
    case_bool_decide as Hthrow.
    + by rewrite IH.
    + destruct IH as (commits & -> & Hn & Hfields).
      eexists. split; [done|]. split.
      { cbn [length]. rewrite Hn.
        replace (length lines - 1 - i + 4)%nat
          with (length lines - 1 - (i + 5) + 4 + 1 * 5)%nat by lia.
        rewrite Nat.div_add by done. lia. }
      intros [|k] c Hk.
      * injection Hk as <-. simpl. rewrite Nat.add_0_r, Hdate.
        split_and!; try done; apply lookup_lt_is_Some; lia.
      * simpl in Hk. specialize (Hfields k c Hk).
        replace (i + 5 * S k)%nat with (i + 5 + 5 * k)%nat by lia. done.
Qed.

(** On any output, [getCommitsData] returns or throws: it throws exactly
    when the lines after the last full group of five are one or two (the
    date of the last commit is missing); otherwise it returns one commit
    per group of five lines, begun or full, and reads the fields of the
    [k]-th commit from the lines [5k] to [5k + 4]. *)
Theorem getCommitsData_outcome gitLogOutput :
  let lines := js_split newline gitLogOutput in
  let n := (length lines - 1)%nat in
  if bool_decide (n `mod` 5 = 1 ∨ n `mod` 5 = 2)%nat
  then getCommitsData gitLogOutput = TypeError
  else ∃ commits,
    getCommitsData gitLogOutput = Done commits ∧
    length commits = ((n + 4) `div` 5)%nat ∧
    ∀ (k : nat) c, commits !! k = Some c →
      is_Some (f_hash c) ∧ is_Some (f_authorName c) ∧
      is_Some (f_authorEmail c) ∧
      f_hash c = lines !! (5 * k)%nat ∧
      f_authorName c = lines !! (5 * k + 1)%nat ∧
      f_authorEmail c = lines !! (5 * k + 2)%nat ∧
      Some (f_authorDate c) = slice_0_m6 <$> lines !! (5 * k + 3)%nat ∧
      f_message c = lines !! (5 * k + 4)%nat.
Proof.
  intros lines n. unfold getCommitsData. fold lines.
  pose proof (data_loop_spec lines (S (length lines)) 0 ltac:(lia)) as H.
  rewrite Nat.sub_0_r in H. fold n in H. exact H.
Qed.
